(** * disaster_response.py: the weather risk scorer and the location aggregator

    A shallow embedding of [WeatherRiskAnalyzer.calculate_risk],
    [DisasterResponseSystem.fetch_weather_data],
    [DisasterResponseSystem.update_all_locations] and
    [DisasterResponseSystem.get_risk_color].

    Python's [float] is IEEE-754 binary64 with round-to-nearest-even; it is
    modelled by Rocq's primitive [float], which is the same format with the
    same rounding.  Python's [int] is [Z].  A decoded JSON document is a
    [pyval]. *)

From Stdlib Require Import ZArith Lia Bool List Floats.
From stdpp Require Import base option list strings gmap.

Set Warnings "-inexact-float,-register-all".

Local Open Scope Z_scope.

(** ** Python values and exceptions *)

(** The values [response.json()] can produce. *)
Inductive pyval : Type :=
| PyNone
| PyBool (b : bool)
| PyInt (z : Z)
| PyFloat (f : float)
| PyStr (s : string)
| PyList (xs : list pyval)
| PyDict (kvs : list (string * pyval)).

(** The exceptions the program meets: those of its own operations, those of
    the request and of the decoder, and those raised inside folium while it
    renders a map, by the name of their class (TemplateSyntaxError,
    ZeroDivisionError and so on). *)
Inductive pyexc : Type :=
| AttributeError
| IndexError
| KeyError
| TypeError
| OverflowError
| RequestException
| JSONDecodeError
| RenderingError (cls : string).

(** A computation that returns a value or raises. *)
Inductive result (A : Type) : Type :=
| Ok (a : A)
| Raise (e : pyexc).
Arguments Ok {A} a.
Arguments Raise {A} e.

Definition bind {A B : Type} (r : result A) (k : A -> result B) : result B :=
  match r with
  | Ok a => k a
  | Raise e => Raise e
  end.

Notation "x <- r ;; k" := (bind r (fun x => k))
  (at level 100, r at next level, right associativity).

Definition is_ok {A : Type} (r : result A) : bool :=
  match r with Ok _ => true | Raise _ => false end.

(** ** The operations of Python the scorer uses *)

(** Lookup in a dict literal or a decoded JSON object. *)
Fixpoint assoc (k : string) (kvs : list (string * pyval)) : option pyval :=
  match kvs with
  | [] => None
  | (k', v) :: rest => if String.eqb k k' then Some v else assoc k rest
  end.

(** [d.get(k, default)]: only a dict has the method. *)
Definition dict_get (d : pyval) (k : string) (default : pyval) : result pyval :=
  match d with
  | PyDict kvs => Ok (from_option id default (assoc k kvs))
  | _ => Raise AttributeError
  end.

(** [v[0]]. The keys of a decoded JSON object are strings, so the integer
    key 0 is never found in one. *)
Definition subscript0 (v : pyval) : result pyval :=
  match v with
  | PyList [] => Raise IndexError
  | PyList (x :: _) => Ok x
  | PyStr EmptyString => Raise IndexError
  | PyStr (String c _) => Ok (PyStr (String c EmptyString))
  | PyDict _ => Raise KeyError
  | _ => Raise TypeError
  end.

(** [bool] is a subclass of [int]: True is 1 and False is 0. *)
Definition Z_of_bool (b : bool) : Z := if b then 1 else 0.

(** [v > n] and [v < n] for an int literal [n] that a float holds exactly
    ([nf] is [float(n)]); str, None, list and dict do not compare with int. *)
Definition py_gt (v : pyval) (n : Z) (nf : float) : result bool :=
  match v with
  | PyInt z => Ok (n <? z)
  | PyBool b => Ok (n <? Z_of_bool b)
  | PyFloat f => Ok (nf <? f)%float
  | _ => Raise TypeError
  end.

Definition py_lt (v : pyval) (n : Z) (nf : float) : result bool :=
  match v with
  | PyInt z => Ok (z <? n)
  | PyBool b => Ok (Z_of_bool b <? n)
  | PyFloat f => Ok (f <? nf)%float
  | _ => Raise TypeError
  end.

(** [a or b] on two comparisons: [b] is evaluated only when [a] is False. *)
Definition py_or (a b : result bool) : result bool :=
  x <- a ;; if x then Ok true else b.

(** [a / b] on two ints, [b > 0]: the quotient correctly rounded to the
    nearest float, OverflowError when it is too large for one. *)
Definition int_truediv (a b : Z) : result float :=
  match a with
  | Z0 => Ok 0%float
  | _ =>
      let '(m, e, l) := SFdiv_core_binary prec emax (Z.abs a) 0 b 0 in
      match binary_round_aux prec emax (a <? 0) m e l with
      | S754_infinity _ => Raise OverflowError
      | r => Ok (SF2Prim r)
      end
  end.

(** [v / n] for an int literal [n] ([nf] is [float(n)]). *)
Definition py_truediv (v : pyval) (n : Z) (nf : float) : result float :=
  match v with
  | PyInt z => int_truediv z n
  | PyBool b => int_truediv (Z_of_bool b) n
  | PyFloat f => Ok (f / nf)%float
  | _ => Raise TypeError
  end.

(** [min(a, b)]: the builtin keeps [a] unless [b < a]. *)
Definition py_min (a b : float) : float :=
  if (b <? a)%float then b else a.

(** ** WeatherRiskAnalyzer *)

(** [self.weather_risk_weights]. *)
Definition weather_risk_weights : list (string * float) :=
  [ ("Thunderstorm", 0.9); ("Tornado", 1.0); ("Hurricane", 1.0);
    ("Tropical Storm", 0.9); ("Rain", 0.6); ("Snow", 0.7); ("Extreme", 0.8);
    ("Drizzle", 0.3); ("Clouds", 0.2); ("Clear", 0.1) ]%float.

Fixpoint weights_lookup (k : string) (tbl : list (string * float)) : option float :=
  match tbl with
  | [] => None
  | (k', w) :: rest => if String.eqb k k' then Some w else weights_lookup k rest
  end.

(** [self.weather_risk_weights.get(main_condition, 0.1)]: a list or a dict is
    not hashable; every other key that is not a str is merely absent. *)
Definition weights_get (main_condition : pyval) : result float :=
  match main_condition with
  | PyStr s => Ok (from_option id 0.1%float (weights_lookup s weather_risk_weights))
  | PyList _ | PyDict _ => Raise TypeError
  | _ => Ok 0.1%float
  end.

(** [if temp > 35 or temp < -10: 0.3 elif temp > 30 or temp < 0: 0.2], else
    the initial int 0, which the sum below turns into 0.0. *)
Definition temp_risk_of (temp : pyval) : result float :=
  extreme <- py_or (py_gt temp 35 35%float) (py_lt temp (-10) (-10)%float) ;;
  if extreme then Ok 0.3%float
  else
    moderate <- py_or (py_gt temp 30 30%float) (py_lt temp 0 0%float) ;;
    Ok (if moderate then 0.2%float else 0%float).

(** [d.get(outer, {}).get(inner, 0)]. *)
Definition get2 (d : pyval) (outer inner : string) : result pyval :=
  sub <- dict_get d outer (PyDict []) ;;
  dict_get sub inner (PyInt 0).

(** [weather_data.get('weather', [{}])[0].get('main', 'Clear')]. *)
Definition main_condition_of (weather_data : pyval) : result pyval :=
  weather <- dict_get weather_data "weather" (PyList [PyDict []]) ;;
  first <- subscript0 weather ;;
  dict_get first "main" (PyStr "Clear").

Definition calculate_risk (weather_data : pyval) : result float :=
  let base_risk := 0.1%float in
  (* risk due to weather *)
  main_condition <- main_condition_of weather_data ;;
  weather_risk <- weights_get main_condition ;;
  (* risk due to extreme temperatures *)
  temp <- get2 weather_data "main" "temp" ;;
  temp_risk <- temp_risk_of temp ;;
  (* risk due to wind speed *)
  wind_speed <- get2 weather_data "wind" "speed" ;;
  wind_quot <- py_truediv wind_speed 100 100%float ;;
  let wind_risk := py_min wind_quot 0.4%float in
  (* risk due to precipitation *)
  rain <- get2 weather_data "rain" "1h" ;;
  rain_quot <- py_truediv rain 50 50%float ;;
  let rain_risk := py_min rain_quot 0.3%float in
  (* final calculation *)
  let total_risk :=
    py_min 0.95%float
      (base_risk + weather_risk + temp_risk + wind_risk + rain_risk)%float in
  Ok total_risk.

(** ** DisasterResponseSystem *)

(** An entry of [self.monitored_locations]. *)
Record Location : Type := {
  name : string;
  lat : float;
  lon : float
}.

(** The dict [fetch_weather_data] returns on success. *)
Record RiskSnapshot : Type := {
  location : string;
  latitude : float;
  longitude : float;
  snap_weather_data : pyval;
  risk_score : float;
  timestamp : string
}.

(** The attributes of the system that a refresh reads or writes. *)
Record DisasterResponseSystem : Type := {
  weather_data : gmap string RiskSnapshot;
  monitored_locations : list Location
}.

(** [self.monitored_locations] as [__init__] sets it. *)
Definition default_locations : list Location :=
  [ {| name := "New York"; lat := 40.7128; lon := -74.0060 |};
    {| name := "Los Angeles"; lat := 34.0522; lon := -118.2437 |};
    {| name := "Chicago"; lat := 41.8781; lon := -87.6298 |};
    {| name := "Houston"; lat := 29.7604; lon := -95.3698 |};
    {| name := "Phoenix"; lat := 33.4484; lon := -112.0740 |};
    {| name := "Miami"; lat := 25.7617; lon := -80.1918 |};
    {| name := "Seattle"; lat := 47.6062; lon := -122.3321 |};
    {| name := "Denver"; lat := 39.7392; lon := -104.9903 |};
    {| name := "New Orleans"; lat := 29.9511; lon := -90.0715 |};
    {| name := "Kansas City"; lat := 39.0997; lon := -94.5786 |} ]%float.

Definition init : DisasterResponseSystem :=
  {| weather_data := ∅; monitored_locations := default_locations |}.

(** What the outside world answers to one call of [fetch_weather_data]:
    [requests.get] returns a response or raises; [response.json()] returns the
    decoded body or raises; [datetime.now().isoformat()] is the clock. *)
Record Response : Type := {
  status_code : Z;
  json : result pyval
}.

Record Exchange : Type := {
  requests_get : result Response;
  now_isoformat : string
}.

(** The body of the [try] block. A status other than 200 falls off the end of
    the function, which returns None. *)
Definition fetch_try (x : Exchange) (loc : Location) : result (option RiskSnapshot) :=
  response <- requests_get x ;;
  if status_code response =? 200 then
    wd <- json response ;;
    risk <- calculate_risk wd ;;
    Ok (Some {| location := name loc;
                latitude := lat loc;
                longitude := lon loc;
                snap_weather_data := wd;
                risk_score := risk;
                timestamp := now_isoformat x |})
  else Ok None.

(** [except Exception as e: print(...); return None]. The printed line is not
    part of the model. *)
Definition fetch_weather_data (x : Exchange) (loc : Location)
  : result (option RiskSnapshot) :=
  match fetch_try x loc with
  | Raise _ => Ok None
  | r => r
  end.

(** One refresh pass: the i-th monitored location with the world's answer to
    the i-th call. *)
Definition pass (world : nat -> Exchange) (locs : list Location)
  : list (Location * Exchange) :=
  imap (fun i loc => (loc, world i)) locs.

(** [list(executor.map(f, xs))]: the results in the order of [xs], whatever
    the order the workers finish in; an exception of a call is raised again
    when its result is collected. The calls share no state, so the pool is
    modelled by the sequence of its calls. *)
Fixpoint executor_map {A B : Type} (f : A -> result B) (xs : list A)
  : result (list B) :=
  match xs with
  | [] => Ok []
  | x :: rest =>
      y <- f x ;;
      ys <- executor_map f rest ;;
      Ok (y :: ys)
  end.

(** [[r for r in results if r is not None]]. *)
Definition valid_results_of (results : list (option RiskSnapshot))
  : list RiskSnapshot :=
  omap id results.

(** [{result["location"]: result for result in valid_results}]: entries are
    stored in order, a later one replacing an earlier one under the same key. *)
Definition dict_by_location (rs : list RiskSnapshot) : gmap string RiskSnapshot :=
  foldl (fun m r => <[location r := r]> m) ∅ rs.

Definition update_all_locations (self : DisasterResponseSystem)
    (world : nat -> Exchange)
  : result (DisasterResponseSystem * list RiskSnapshot) :=
  results <- executor_map (fun '(loc, x) => fetch_weather_data x loc)
               (pass world (monitored_locations self)) ;;
  let valid_results := valid_results_of results in
  Ok ({| weather_data := dict_by_location valid_results;
         monitored_locations := monitored_locations self |},
      valid_results).

Definition get_risk_color (risk_score : float) : string :=
  if (risk_score <? 0.3)%float then "green"
  else if (risk_score <? 0.7)%float then "orange"
  else "red".

(** ** The data model of the specification *)

(** A weather observation as the specification sees it: the four attributes
    the scorer reads, each with its default when absent. *)
Record WeatherObservation : Type := {
  condition : string;
  temperature : float;
  windSpeed : float;
  precipitationLastHour : float
}.

(** [float(z)], for an int that a float holds exactly. *)
Definition float_of_int (z : Z) : float :=
  SF2Prim (binary_normalize prec emax z 0 false).

(** A number attribute [outer.inner] of a decoded body, as a float: 0 when
    either key is absent; a JSON number without fraction is an int, and stands
    for the float of the same value when it has one (up to 2 ^ 53); undefined
    when the shape or the type is another one. *)
Definition float_field (kvs : list (string * pyval)) (outer inner : string)
  : option float :=
  match assoc outer kvs with
  | None => Some 0%float
  | Some (PyDict d) =>
      match assoc inner d with
      | None => Some 0%float
      | Some (PyFloat f) => Some f
      | Some (PyInt z) =>
          if Z.abs z <=? 2 ^ 53 then Some (float_of_int z) else None
      | Some _ => None
      end
  | Some _ => None
  end.

(** The primary condition label: the [main] of the first entry of [weather],
    "Clear" when either is absent. *)
Definition condition_field (kvs : list (string * pyval)) : option string :=
  match assoc "weather" kvs with
  | None => Some "Clear"
  | Some (PyList (PyDict d :: _)) =>
      match assoc "main" d with
      | None => Some "Clear"
      | Some (PyStr s) => Some s
      | Some _ => None
      end
  | Some _ => None
  end.

(** The observation a decoded body carries, when it has the shape of one.
    Other keys of the body are not looked at. *)
Definition observe (wd : pyval) : option WeatherObservation :=
  match wd with
  | PyDict kvs =>
      c ← condition_field kvs;
      t ← float_field kvs "main" "temp";
      w ← float_field kvs "wind" "speed";
      p ← float_field kvs "rain" "1h";
      Some {| condition := c; temperature := t; windSpeed := w;
              precipitationLastHour := p |}
  | _ => None
  end.

(** The score as the specification words it: five terms, summed and capped. *)
Definition conditionWeight (c : string) : float :=
  from_option id 0.1%float (weights_lookup c weather_risk_weights).

Definition tempRisk (t : float) : float :=
  if (35 <? t)%float || (t <? -10)%float then 0.3%float
  else if (30 <? t)%float || (t <? 0)%float then 0.2%float
  else 0%float.

(** min(a, b): [b] when it is the smaller one, else [a]. *)
Definition fmin (a b : float) : float :=
  if (b <? a)%float then b else a.

Definition score (o : WeatherObservation) : float :=
  fmin 0.95
    (0.1 + conditionWeight (condition o) + tempRisk (temperature o)
     + fmin (windSpeed o / 100) 0.4
     + fmin (precipitationLastHour o / 50) 0.3)%float.

(** The record of one fetch, None when it leaves none. *)
Definition fetched (p : Location * Exchange) : option RiskSnapshot :=
  match fetch_weather_data p.2 p.1 with
  | Ok r => r
  | Raise _ => None
  end.

(** The failures of a fetch the specification lists: a network error, a status
    other than 200, a body that does not parse. *)
Definition fetch_failed (x : Exchange) : bool :=
  match requests_get x with
  | Raise _ => true
  | Ok response =>
      negb (status_code response =? 200) || negb (is_ok (json response))
  end.

(** A fetch that got a body on which the scorer raises. *)
Definition scorer_failed (x : Exchange) : bool :=
  match requests_get x with
  | Raise _ => false
  | Ok response =>
      (status_code response =? 200) &&
      match json response with
      | Ok wd => negb (is_ok (calculate_risk wd))
      | Raise _ => false
      end
  end.

(** A fetch that leaves no record. *)
Definition dropped (x : Exchange) : bool :=
  fetch_failed x || scorer_failed x.

(** The snapshot's copy of its location. *)
Definition location_of (r : RiskSnapshot) : Location :=
  {| name := location r; lat := latitude r; lon := longitude r |}.

(** ** What the scorer needs of a body to return *)

Definition is_number (v : pyval) : bool :=
  match v with
  | PyInt _ | PyBool _ | PyFloat _ => true
  | _ => false
  end.

Definition hashable (v : pyval) : bool :=
  match v with
  | PyList _ | PyDict _ => false
  | _ => true
  end.

(** A dividend whose quotient by a small int is a float: an int must not
    be too large for one. *)
Definition is_dividend (v : pyval) : bool :=
  match v with
  | PyBool _ | PyFloat _ => true
  | PyInt z => Z.abs z <? 2 ^ 1023
  | _ => false
  end.

(** The attribute [outer.inner] is absent or passes [ok]; [outer], when
    present, is a dict. *)
Definition field_ok (ok : pyval -> bool) (kvs : list (string * pyval))
    (outer inner : string) : bool :=
  match assoc outer kvs with
  | None => true
  | Some (PyDict d) =>
      match assoc inner d with
      | None => true
      | Some v => ok v
      end
  | Some _ => false
  end.

(** [weather], when present, is a list that starts with a dict whose [main],
    when present, can be a key of the weight table. *)
Definition weather_ok (kvs : list (string * pyval)) : bool :=
  match assoc "weather" kvs with
  | None => true
  | Some (PyList (PyDict d :: _)) =>
      match assoc "main" d with
      | None => true
      | Some v => hashable v
      end
  | Some _ => false
  end.

Definition well_typed (wd : pyval) : bool :=
  match wd with
  | PyDict kvs =>
      weather_ok kvs
      && field_ok is_number kvs "main" "temp"
      && field_ok is_dividend kvs "wind" "speed"
      && field_ok is_dividend kvs "rain" "1h"
  | _ => false
  end.

(** A float that is not below zero: a zero of either sign, a positive number,
    plus infinity, or NaN. *)
Definition SFnonneg (x : spec_float) : bool := negb (SFltb x (S754_zero false)).

Definition nonneg (x : float) : Prop := (x <? 0)%float = false.

(** ** The dashboard *)

(** [v[k]] for a str key: only a dict takes one; an absent key is a
    KeyError. *)
Definition subscript (v : pyval) (k : string) : result pyval :=
  match v with
  | PyDict kvs =>
      match assoc k kvs with
      | Some x => Ok x
      | None => Raise KeyError
      end
  | _ => Raise TypeError
  end.

(** The values the f-string [popup_html] interpolates, in its order; the
    text between them is constant. Formatting a decoded JSON value, and a
    float with [.2f], does not raise. *)
Record Popup : Type := {
  popup_location : string;
  popup_temp : pyval;
  popup_conditions : pyval;
  popup_wind_speed : pyval;
  popup_humidity : pyval;
  popup_risk_score : float
}.

Definition popup_html (location_data : RiskSnapshot) : result Popup :=
  let weather_info := snap_weather_data location_data in
  let risk_score := risk_score location_data in
  main <- subscript weather_info "main" ;;
  temp <- subscript main "temp" ;;
  weather <- subscript weather_info "weather" ;;
  first <- subscript0 weather ;;
  conditions <- subscript first "main" ;;
  wind <- subscript weather_info "wind" ;;
  speed <- subscript wind "speed" ;;
  main' <- subscript weather_info "main" ;;
  humidity <- subscript main' "humidity" ;;
  Ok {| popup_location := location location_data;
        popup_temp := temp;
        popup_conditions := conditions;
        popup_wind_speed := speed;
        popup_humidity := humidity;
        popup_risk_score := risk_score |}.

(** The arguments of [folium.CircleMarker] and of its [folium.Popup]. folium
    is a library outside the repository: a map and a marker are taken as the
    records of the arguments they are built from. folium refuses a
    coordinate that is NaN; what is proved of the map is about coordinates
    that are numbers. *)
Record CircleMarker : Type := {
  marker_location : float * float;
  radius : Z;
  popup : Popup;
  max_width : Z;
  color : string;
  fill : bool;
  fill_color : string
}.

(** A [folium.Map] with the markers added to it, the first one first. *)
Record FoliumMap : Type := {
  map_location : float * float;
  zoom_start : Z;
  markers : list CircleMarker
}.

(** One turn of the loop of [create_heatmap]. *)
Definition add_marker (m : FoliumMap) (location_data : RiskSnapshot)
  : result FoliumMap :=
  let risk_score := risk_score location_data in
  popup_html <- popup_html location_data ;;
  Ok {| map_location := map_location m;
        zoom_start := zoom_start m;
        markers :=
          markers m ++
          [ {| marker_location :=
                 (latitude location_data, longitude location_data);
               radius := 20;
               popup := popup_html;
               max_width := 300;
               color := get_risk_color risk_score;
               fill := true;
               fill_color := get_risk_color risk_score |} ] |}.

(** [for location_data in ...: ...]: the loop stops at the first turn that
    raises. *)
Fixpoint add_markers (m : FoliumMap) (values : list RiskSnapshot)
  : result FoliumMap :=
  match values with
  | [] => Ok m
  | location_data :: rest =>
      m' <- add_marker m location_data ;;
      add_markers m' rest
  end.

(** Python's dict keeps its keys in the order of their first insertion, and
    [d[k] = v] on a key that is there replaces the value where it stands.
    [gmap] forgets the order, so the handlers that list the values work on
    the dict as a list of entries. *)
Fixpoint pydict_set (k : string) (v : RiskSnapshot)
    (d : list (string * RiskSnapshot)) : list (string * RiskSnapshot) :=
  match d with
  | [] => [(k, v)]
  | (k', v') :: rest =>
      if String.eqb k k' then (k, v) :: rest else (k', v') :: pydict_set k v rest
  end.

(** [{result["location"]: result for result in valid_results}], in order. *)
Definition dict_comprehension (rs : list RiskSnapshot)
  : list (string * RiskSnapshot) :=
  foldl (fun d r => pydict_set (location r) r d) [] rs.

(** The module's [drs], with its dict in order. *)
Record Drs : Type := {
  drs_weather_data : list (string * RiskSnapshot);
  drs_monitored_locations : list Location
}.

(** The system the ordered one stands for. *)
Definition drs_view (self : Drs) : DisasterResponseSystem :=
  {| weather_data := list_to_map (drs_weather_data self);
     monitored_locations := drs_monitored_locations self |}.

(** [drs = DisasterResponseSystem()]. *)
Definition drs_init : Drs :=
  {| drs_weather_data := []; drs_monitored_locations := default_locations |}.

(** [update_all_locations] on the ordered dict. *)
Definition update_all_locations_in_order (self : Drs) (world : nat -> Exchange)
  : result (Drs * list RiskSnapshot) :=
  results <- executor_map (fun '(loc, x) => fetch_weather_data x loc)
               (pass world (drs_monitored_locations self)) ;;
  let valid_results := valid_results_of results in
  Ok ({| drs_weather_data := dict_comprehension valid_results;
         drs_monitored_locations := drs_monitored_locations self |},
      valid_results).

(** [create_heatmap]: the system it leaves, and the html it returns or the
    exception it raises. [repr_html] stands for [m._repr_html_()], folium's
    rendering of the map: it is code outside the repository, which renders
    the text of the popups as templates and so can raise on a body that the
    loop took; what it does on a map is left open. *)
Definition create_heatmap (repr_html : FoliumMap -> result string)
    (self : Drs) (world : nat -> Exchange)
  : Drs * result string :=
  let m := {| map_location := (39.8283, -98.5795)%float; zoom_start := 4;
              markers := [] |} in
  match update_all_locations_in_order self world with
  | Raise e => (self, Raise e)
  | Ok (self', _) =>
      (self',
       m' <- add_markers m (drs_weather_data self').*2 ;;
       repr_html m')
  end.

(** The route [/]: the template is constant around the heatmap, which it
    takes as it is. *)
Definition dashboard (repr_html : FoliumMap -> result string)
    (drs : Drs) (world : nat -> Exchange)
  : Drs * result string :=
  create_heatmap repr_html drs world.

(** The route [/api/alerts]: [list(drs.weather_data.values())], which
    [jsonify] then serializes. *)
Definition get_alerts (drs : Drs) : list RiskSnapshot :=
  (drs_weather_data drs).*2.

(** The class the script of the dashboard gives an alert:
    [alert.risk_score >= 0.7 ? 'bg-red-100' : alert.risk_score >= 0.3 ?
    'bg-yellow-100' : 'bg-green-100']. A number of JavaScript is a binary64
    float too, and the JSON text of a finite float reads back as the same
    float. *)
Definition alertClass (risk_score : float) : string :=
  if (0.7 <=? risk_score)%float then "bg-red-100"
  else if (0.3 <=? risk_score)%float then "bg-yellow-100"
  else "bg-green-100".

(** The marker [create_heatmap] adds for a snapshot. *)
Definition marks (r : RiskSnapshot) (mk : CircleMarker) : Prop :=
  marker_location mk = (latitude r, longitude r)
  /\ radius mk = 20
  /\ popup_html r = Ok (popup mk)
  /\ max_width mk = 300
  /\ color mk = get_risk_color (risk_score r)
  /\ fill mk = true
  /\ fill_color mk = get_risk_color (risk_score r).

(** A body [create_heatmap] can show: it has [main.temp], [main.humidity],
    [wind.speed] and the [main] of the first entry of [weather]. *)
Definition has_key (v : option pyval) (k : string) : bool :=
  match v with
  | Some (PyDict d) => match assoc k d with Some _ => true | None => false end
  | _ => false
  end.

Definition displayable (wd : pyval) : bool :=
  match wd with
  | PyDict kvs =>
      has_key (assoc "main" kvs) "temp"
      && match assoc "weather" kvs with
         | Some (PyList (first :: _)) => has_key (Some first) "main"
         | _ => false
         end
      && has_key (assoc "wind" kvs) "speed"
      && has_key (assoc "main" kvs) "humidity"
  | _ => false
  end.

(** The dividends on which [v / n] returns, for an int [n] above zero: a
    float, a bool, or an int whose quotient by [n] rounds to a float, which
    it does below the middle of the largest float and 2 ^ 1024. *)
Definition divides (n : Z) (v : pyval) : bool :=
  match v with
  | PyFloat _ | PyBool _ => true
  | PyInt z => Z.abs z <? n * (2 ^ 1024 - 2 ^ 970)
  | _ => false
  end.

(** The bodies the scorer returns on. *)
Definition scorable (wd : pyval) : bool :=
  match wd with
  | PyDict kvs =>
      weather_ok kvs
      && field_ok is_number kvs "main" "temp"
      && field_ok (divides 100) kvs "wind" "speed"
      && field_ok (divides 50) kvs "rain" "1h"
  | _ => false
  end.

(** * Properties *)

(** ** The order of binary64 *)

Section FloatOrder.

Definition le_cmp (c : comparison) : bool :=
  match c with Gt => false | _ => true end.

Definition cmp_seq (c1 c2 : comparison) : comparison :=
  match c1 with Eq => c2 | _ => c1 end.

Ltac case_compare :=
  repeat match goal with
  | H : context [Z.compare ?a ?b] |- _ => destruct (Z.compare_spec a b); simpl in H
  | |- context [Z.compare ?a ?b] => destruct (Z.compare_spec a b); simpl
  | H : context [Pos.compare ?a ?b] |- _ => destruct (Pos.compare_spec a b); simpl in H
  | |- context [Pos.compare ?a ?b] => destruct (Pos.compare_spec a b); simpl
  end.

Lemma SFcompare_trans (x y z : spec_float) (c1 c2 : comparison) :
  SFcompare x y = Some c1 -> SFcompare y z = Some c2 ->
  le_cmp c1 = true -> le_cmp c2 = true ->
  SFcompare x z = Some (cmp_seq c1 c2).
Proof.
  destruct x as [[]|[]| |[] mx ex], y as [[]|[]| |[] my ey], z as [[]|[]| |[] mz ez];
    simpl; intros H1 H2 L1 L2;
    try discriminate;
    try (injection H1 as <-); try (injection H2 as <-);
    try discriminate; try reflexivity;
    change (Pos.compare_cont Eq) with Pos.compare in *;
    case_compare; try discriminate; try reflexivity; try lia.
Qed.

Lemma SFcompare_antisym (x y : spec_float) :
  SFcompare y x = option_map CompOpp (SFcompare x y).
Proof.
  destruct x as [[]|[]| |[] mx ex], y as [[]|[]| |[] my ey]; try reflexivity; simpl;
    rewrite (Z.compare_antisym ex ey); destruct (ex ?= ey) eqn:E; simpl;
    try reflexivity;
    rewrite Pos.compare_cont_antisym; try rewrite CompOpp_involutive; reflexivity.
Qed.

Lemma SFcompare_refl (x : spec_float) :
  x <> S754_nan -> SFcompare x x = Some Eq.
Proof.
  destruct x as [[]|[]| |[] m e]; try easy; intros _; simpl;
    rewrite Z.compare_refl, Pos.compare_cont_refl; reflexivity.
Qed.

Lemma SFcompare_None (x y : spec_float) :
  SFcompare x y = None <-> x = S754_nan \/ y = S754_nan.
Proof.
  destruct x as [[]|[]| |[] mx ex], y as [[]|[]| |[] my ey]; simpl; split; intros H;
    try discriminate; try (destruct H; discriminate); auto;
    destruct (ex ?= ey); discriminate.
Qed.

Lemma is_nan_Prim2SF (f : float) :
  is_nan f = true <-> Prim2SF f = S754_nan.
Proof.
  unfold is_nan. rewrite FloatAxioms.eqb_spec. unfold SFeqb.
  destruct (Prim2SF f) as [[]|[]| |[] m e] eqn:E; simpl; try (split; easy);
    rewrite Z.compare_refl, Pos.compare_cont_refl; split; easy.
Qed.

Lemma not_nan_Prim2SF (f : float) :
  is_nan f = false <-> Prim2SF f <> S754_nan.
Proof.
  rewrite <- is_nan_Prim2SF. destruct (is_nan f); split; congruence.
Qed.

Lemma leb_trans (a b c : float) :
  (a <=? b)%float = true -> (b <=? c)%float = true -> (a <=? c)%float = true.
Proof.
  rewrite !FloatAxioms.leb_spec. unfold SFleb.
  destruct (SFcompare (Prim2SF a) (Prim2SF b)) as [c1|] eqn:E1; [|discriminate].
  destruct (SFcompare (Prim2SF b) (Prim2SF c)) as [c2|] eqn:E2; [|discriminate].
  intros H1 H2.
  rewrite (SFcompare_trans _ _ _ _ _ E1 E2) by (destruct c1, c2; easy).
  destruct c1, c2; easy.
Qed.

Lemma ltb_leb_trans (a b c : float) :
  (a <? b)%float = true -> (b <=? c)%float = true -> (a <? c)%float = true.
Proof.
  rewrite !FloatAxioms.leb_spec, !FloatAxioms.ltb_spec. unfold SFleb, SFltb.
  destruct (SFcompare (Prim2SF a) (Prim2SF b)) as [c1|] eqn:E1; [|discriminate].
  destruct (SFcompare (Prim2SF b) (Prim2SF c)) as [c2|] eqn:E2; [|discriminate].
  intros H1 H2.
  rewrite (SFcompare_trans _ _ _ _ _ E1 E2) by (destruct c1, c2; easy).
  destruct c1, c2; easy.
Qed.

Lemma leb_ltb_trans (a b c : float) :
  (a <=? b)%float = true -> (b <? c)%float = true -> (a <? c)%float = true.
Proof.
  rewrite !FloatAxioms.leb_spec, !FloatAxioms.ltb_spec. unfold SFleb, SFltb.
  destruct (SFcompare (Prim2SF a) (Prim2SF b)) as [c1|] eqn:E1; [|discriminate].
  destruct (SFcompare (Prim2SF b) (Prim2SF c)) as [c2|] eqn:E2; [|discriminate].
  intros H1 H2.
  rewrite (SFcompare_trans _ _ _ _ _ E1 E2) by (destruct c1, c2; easy).
  destruct c1, c2; easy.
Qed.

Lemma ltb_leb (a b : float) :
  (a <? b)%float = true -> (a <=? b)%float = true.
Proof.
  rewrite FloatAxioms.leb_spec, FloatAxioms.ltb_spec. unfold SFleb, SFltb.
  destruct (SFcompare (Prim2SF a) (Prim2SF b)) as [[]|]; easy.
Qed.

Lemma leb_refl (a : float) :
  is_nan a = false -> (a <=? a)%float = true.
Proof.
  rewrite not_nan_Prim2SF, FloatAxioms.leb_spec. unfold SFleb. intros H.
  rewrite SFcompare_refl by assumption. reflexivity.
Qed.

Lemma leb_not_nan (a b : float) :
  (a <=? b)%float = true -> is_nan a = false /\ is_nan b = false.
Proof.
  rewrite FloatAxioms.leb_spec, (not_nan_Prim2SF a), (not_nan_Prim2SF b). unfold SFleb.
  destruct (SFcompare (Prim2SF a) (Prim2SF b)) as [c|] eqn:E; [|discriminate].
  intros _. split; intros N; rewrite N in E;
    [|destruct (Prim2SF a) as [[]|[]| |[] ? ?]]; discriminate.
Qed.

Lemma ltb_not_nan (a b : float) :
  (a <? b)%float = true -> is_nan a = false /\ is_nan b = false.
Proof. intros H. apply leb_not_nan, ltb_leb, H. Qed.

Lemma ltb_negb_leb (a b : float) :
  is_nan a = false -> is_nan b = false ->
  (a <? b)%float = negb (b <=? a)%float.
Proof.
  rewrite (not_nan_Prim2SF a), (not_nan_Prim2SF b), FloatAxioms.leb_spec, FloatAxioms.ltb_spec.
  unfold SFleb, SFltb. intros Ha Hb.
  rewrite (SFcompare_antisym (Prim2SF a) (Prim2SF b)).
  destruct (SFcompare (Prim2SF a) (Prim2SF b)) as [[]|] eqn:E; try reflexivity.
  apply SFcompare_None in E. tauto.
Qed.

Lemma Prim2SF_zero : Prim2SF 0%float = S754_zero false.
Proof. reflexivity. Qed.

Lemma Prim2SF_100 : Prim2SF 100%float = S754_finite false 7036874417766400 (-46).
Proof. vm_compute. reflexivity. Qed.

Lemma Prim2SF_50 : Prim2SF 50%float = S754_finite false 7036874417766400 (-47).
Proof. vm_compute. reflexivity. Qed.

End FloatOrder.

(** ** Rounding in binary64

    The operations of [SpecFloat], to which the axioms of the primitive floats
    reduce [+] and [/], computed on valid floats: every finite binary64 number
    is an integer number of units of 2 ^ -1074, the sum of two is the exact
    sum rounded to nearest-even, and so is a quotient. *)

Section Rounding.

(** The exponent of the smallest positive binary64 number. *)
Definition emin64 : Z := -1074.

Lemma fexp_eq (e : Z) : fexp prec emax e = Z.max (e - 53) emin64.
Proof. reflexivity. Qed.

Lemma digits2_pos_bounds (p : positive) :
  2 ^ (Z.pos (digits2_pos p) - 1) <= Z.pos p < 2 ^ Z.pos (digits2_pos p).
Proof.
  induction p as [p IH|p IH|]; simpl digits2_pos.
  - rewrite Pos2Z.inj_succ.
    replace (Z.succ (Z.pos (digits2_pos p)) - 1) with (Z.succ (Z.pos (digits2_pos p) - 1)) by lia.
    rewrite !Z.pow_succ_r by lia. lia.
  - rewrite Pos2Z.inj_succ.
    replace (Z.succ (Z.pos (digits2_pos p)) - 1) with (Z.succ (Z.pos (digits2_pos p) - 1)) by lia.
    rewrite !Z.pow_succ_r by lia. lia.
  - simpl. lia.
Qed.

Lemma Zdigits2_bounds (m : Z) :
  0 < m -> 2 ^ (Zdigits2 m - 1) <= m < 2 ^ Zdigits2 m.
Proof.
  destruct m as [|p|p]; try lia. intros _. apply digits2_pos_bounds.
Qed.

Lemma Zdigits2_nonneg (m : Z) : 0 <= Zdigits2 m.
Proof. destruct m; simpl; lia. Qed.

Lemma Zdigits2_pos (m : Z) : 0 < m -> 0 < Zdigits2 m.
Proof. destruct m; simpl; lia. Qed.

(** The number of digits is determined by the two powers of 2 around. *)
Lemma Zdigits2_unique (m d : Z) :
  2 ^ (d - 1) <= m < 2 ^ d -> 0 < d -> Zdigits2 m = d.
Proof.
  intros [H1 H2] Hd.
  assert (Hm : 0 < m) by (pose proof (Z.pow_pos_nonneg 2 (d - 1)); lia).
  pose proof (Zdigits2_bounds m Hm) as [B1 B2].
  pose proof (Zdigits2_pos m Hm) as Hp.
  destruct (Z.lt_trichotomy (Zdigits2 m) d) as [L|[E|G]]; [|exact E|].
  - assert (2 ^ Zdigits2 m <= 2 ^ (d - 1)) by (apply Z.pow_le_mono_r; lia). lia.
  - assert (2 ^ d <= 2 ^ (Zdigits2 m - 1)) by (apply Z.pow_le_mono_r; lia). lia.
Qed.

Lemma Zdigits2_mono (a b : Z) : 0 <= a <= b -> Zdigits2 a <= Zdigits2 b.
Proof.
  intros [Ha Hab].
  destruct (Z.eq_dec a 0) as [->|Hz]; [apply Zdigits2_nonneg|].
  pose proof (Zdigits2_bounds a ltac:(lia)) as [A1 A2].
  pose proof (Zdigits2_bounds b ltac:(lia)) as [B1 B2].
  destruct (Z_lt_le_dec (Zdigits2 b) (Zdigits2 a)) as [L|]; [|assumption].
  assert (2 ^ Zdigits2 b <= 2 ^ (Zdigits2 a - 1)).
  { apply Z.pow_le_mono_r; [lia|]. lia. }
  lia.
Qed.

Lemma Zdigits2_mul_pow2 (m k : Z) :
  0 < m -> 0 <= k -> Zdigits2 (m * 2 ^ k) = Zdigits2 m + k.
Proof.
  intros Hm Hk.
  pose proof (Zdigits2_bounds m Hm) as [B1 B2].
  pose proof (Zdigits2_pos m Hm) as Hp.
  apply Zdigits2_unique; [|lia].
  replace (Zdigits2 m + k - 1) with (Zdigits2 m - 1 + k) by lia.
  rewrite !Z.pow_add_r by lia.
  assert (0 < 2 ^ k) by (apply Z.pow_pos_nonneg; lia).
  split; nia.
Qed.

Lemma Zdigits2_div_pow2 (q k : Z) :
  0 <= k -> 2 ^ k <= q -> Zdigits2 (q / 2 ^ k) = Zdigits2 q - k.
Proof.
  intros Hk Hq.
  assert (H2 : 0 < 2 ^ k) by (apply Z.pow_pos_nonneg; lia).
  pose proof (Zdigits2_bounds q ltac:(lia)) as [B1 B2].
  assert (Hd : k < Zdigits2 q).
  { destruct (Z_lt_le_dec k (Zdigits2 q)); [assumption|].
    assert (2 ^ Zdigits2 q <= 2 ^ k) by (apply Z.pow_le_mono_r; lia). lia. }
  apply Zdigits2_unique; [|lia]. split.
  - apply Z.div_le_lower_bound; [lia|].
    rewrite <- Z.pow_add_r by lia.
    replace (k + (Zdigits2 q - k - 1)) with (Zdigits2 q - 1) by lia. exact B1.
  - apply Z.div_lt_upper_bound; [lia|].
    rewrite <- Z.pow_add_r by lia.
    replace (k + (Zdigits2 q - k)) with (Zdigits2 q) by lia. exact B2.
Qed.


(** A shift record locates the real N/D: [shr_m] is its integer part, [shr_r]
    the first bit of its fraction, [shr_s] tells whether more follows. *)
Definition located (N D : Z) (r : shr_record) : Prop :=
  0 <= shr_m r
  /\ 2 * shr_m r + Z.b2z (shr_r r) = (2 * N) / D
  /\ shr_s r = negb ((2 * N) mod D =? 0).

Lemma shr_1_located (N D : Z) (r : shr_record) :
  0 < D -> located N D r -> located N (D * 2) (shr_1 r).
Proof.
  destruct r as [m b s]. unfold located. simpl.
  intros HD (Hm & Ht & Hs).
  assert (Hdiv : (2 * N) / (D * 2) = m).
  { rewrite <- Z.div_div by lia. rewrite <- Ht.
    replace (2 * m + Z.b2z b) with (Z.b2z b + m * 2) by lia.
    rewrite Z.div_add by lia.
    replace (Z.b2z b / 2) with 0 by (destruct b; reflexivity). lia. }
  assert (Hmod : (2 * N) mod (D * 2) = (2 * N) mod D + D * Z.b2z b).
  { rewrite Z.rem_mul_r by lia. rewrite <- Ht. f_equal. f_equal.
    replace (2 * m + Z.b2z b) with (Z.b2z b + m * 2) by lia.
    rewrite Z.mod_add by lia. destruct b; reflexivity. }
  pose proof (Z.mod_pos_bound (2 * N) D HD) as Hrho.
  assert (Hs' : orb b s = negb ((2 * N) mod (D * 2) =? 0)).
  { rewrite Hmod, Hs. destruct b; simpl Z.b2z.
    - simpl. symmetry. apply negb_true_iff, Z.eqb_neq. lia.
    - simpl. f_equal. f_equal. lia. }
  rewrite Hdiv, <- Hs'. clear Hdiv Hmod Ht Hs Hs' Hrho.
  destruct m as [|[p|p|]|p]; simpl; try lia; repeat split; lia.
Qed.

Lemma iter_pos_shr_1_located (p : positive) (N D : Z) (r : shr_record) :
  0 < D -> located N D r ->
  located N (D * 2 ^ Z.pos p) (SpecFloat.iter_pos shr_1 p r).
Proof.
  revert D r. induction p as [p IH|p IH|]; intros D r HD Hr; simpl SpecFloat.iter_pos.
  - assert (H2 : 0 < 2 ^ Z.pos p) by (apply Z.pow_pos_nonneg; lia).
    replace (D * 2 ^ Z.pos p~1) with (D * 2 * 2 ^ Z.pos p * 2 ^ Z.pos p).
    + apply IH; [nia|]. apply IH; [lia|]. apply shr_1_located; assumption.
    + replace (Z.pos p~1) with (1 + Z.pos p + Z.pos p) by lia.
      rewrite !Z.pow_add_r by lia. change (2 ^ 1) with 2. lia.
  - assert (H2 : 0 < 2 ^ Z.pos p) by (apply Z.pow_pos_nonneg; lia).
    replace (D * 2 ^ Z.pos p~0) with (D * 2 ^ Z.pos p * 2 ^ Z.pos p).
    + apply IH; [nia|]. apply IH; [lia|]. assumption.
    + replace (Z.pos p~0) with (Z.pos p + Z.pos p) by lia.
      rewrite !Z.pow_add_r by lia. lia.
  - change (2 ^ 1) with 2. apply shr_1_located; assumption.
Qed.

(** Shifting by [n] places moves the record from the grid of D to the grid
    of D * 2 ^ n. *)
Lemma shr_located (N D : Z) (r : shr_record) (e n : Z) :
  0 < D -> located N D r ->
  located N (D * 2 ^ Z.max n 0) (shr r e n).1 /\ (shr r e n).2 = e + Z.max n 0.
Proof.
  intros HD Hr. destruct n as [|p|p]; simpl.
  - rewrite Z.mul_1_r, Z.add_0_r. auto.
  - split; [|reflexivity]. apply iter_pos_shr_1_located; assumption.
  - rewrite Z.mul_1_r, Z.add_0_r. auto.
Qed.

(** Round to nearest, ties to even, of N/D. *)
Definition rne (N D : Z) : Z :=
  let t := (2 * N) / D in
  let m := t / 2 in
  if Z.odd t then
    if (2 * N) mod D =? 0 then (if Z.even m then m else m + 1) else m + 1
  else m.

Lemma located_rne (N D : Z) (r : shr_record) :
  located N D r ->
  round_nearest_even (shr_m r) (loc_of_shr_record r) = rne N D.
Proof.
  destruct r as [m b s]. unfold located, rne. simpl. intros (Hm & Ht & Hs).
  rewrite <- Ht, <- (negb_involutive (_ =? 0)), <- Hs.
  replace (2 * m + Z.b2z b) with (Z.b2z b + m * 2) by lia.
  rewrite Z.div_add by lia.
  replace (Z.b2z b / 2) with 0 by (destruct b; reflexivity).
  replace (Z.odd (Z.b2z b + m * 2)) with b.
  - destruct b, s; reflexivity.
  - rewrite Z.odd_add, Z.odd_mul. change (Z.odd 2) with false.
    rewrite andb_false_r. destruct b; reflexivity.
Qed.

Lemma rne_bounds (N D : Z) :
  0 <= N -> 0 < D -> N / D <= rne N D <= N / D + 1.
Proof.
  intros HN HD. unfold rne.
  assert (E : (2 * N) / D / 2 = N / D).
  { rewrite Z.div_div by lia. rewrite (Z.mul_comm D 2).
    apply Z.div_mul_cancel_l; lia. }
  rewrite E.
  destruct (Z.odd _); [|lia].
  destruct (_ =? 0); [|lia]. destruct (Z.even _); lia.
Qed.

Lemma rne_exact (m D : Z) : 0 < D -> rne (m * D) D = m.
Proof.
  intros HD. unfold rne.
  replace (2 * (m * D)) with ((2 * m) * D) by lia.
  rewrite Z.div_mul by lia. rewrite Z.odd_mul. change (Z.odd 2) with false.
  cbn [andb]. rewrite (Z.mul_comm 2 m). apply Z.div_mul. lia.
Qed.

Lemma rne_mono (N1 N2 D : Z) :
  0 <= N1 <= N2 -> 0 < D -> rne N1 D <= rne N2 D.
Proof.
  intros [H1 H12] HD.
  assert (Ht : (2 * N1) / D <= (2 * N2) / D) by (apply Z.div_le_mono; lia).
  pose proof (rne_bounds N2 D ltac:(lia) HD) as [B2 _].
  assert (E2 : (2 * N2) / D / 2 = N2 / D).
  { rewrite Z.div_div by lia. rewrite (Z.mul_comm D 2).
    apply Z.div_mul_cancel_l; lia. }
  assert (E1 : (2 * N1) / D / 2 = N1 / D).
  { rewrite Z.div_div by lia. rewrite (Z.mul_comm D 2).
    apply Z.div_mul_cancel_l; lia. }
  destruct (Z.eq_dec ((2 * N1) / D) ((2 * N2) / D)) as [E|NE].
  - unfold rne. rewrite <- E.
    destruct (Z.odd _); [|lia].
    pose proof (Z.div_mod (2 * N1) D ltac:(lia)) as M1.
    pose proof (Z.div_mod (2 * N2) D ltac:(lia)) as M2.
    rewrite <- E in M2.
    pose proof (Z.mod_pos_bound (2 * N1) D HD).
    pose proof (Z.mod_pos_bound (2 * N2) D HD).
    destruct (Z.eqb_spec ((2 * N1) mod D) 0), (Z.eqb_spec ((2 * N2) mod D) 0);
      try lia; destruct (Z.even _); lia.
  - assert (L : rne N1 D <= N2 / D); [|lia].
    unfold rne. rewrite E1.
    assert (N1 / D <= N2 / D) by (apply Z.div_le_mono; lia).
    destruct (Z.odd (2 * N1 / D)) eqn:O; [|lia].
    assert (N1 / D + 1 <= N2 / D).
    { rewrite <- E1, <- E2.
      pose proof (Z.div_mod (2 * N1 / D) 2 ltac:(lia)) as M1.
      pose proof (Z.div_mod (2 * N2 / D) 2 ltac:(lia)) as M2.
      rewrite Zmod_odd, O in M1.
      pose proof (Z.mod_pos_bound (2 * N2 / D) 2 ltac:(lia)). lia. }
    destruct (_ =? 0); [|lia]. destruct (Z.even _); lia.
Qed.


(** The shift that leaves 53 digits. *)
Definition sigma (q : Z) : Z := Z.max (Zdigits2 q - 53) 0.

(** N/D rounded to 53 significant bits, nearest-even, and no finer than the
    unit. *)
Definition rnd_units (N D : Z) : Z :=
  rne N (D * 2 ^ sigma (N / D)) * 2 ^ sigma (N / D).

Lemma Zdigits2_upper (q : Z) : 0 <= q -> q < 2 ^ Zdigits2 q.
Proof.
  intros Hq. destruct (Z.eq_dec q 0) as [->|]; [reflexivity|].
  apply Zdigits2_bounds. lia.
Qed.

Lemma sigma_nonneg (q : Z) : 0 <= sigma q.
Proof. unfold sigma. lia. Qed.

Lemma sigma_mono (a b : Z) : 0 <= a <= b -> sigma a <= sigma b.
Proof. intros H. unfold sigma. pose proof (Zdigits2_mono a b H). lia. Qed.

Lemma div_div_pow2 (N D k : Z) :
  0 < D -> 0 <= k -> N / (D * 2 ^ k) = N / D / 2 ^ k.
Proof.
  intros HD Hk. rewrite Z.div_div; [reflexivity|lia|].
  apply Z.pow_pos_nonneg; lia.
Qed.

(** The mantissa left by the shift [sigma] has at most 53 digits, and exactly
    53 when the shift is not zero. *)
Lemma shifted_mantissa_bounds (q : Z) :
  0 <= q ->
  0 <= q / 2 ^ sigma q < 2 ^ 53 /\ (0 < sigma q -> 2 ^ 52 <= q / 2 ^ sigma q).
Proof.
  intros Hq. pose proof (sigma_nonneg q) as Hs.
  assert (H2 : 0 < 2 ^ sigma q) by (apply Z.pow_pos_nonneg; lia).
  pose proof (Zdigits2_upper q Hq) as Hu.
  assert (Hle : 2 ^ Zdigits2 q <= 2 ^ (sigma q + 53)).
  { apply Z.pow_le_mono_r; [lia|]. unfold sigma. lia. }
  rewrite Z.pow_add_r in Hle by lia.
  split; [split|].
  - apply Z.div_pos; lia.
  - apply Z.div_lt_upper_bound; lia.
  - intros Hpos.
    assert (Hq0 : 0 < q).
    { destruct (Z.eq_dec q 0) as [->|]; [|lia]. unfold sigma in Hpos. simpl in Hpos. lia. }
    pose proof (Zdigits2_bounds q Hq0) as [Hl _].
    assert (Hd : Zdigits2 q - 1 = sigma q + 52) by (unfold sigma in *; lia).
    rewrite Hd, Z.pow_add_r in Hl by lia.
    apply Z.div_le_lower_bound; lia.
Qed.

Lemma rnd_units_mono (N1 N2 D : Z) :
  0 <= N1 <= N2 -> 0 < D -> rnd_units N1 D <= rnd_units N2 D.
Proof.
  intros [H1 H12] HD. unfold rnd_units.
  assert (Hq1 : 0 <= N1 / D) by (apply Z.div_pos; lia).
  assert (Hq : N1 / D <= N2 / D) by (apply Z.div_le_mono; lia).
  pose proof (sigma_mono (N1 / D) (N2 / D) ltac:(lia)) as Hs.
  pose proof (sigma_nonneg (N1 / D)) as Hs1.
  set (s1 := sigma (N1 / D)) in *. set (s2 := sigma (N2 / D)) in *.
  assert (P1 : 0 < 2 ^ s1) by (apply Z.pow_pos_nonneg; lia).
  assert (P2 : 0 < 2 ^ s2) by (apply Z.pow_pos_nonneg; lia).
  destruct (Z.eq_dec s1 s2) as [E|NE].
  - rewrite <- E. apply Z.mul_le_mono_nonneg_r; [lia|].
    apply rne_mono; [lia|nia].
  - pose proof (rne_bounds N1 (D * 2 ^ s1) H1 ltac:(nia)) as [_ U1].
    pose proof (rne_bounds N2 (D * 2 ^ s2) ltac:(lia) ltac:(nia)) as [L2 _].
    rewrite div_div_pow2 in U1, L2 by lia.
    pose proof (shifted_mantissa_bounds (N1 / D) Hq1) as [[_ B1] _].
    pose proof (shifted_mantissa_bounds (N2 / D) ltac:(lia)) as [_ B2].
    fold s1 in B1. fold s2 in B2. specialize (B2 ltac:(lia)).
    assert (Hpow : 2 ^ 53 * 2 ^ s1 <= 2 ^ 52 * 2 ^ s2).
    { rewrite <- !Z.pow_add_r by lia. apply Z.pow_le_mono_r; lia. }
    nia.
Qed.

(** The largest finite binary64 number is below 2 ^ 1024, which is [omega]
    units of 2 ^ -1074. *)
Definition omega : Z := 2 ^ 2098.

(** A float in units of 2 ^ -1074, the infinities at [omega]. *)
Definition units (x : spec_float) : Z :=
  match x with
  | S754_zero _ => 0
  | S754_infinity s => cond_Zopp s omega
  | S754_nan => 0
  | S754_finite s m e => cond_Zopp s (Z.pos m * 2 ^ (e - emin64))
  end.

Lemma valid_finite (s : bool) (m : positive) (e : Z) :
  valid_binary (S754_finite s m e) = true <->
  Z.max (Z.pos (digits2_pos m) + e - 53) emin64 = e /\ e <= 971.
Proof.
  unfold valid_binary, SpecFloat.valid_binary, bounded, canonical_mantissa.
  rewrite andb_true_iff, Z.eqb_eq, Z.leb_le, fexp_eq.
  reflexivity.
Qed.


Lemma located_shr_m (N D : Z) (r : shr_record) :
  0 < D -> located N D r -> shr_m r = N / D.
Proof.
  intros HD (_ & Ht & _).
  assert (E : (2 * N) / D / 2 = N / D).
  { rewrite Z.div_div by lia. rewrite (Z.mul_comm D 2).
    apply Z.div_mul_cancel_l; lia. }
  rewrite <- E, <- Ht.
  replace (2 * shr_m r + Z.b2z (shr_r r)) with (Z.b2z (shr_r r) + shr_m r * 2) by lia.
  rewrite Z.div_add by lia.
  replace (Z.b2z (shr_r r) / 2) with 0 by (destruct (shr_r r); reflexivity). lia.
Qed.

Lemma shr_record_of_loc_m (m : Z) (l : SpecFloat.location) :
  shr_m (shr_record_of_loc m l) = m.
Proof. destruct l as [|[]]; reflexivity. Qed.

Lemma shr_nonpos (r : shr_record) (e n : Z) : n <= 0 -> shr r e n = (r, e).
Proof. destruct n; try reflexivity. lia. Qed.

Lemma Zdigits2_le (m k : Z) : 0 <= m < 2 ^ k -> 0 <= k -> Zdigits2 m <= k.
Proof.
  intros [H0 Hk] Hk0. destruct (Z.eq_dec m 0) as [->|]; [simpl; lia|].
  pose proof (Zdigits2_bounds m ltac:(lia)) as [L _].
  destruct (Z_lt_le_dec k (Zdigits2 m)) as [G|]; [|assumption].
  assert (2 ^ k <= 2 ^ (Zdigits2 m - 1)) by (apply Z.pow_le_mono_r; lia). lia.
Qed.

(** The first shift of [binary_round_aux] is [sigma] counted from the unit. *)
Lemma grid_sigma (q ex : Z) :
  0 <= q -> emin64 <= ex ->
  ex <= fexp prec emax (Zdigits2 (q / 2 ^ (ex - emin64)) + ex) ->
  fexp prec emax (Zdigits2 (q / 2 ^ (ex - emin64)) + ex) - ex + (ex - emin64)
  = sigma q.
Proof.
  intros Hq He. rewrite fexp_eq. intros Hg.
  assert (H2 : 0 < 2 ^ (ex - emin64)) by (apply Z.pow_pos_nonneg; lia).
  destruct (Z_lt_le_dec 0 (q / 2 ^ (ex - emin64))) as [Hpos|Hz].
  - assert (Hge : 2 ^ (ex - emin64) <= q).
    { destruct (Z_lt_le_dec q (2 ^ (ex - emin64))) as [L|]; [|assumption].
      rewrite Z.div_small in Hpos by lia. lia. }
    rewrite Zdigits2_div_pow2 in * by lia. unfold sigma. lia.
  - assert (Hq0 : q / 2 ^ (ex - emin64) = 0).
    { pose proof (Z.div_pos q (2 ^ (ex - emin64)) Hq H2). lia. }
    rewrite Hq0 in *. simpl Zdigits2 in *.
    assert (ex = emin64) by lia. subst ex.
    replace (emin64 - emin64) with 0 in Hq0 by lia.
    rewrite Z.pow_0_r, Z.div_1_r in Hq0. subst q. unfold sigma. simpl. lia.
Qed.

Lemma omega_eq : omega = 2 ^ 53 * 2 ^ 2045.
Proof. unfold omega. rewrite <- Z.pow_add_r by lia. reflexivity. Qed.

(** What [binary_round_aux] returns for the real N/D (in units of 2 ^ -1074)
    given by its integer part on the grid of [ex] and its location: a valid
    float, N/D rounded, infinite from [omega] on. *)
Lemma binary_round_aux_correct (s : bool) (mx ex : Z) (lx : SpecFloat.location)
    (N D : Z) :
  0 <= N -> 0 < D -> emin64 <= ex ->
  located N (D * 2 ^ (ex - emin64)) (shr_record_of_loc mx lx) ->
  ex <= fexp prec emax (Zdigits2 mx + ex) ->
  valid_binary (binary_round_aux prec emax s mx ex lx) = true
  /\ binary_round_aux prec emax s mx ex lx <> S754_nan
  /\ units (binary_round_aux prec emax s mx ex lx)
     = cond_Zopp s (Z.min (rnd_units N D) omega).
Proof.
  intros HN HD He Hloc Hg.
  pose proof (eq_refl : emin64 = -1074) as Hemin.
  assert (HE : 0 < 2 ^ (ex - emin64)) by (apply Z.pow_pos_nonneg; lia).
  assert (Hq : 0 <= N / D) by (apply Z.div_pos; lia).
  assert (Hmx : mx = N / D / 2 ^ (ex - emin64)).
  { rewrite <- div_div_pow2 by lia.
    rewrite <- (located_shr_m _ _ _ (Z.mul_pos_pos _ _ HD HE) Hloc). symmetry.
    apply shr_record_of_loc_m. }
  rewrite Hmx in Hg. pose proof (grid_sigma _ _ Hq He Hg) as Hsig.
  rewrite <- Hmx in Hg, Hsig.
  unfold binary_round_aux, shr_fexp.
  set (n1 := fexp prec emax (Zdigits2 mx + ex) - ex) in *.
  pose proof (shr_located N _ _ ex n1 (Z.mul_pos_pos _ _ HD HE) Hloc) as [Hl1 He1].
  destruct (shr (shr_record_of_loc mx lx) ex n1) as [rec1 e1]. simpl in Hl1, He1.
  rewrite Z.max_l in Hl1, He1 by lia.
  replace (D * 2 ^ (ex - emin64) * 2 ^ n1) with (D * 2 ^ sigma (N / D)) in Hl1.
  2:{ rewrite <- Hsig, <- Z.mul_assoc, <- Z.pow_add_r by lia. f_equal. f_equal. lia. }
  assert (He1' : e1 = emin64 + sigma (N / D)) by lia. clear He1.
  rewrite (located_rne _ _ _ Hl1).
  pose proof (sigma_nonneg (N / D)) as Hs0.
  set (sg := sigma (N / D)) in *.
  assert (Hsg : 0 < 2 ^ sg) by (apply Z.pow_pos_nonneg; lia).
  pose proof (rne_bounds N (D * 2 ^ sg) HN (Z.mul_pos_pos _ _ HD Hsg)) as [Lm Um].
  rewrite div_div_pow2 in Lm, Um by lia.
  pose proof (shifted_mantissa_bounds (N / D) Hq) as [[B0 B53] B52]. fold sg in B0, B53, B52.
  assert (Hrnd : rnd_units N D = rne N (D * 2 ^ sg) * 2 ^ sg) by reflexivity.
  set (m2 := rne N (D * 2 ^ sg)) in *.
  unfold shr_record_of_loc.
  destruct (Z.eq_dec m2 (2 ^ 53)) as [Hc|Hnc].
  - (* the mantissa carried into a 54th digit *)
    rewrite Hc.
    replace (fexp prec emax (Zdigits2 (2 ^ 53) + e1) - e1) with 1
      by (rewrite fexp_eq; change (Zdigits2 (2 ^ 53)) with 54; lia).
    change (shr {| shr_m := 2 ^ 53; shr_r := false; shr_s := false |} e1 1)
      with ({| shr_m := 2 ^ 52; shr_r := false; shr_s := false |}, e1 + 1).
    cbn [shr_m]. change (2 ^ 52) with (Z.pos 4503599627370496).
    assert (Hu : rnd_units N D = 2 ^ 53 * 2 ^ sg) by (rewrite Hrnd, Hc; reflexivity).
    destruct (Z.leb_spec (e1 + 1) (emax - prec)) as [Hfit|Hover].
    + change (emax - prec) with 971 in Hfit.
      split; [|split; [discriminate|]].
      * apply valid_finite. change (Z.pos (digits2_pos 4503599627370496)) with 53. lia.
      * simpl units. f_equal. rewrite Hu.
        assert (2 ^ 53 * 2 ^ sg < omega).
        { rewrite omega_eq. apply Z.mul_lt_mono_pos_l; [reflexivity|].
          apply Z.pow_lt_mono_r; lia. }
        rewrite Z.min_l by lia.
        change (Z.pos 4503599627370496) with (2 ^ 52).
        replace (e1 + 1 - emin64) with (1 + sg) by lia.
        rewrite Z.pow_add_r by lia. change (2 ^ 53) with (2 ^ 52 * 2 ^ 1). lia.
    + change (emax - prec) with 971 in Hover.
      split; [reflexivity|]. split; [discriminate|].
      simpl units. f_equal. rewrite Hu.
      assert (omega <= 2 ^ 53 * 2 ^ sg).
      { rewrite omega_eq. apply Z.mul_le_mono_nonneg_l; [lia|].
        apply Z.pow_le_mono_r; lia. }
      lia.
  - assert (Hm2 : 0 <= m2 < 2 ^ 53) by lia.
    pose proof (Zdigits2_le m2 53 Hm2 ltac:(lia)) as Hd.
    rewrite shr_nonpos by (rewrite fexp_eq; lia).
    cbn [shr_m].
    destruct m2 as [|p|p] eqn:Em2; [| |lia].
    + split; [reflexivity|]. split; [discriminate|].
      simpl units. rewrite Hrnd. simpl. rewrite Z.min_l by (unfold omega; lia).
      destruct s; reflexivity.
    + assert (Hdig : sg = 0 \/ Z.pos (digits2_pos p) = 53).
      { destruct (Z.eq_dec sg 0) as [|Hnz]; [auto|right].
        specialize (B52 ltac:(lia)).
        change (Z.pos (digits2_pos p)) with (Zdigits2 (Z.pos p)).
        apply Zdigits2_unique; lia. }
      change (Zdigits2 (Z.pos p)) with (Z.pos (digits2_pos p)) in Hd.
      destruct (Z.leb_spec e1 (emax - prec)) as [Hfit|Hover].
      * change (emax - prec) with 971 in Hfit.
        split; [|split; [discriminate|]].
        -- apply valid_finite. lia.
        -- simpl units. f_equal. rewrite Hrnd.
           replace (e1 - emin64) with sg by lia.
           assert (Z.pos p * 2 ^ sg < omega).
           { rewrite omega_eq.
             assert (2 ^ sg <= 2 ^ 2045) by (apply Z.pow_le_mono_r; lia).
             nia. }
           lia.
      * change (emax - prec) with 971 in Hover.
        split; [reflexivity|]. split; [discriminate|].
        simpl units. f_equal. rewrite Hrnd.
        assert (omega <= Z.pos p * 2 ^ sg).
        { unfold omega. replace 2098 with (52 + 2046) by lia.
          rewrite Z.pow_add_r by lia.
          assert (2 ^ 2046 <= 2 ^ sg) by (apply Z.pow_le_mono_r; lia).
          specialize (B52 ltac:(lia)). 
          assert (0 < 2 ^ 2046) by (apply Z.pow_pos_nonneg; lia).
          nia. }
        lia.
Qed.


Lemma located_exact (m D : Z) :
  0 <= m -> 0 < D ->
  located (m * D) D {| shr_m := m; shr_r := false; shr_s := false |}.
Proof.
  intros Hm HD. unfold located. simpl.
  replace (2 * (m * D)) with ((2 * m) * D) by lia.
  rewrite Z.div_mul, Z.mod_mul by lia. repeat split; lia.
Qed.

Lemma pos_iter_xO (m d : positive) :
  Z.pos (Pos.iter xO m d) = Z.pos m * 2 ^ Z.pos d.
Proof.
  induction d as [|d IH] using Pos.peano_ind.
  - simpl. lia.
  - rewrite Pos.iter_succ, Pos2Z.inj_xO, IH, Pos2Z.inj_succ, Z.pow_succ_r by lia. lia.
Qed.

(** [shl_align] keeps the value and leaves an exponent that is at most the
    one asked for, when it can. *)
Lemma shl_align_spec (m : positive) (e e' : Z) :
  Z.pos (shl_align m e e').1 = Z.pos m * 2 ^ (e - (shl_align m e e').2)
  /\ (shl_align m e e').2 = Z.min e e'.
Proof.
  unfold shl_align. destruct (e' - e) as [|d|d] eqn:Ed; simpl.
  - split; [|lia]. rewrite Z.sub_diag. simpl. lia.
  - split; [|lia]. rewrite Z.sub_diag. simpl. lia.
  - split; [|lia]. rewrite pos_iter_xO. f_equal. f_equal. lia.
Qed.

(** [binary_round] rounds the integer m * 2 ^ (e + 1074) of units. *)
Lemma binary_round_correct (s : bool) (m : positive) (e : Z) :
  emin64 <= e ->
  valid_binary (binary_round prec emax s m e) = true
  /\ binary_round prec emax s m e <> S754_nan
  /\ units (binary_round prec emax s m e)
     = cond_Zopp s (Z.min (rnd_units (Z.pos m * 2 ^ (e - emin64)) 1) omega).
Proof.
  intros He. pose proof (eq_refl : emin64 = -1074) as Hemin.
  unfold binary_round.
  pose proof (shl_align_spec m e (fexp prec emax (Z.pos (digits2_pos m) + e)))
    as [Hv Hx].
  destruct (shl_align m e _) as [mz ez]. simpl in Hv, Hx.
  assert (Hez : emin64 <= ez) by (rewrite fexp_eq in Hx; lia).
  assert (Hee : ez <= e) by lia.
  assert (P1 : 0 < 2 ^ (e - ez)) by (apply Z.pow_pos_nonneg; lia).
  assert (P2 : 0 < 2 ^ (ez - emin64)) by (apply Z.pow_pos_nonneg; lia).
  apply (binary_round_aux_correct s (Z.pos mz) ez loc_Exact
           (Z.pos m * 2 ^ (e - emin64)) 1); [|lia|lia| |].
  - apply Z.mul_nonneg_nonneg; [lia|]. apply Z.pow_nonneg. lia.
  - rewrite Z.mul_1_l.
    replace (Z.pos m * 2 ^ (e - emin64)) with (Z.pos mz * 2 ^ (ez - emin64)).
    + apply located_exact; lia.
    + rewrite Hv, <- Z.mul_assoc, <- Z.pow_add_r by lia. f_equal. f_equal. lia.
  - simpl Zdigits2. change (Z.pos (digits2_pos mz)) with (Zdigits2 (Z.pos mz)).
    rewrite Hv, Zdigits2_mul_pow2 by lia. simpl Zdigits2.
    replace (Z.pos (digits2_pos m) + (e - ez) + ez) with (Z.pos (digits2_pos m) + e) by lia.
    lia.
Qed.

(** A valid finite float is its own rounding. *)
Lemma rnd_units_valid (s : bool) (m : positive) (e : Z) :
  valid_binary (S754_finite s m e) = true ->
  emin64 <= e
  /\ rnd_units (Z.pos m * 2 ^ (e - emin64)) 1 = Z.pos m * 2 ^ (e - emin64)
  /\ Z.pos m * 2 ^ (e - emin64) < omega.
Proof.
  rewrite valid_finite. intros [Hc He].
  pose proof (eq_refl : emin64 = -1074) as Hemin.
  assert (Hmin : emin64 <= e) by lia.
  assert (P : 0 < 2 ^ (e - emin64)) by (apply Z.pow_pos_nonneg; lia).
  split; [exact Hmin|]. split.
  - unfold rnd_units. rewrite Z.div_1_r.
    assert (Hs : sigma (Z.pos m * 2 ^ (e - emin64)) = e - emin64).
    { unfold sigma. rewrite Zdigits2_mul_pow2 by lia. simpl Zdigits2. lia. }
    rewrite Hs, Z.mul_1_l, rne_exact by lia. reflexivity.
  - pose proof (digits2_pos_bounds m) as [_ Hu].
    assert (Hd : Z.pos (digits2_pos m) <= 53) by lia.
    assert (2 ^ Z.pos (digits2_pos m) <= 2 ^ 53) by (apply Z.pow_le_mono_r; lia).
    assert (2 ^ (e - emin64) <= 2 ^ 2045) by (apply Z.pow_le_mono_r; lia).
    rewrite omega_eq. nia.
Qed.

Lemma rnd_units_nonneg (N D : Z) : 0 <= N -> 0 < D -> 0 <= rnd_units N D.
Proof.
  intros HN HD. unfold rnd_units.
  pose proof (sigma_nonneg (N / D)).
  assert (P : 0 < 2 ^ sigma (N / D)) by (apply Z.pow_pos_nonneg; lia).
  pose proof (rne_bounds N (D * 2 ^ sigma (N / D)) HN (Z.mul_pos_pos _ _ HD P)) as [L _].
  assert (0 <= N / (D * 2 ^ sigma (N / D))) by (apply Z.div_pos; nia).
  nia.
Qed.

Lemma rnd_units_0 (D : Z) : 0 < D -> rnd_units 0 D = 0.
Proof.
  intros HD. unfold rnd_units. rewrite Z.div_0_l by lia.
  change (sigma 0) with 0. rewrite Z.pow_0_r, !Z.mul_1_r.
  change 0 with (0 * D). apply rne_exact, HD.
Qed.

(** The real z/D (in units) rounded to binary64, both signs, infinite from
    [omega] on. *)
Definition round_q (z D : Z) : Z :=
  Z.sgn z * Z.min (rnd_units (Z.abs z) D) omega.

Lemma round_q_mono (z1 z2 D : Z) :
  0 < D -> z1 <= z2 -> round_q z1 D <= round_q z2 D.
Proof.
  intros HD Hz. unfold round_q.
  assert (Ho : 0 < omega) by reflexivity.
  pose proof (rnd_units_nonneg (Z.abs z1) D (Z.abs_nonneg _) HD).
  pose proof (rnd_units_nonneg (Z.abs z2) D (Z.abs_nonneg _) HD).
  destruct (Z.sgn_spec z1) as [[H1 ->]|[[H1 ->]|[H1 ->]]],
           (Z.sgn_spec z2) as [[H2 ->]|[[H2 ->]|[H2 ->]]]; try lia.
  - pose proof (rnd_units_mono (Z.abs z1) (Z.abs z2) D ltac:(lia) HD). lia.
  - pose proof (rnd_units_mono (Z.abs z2) (Z.abs z1) D ltac:(lia) HD). lia.
Qed.

Lemma round_q_bounds (z D : Z) : 0 < D -> - omega <= round_q z D <= omega.
Proof.
  intros HD. unfold round_q.
  assert (Ho : 0 < omega) by reflexivity.
  pose proof (rnd_units_nonneg (Z.abs z) D (Z.abs_nonneg _) HD).
  destruct (Z.sgn_spec z) as [[H1 ->]|[[H1 ->]|[H1 ->]]]; lia.
Qed.


Lemma valid_mantissa (s : bool) (m : positive) (e : Z) :
  valid_binary (S754_finite s m e) = true ->
  emin64 <= e /\ Z.pos m < 2 ^ 53 /\ (emin64 < e -> 2 ^ 52 <= Z.pos m).
Proof.
  rewrite valid_finite. intros [Hc He].
  pose proof (eq_refl : emin64 = -1074) as Hemin.
  pose proof (digits2_pos_bounds m) as [Hl Hu].
  split; [lia|]. split.
  - assert (2 ^ Z.pos (digits2_pos m) <= 2 ^ 53) by (apply Z.pow_le_mono_r; lia). lia.
  - intros Hgt. replace (Z.pos (digits2_pos m) - 1) with 52 in Hl by lia. exact Hl.
Qed.

Lemma units_lt_exp (s1 s2 : bool) (m1 m2 : positive) (e1 e2 : Z) :
  valid_binary (S754_finite s1 m1 e1) = true ->
  valid_binary (S754_finite s2 m2 e2) = true ->
  e1 < e2 ->
  Z.pos m1 * 2 ^ (e1 - emin64) < Z.pos m2 * 2 ^ (e2 - emin64).
Proof.
  intros H1 H2 He.
  apply valid_mantissa in H1 as (E1 & U1 & _).
  apply valid_mantissa in H2 as (E2 & _ & L2). specialize (L2 ltac:(lia)).
  assert (P1 : 0 < 2 ^ (e1 - emin64)) by (apply Z.pow_pos_nonneg; lia).
  assert (Hp : 2 * 2 ^ (e1 - emin64) <= 2 ^ (e2 - emin64)).
  { rewrite <- Z.pow_succ_r by lia. apply Z.pow_le_mono_r; lia. }
  change (2 ^ 53) with (2 ^ 52 * 2) in U1. nia.
Qed.

(** On valid floats the comparison of binary64 is the comparison of units. *)
Lemma SFcompare_units (x y : spec_float) :
  valid_binary x = true -> valid_binary y = true ->
  x <> S754_nan -> y <> S754_nan ->
  SFcompare x y = Some (units x ?= units y).
Proof.
  intros Vx Vy Nx Ny.
  assert (Ho : 0 < omega) by reflexivity.
  destruct x as [sx|sx| |sx mx ex], y as [sy|sy| |sy my ey]; try congruence;
    try (destruct sx, sy; reflexivity).
  - (* zero, finite *)
    apply rnd_units_valid in Vy as (Ey & _ & Uy).
    assert (0 < 2 ^ (ey - emin64)) by (apply Z.pow_pos_nonneg; lia).
    cbn [SFcompare units cond_Zopp]. destruct sy; cbn [SFcompare units cond_Zopp]; f_equal; symmetry.
    + apply Z.compare_gt_iff. nia.
    + apply Z.compare_lt_iff. nia.
  - (* infinity, finite *)
    apply rnd_units_valid in Vy as (Ey & _ & Uy).
    assert (0 < 2 ^ (ey - emin64)) by (apply Z.pow_pos_nonneg; lia).
    cbn [SFcompare units cond_Zopp]. destruct sx, sy; cbn [SFcompare units cond_Zopp]; f_equal; symmetry.
    + apply Z.compare_lt_iff. nia.
    + apply Z.compare_lt_iff. nia.
    + apply Z.compare_gt_iff. nia.
    + apply Z.compare_gt_iff. nia.
  - (* finite, zero *)
    apply rnd_units_valid in Vx as (Ex & _ & Ux).
    assert (0 < 2 ^ (ex - emin64)) by (apply Z.pow_pos_nonneg; lia).
    cbn [SFcompare units cond_Zopp]. destruct sx; cbn [SFcompare units cond_Zopp]; f_equal; symmetry.
    + apply Z.compare_lt_iff. nia.
    + apply Z.compare_gt_iff. nia.
  - (* finite, infinity *)
    apply rnd_units_valid in Vx as (Ex & _ & Ux).
    assert (0 < 2 ^ (ex - emin64)) by (apply Z.pow_pos_nonneg; lia).
    cbn [SFcompare units cond_Zopp]. destruct sx, sy; cbn [SFcompare units cond_Zopp]; f_equal; symmetry.
    + apply Z.compare_gt_iff. nia.
    + apply Z.compare_lt_iff. nia.
    + apply Z.compare_gt_iff. nia.
    + apply Z.compare_lt_iff. nia.
  - (* finite, finite *)
    pose proof (units_lt_exp sx sy mx my ex ey Vx Vy) as Lxy.
    pose proof (units_lt_exp sy sx my mx ey ex Vy Vx) as Lyx.
    apply rnd_units_valid in Vx as (Ex & _ & Ux).
    apply rnd_units_valid in Vy as (Ey & _ & Uy).
    assert (Px : 0 < 2 ^ (ex - emin64)) by (apply Z.pow_pos_nonneg; lia).
    assert (Py : 0 < 2 ^ (ey - emin64)) by (apply Z.pow_pos_nonneg; lia).
    cbn [SFcompare units cond_Zopp]. change (Pos.compare_cont Eq) with Pos.compare.
    destruct sx, sy; cbn [SFcompare units cond_Zopp]; f_equal; symmetry;
      try (apply Z.compare_lt_iff; nia); try (apply Z.compare_gt_iff; nia);
      destruct (Z.compare_spec ex ey) as [E|L|G];
      try specialize (Lxy ltac:(lia)); try specialize (Lyx ltac:(lia));
      try (apply Z.compare_lt_iff; nia); try (apply Z.compare_gt_iff; nia);
      subst ey; destruct (Pos.compare_spec mx my) as [E|L|G]; cbn [CompOpp];
      try (subst; apply Z.compare_eq_iff; reflexivity);
      try (apply Z.compare_lt_iff; nia); try (apply Z.compare_gt_iff; nia).
Qed.


(** A zero or a finite number. *)
Definition SFfin (x : spec_float) : bool :=
  match x with
  | S754_zero _ | S754_finite _ _ _ => true
  | _ => false
  end.

Lemma round_q_0 (D : Z) : round_q 0 D = 0.
Proof. reflexivity. Qed.

Lemma round_q_scaled (s : bool) (M D : Z) :
  0 < M ->
  round_q (cond_Zopp s M) D = cond_Zopp s (Z.min (rnd_units M D) omega).
Proof.
  intros HM. unfold round_q. destruct s; simpl.
  - rewrite Z.sgn_neg, Z.abs_opp, Z.abs_eq by lia. lia.
  - rewrite Z.sgn_pos, Z.abs_eq by lia. lia.
Qed.

Lemma round_q_valid (s : bool) (m : positive) (e : Z) :
  valid_binary (S754_finite s m e) = true ->
  round_q (units (S754_finite s m e)) 1 = units (S754_finite s m e).
Proof.
  intros V. apply rnd_units_valid in V as (He & Hr & Ho).
  assert (0 < 2 ^ (e - emin64)) by (apply Z.pow_pos_nonneg; lia).
  simpl units. rewrite round_q_scaled by nia. rewrite Hr. f_equal. lia.
Qed.

(** The sum of two finite floats is their exact sum, rounded. *)
Lemma SFadd_units (x y : spec_float) :
  valid_binary x = true -> valid_binary y = true ->
  SFfin x = true -> SFfin y = true ->
  valid_binary (SF64add x y) = true
  /\ SF64add x y <> S754_nan
  /\ units (SF64add x y) = round_q (units x + units y) 1.
Proof.
  intros Vx Vy Fx Fy.
  destruct x as [sx|sx| |sx mx ex], y as [sy|sy| |sy my ey]; try discriminate.
  - split; [|split]; [|destruct sx, sy; discriminate|]; destruct sx, sy; reflexivity.
  - split; [exact Vy|]. split; [discriminate|].
    rewrite Z.add_0_l. symmetry. apply round_q_valid, Vy.
  - split; [exact Vx|]. split; [discriminate|].
    change (units (S754_zero sy)) with 0. rewrite Z.add_0_r.
    symmetry. apply round_q_valid, Vx.
  - unfold SF64add, SFadd.
    pose proof (shl_align_spec mx ex (Z.min ex ey)) as [Hmx Hex].
    pose proof (shl_align_spec my ey (Z.min ex ey)) as [Hmy Hey].
    rewrite Hmx, Hmy, Hex, Hey.
    replace (Z.min ex (Z.min ex ey)) with (Z.min ex ey) by lia.
    replace (Z.min ey (Z.min ex ey)) with (Z.min ex ey) by lia.
    apply valid_mantissa in Vx as (Ex & _ & _).
    apply valid_mantissa in Vy as (Ey & _ & _).
    set (ez := Z.min ex ey).
    assert (Hez : emin64 <= ez) by (unfold ez; lia).
    assert (Hzx : ez <= ex) by (unfold ez; lia).
    assert (Hzy : ez <= ey) by (unfold ez; lia).
    set (M := cond_Zopp sx (Z.pos mx * 2 ^ (ex - ez))
              + cond_Zopp sy (Z.pos my * 2 ^ (ey - ez))).
    assert (Hsum : units (S754_finite sx mx ex) + units (S754_finite sy my ey)
                   = M * 2 ^ (ez - emin64)).
    { unfold M, units.
      replace (ex - emin64) with ((ex - ez) + (ez - emin64)) by lia.
      replace (ey - emin64) with ((ey - ez) + (ez - emin64)) by lia.
      rewrite !Z.pow_add_r by lia. destruct sx, sy; simpl; lia. }
    rewrite Hsum.
    assert (P : 0 < 2 ^ (ez - emin64)) by (apply Z.pow_pos_nonneg; lia).
    unfold binary_normalize. destruct M as [|m|m].
    + split; [reflexivity|]. split; [discriminate|reflexivity].
    + pose proof (binary_round_correct false m ez Hez) as (V & Nn & U).
      split; [exact V|]. split; [exact Nn|]. rewrite U.
      symmetry. apply (round_q_scaled false). nia.
    + pose proof (binary_round_correct true m ez Hez) as (V & Nn & U).
      split; [exact V|]. split; [exact Nn|]. rewrite U.
      symmetry.
      replace (Z.neg m * 2 ^ (ez - emin64))
        with (cond_Zopp true (Z.pos m * 2 ^ (ez - emin64))) by (simpl; lia).
      apply round_q_scaled. nia.
Qed.


Lemma div_mod_lt_twice (a m : Z) :
  0 < m -> 0 <= a < 2 * m ->
  (a < m /\ a / m = 0 /\ a mod m = a) \/ (m <= a /\ a / m = 1 /\ a mod m = a - m).
Proof.
  intros Hm Ha. destruct (Z_lt_le_dec a m) as [L|G].
  - left. rewrite Z.div_small, Z.mod_small by lia. auto.
  - right. split; [exact G|].
    assert (E : a = 1 * m + (a - m)) by lia.
    split.
    + symmetry. apply (Z.div_unique a m 1 (a - m)); lia.
    + symmetry. apply (Z.mod_unique a m 1 (a - m)); lia.
Qed.

(** The location [SFdiv_core_binary] computes from a remainder. *)
Lemma new_location_located (m2 q r : Z) :
  0 < m2 -> 0 <= q -> 0 <= r < m2 ->
  located (m2 * q + r) m2 (shr_record_of_loc q (new_location m2 r)).
Proof.
  intros Hm Hq Hr.
  assert (Hdiv : (2 * (m2 * q + r)) / m2 = 2 * q + (2 * r) / m2).
  { replace (2 * (m2 * q + r)) with (2 * r + (2 * q) * m2) by lia.
    rewrite Z.div_add by lia. lia. }
  assert (Hmod : (2 * (m2 * q + r)) mod m2 = (2 * r) mod m2).
  { replace (2 * (m2 * q + r)) with (2 * r + (2 * q) * m2) by lia.
    apply Z.mod_add. lia. }
  unfold located. rewrite Hdiv, Hmod. clear Hdiv Hmod.
  pose proof (div_mod_lt_twice (2 * r) m2 Hm ltac:(lia)) as H.
  unfold new_location, new_location_even, new_location_odd.
  destruct (Z.even m2) eqn:Ev.
  - destruct (Z.eqb_spec r 0) as [->|Hnz].
    + change (2 * 0) with 0. rewrite Z.div_0_l, Z.mod_0_l by lia.
      simpl. repeat split; lia.
    + destruct (Z.compare_spec (2 * r) m2) as [E|L|G]; simpl;
        destruct H as [(H1 & -> & ->)|(H1 & -> & ->)]; try lia;
        (split; [lia|]); (split; [lia|]); symmetry;
        try (apply negb_true_iff, Z.eqb_neq; lia);
        try (apply negb_false_iff, Z.eqb_eq; lia).
  - assert (Hodd : 2 * r <> m2).
    { intros E. rewrite <- E, Z.even_mul in Ev. discriminate. }
    destruct (Z.eqb_spec r 0) as [->|Hnz].
    + change (2 * 0) with 0. rewrite Z.div_0_l, Z.mod_0_l by lia.
      simpl. repeat split; lia.
    + destruct (Z.compare_spec (2 * r + 1) m2) as [E|L|G]; simpl;
        destruct H as [(H1 & -> & ->)|(H1 & -> & ->)]; try lia;
        (split; [lia|]); (split; [lia|]); symmetry;
        try (apply negb_true_iff, Z.eqb_neq; lia);
        try (apply negb_false_iff, Z.eqb_eq; lia).
Qed.

Lemma located_scale (N D k : Z) (r : shr_record) :
  0 < D -> 0 < k -> located N D r -> located (N * k) (D * k) r.
Proof.
  intros HD Hk (Hm & Ht & Hs). unfold located.
  replace (2 * (N * k)) with ((2 * N) * k) by lia.
  rewrite Z.div_mul_cancel_r, Z.mul_mod_distr_r by lia.
  split; [exact Hm|]. split; [exact Ht|]. rewrite Hs. f_equal.
  destruct (Z.eqb_spec ((2 * N) mod D) 0) as [->|Hn]; [reflexivity|].
  symmetry. apply Z.eqb_neq. nia.
Qed.

Lemma Zdigits2_pow2 (k : Z) : 0 <= k -> Zdigits2 (2 ^ k) = k + 1.
Proof.
  intros Hk. apply Zdigits2_unique; [|lia].
  replace (k + 1 - 1) with k by lia. split; [lia|].
  apply Z.pow_lt_mono_r; lia.
Qed.

Lemma fexp_mono (a b : Z) : a <= b -> fexp prec emax a <= fexp prec emax b.
Proof. rewrite !fexp_eq. lia. Qed.

(** The quotient of m1 * 2 ^ e1 by m2 * 2 ^ e2 as [SFdiv_core_binary] hands
    it to the rounding: on a grid not below the unit, located, with enough
    digits. *)
Lemma SFdiv_core_binary_correct (m1 e1 m2 e2 : Z) :
  0 < m1 -> 0 < m2 -> emin64 <= e1 - e2 ->
  let '(q, e', l) := SFdiv_core_binary prec emax m1 e1 m2 e2 in
  emin64 <= e'
  /\ located (m1 * 2 ^ (e1 - e2 - emin64)) (m2 * 2 ^ (e' - emin64))
       (shr_record_of_loc q l)
  /\ e' <= fexp prec emax (Zdigits2 q + e').
Proof.
  intros H1 H2 He. pose proof (eq_refl : emin64 = -1074) as Hemin.
  unfold SFdiv_core_binary.
  set (d1 := Zdigits2 m1). set (d2 := Zdigits2 m2).
  set (e' := Z.min (fexp prec emax (d1 + e1 - (d2 + e2))) (e1 - e2)).
  assert (He' : emin64 <= e') by (unfold e'; rewrite fexp_eq; lia).
  assert (Hs : 0 <= e1 - e2 - e') by (unfold e'; lia).
  set (m' := match e1 - e2 - e' with
             | 0 => m1
             | Z.pos _ => Z.shiftl m1 (e1 - e2 - e')
             | Z.neg _ => 0
             end).
  assert (Hm' : m' = m1 * 2 ^ (e1 - e2 - e')).
  { unfold m'. destruct (e1 - e2 - e') as [|p|p] eqn:Es; [simpl; lia| |lia].
    rewrite Z.shiftl_mul_pow2 by lia. reflexivity. }
  clearbody m'.
  assert (Ps : 0 < 2 ^ (e1 - e2 - e')) by (apply Z.pow_pos_nonneg; lia).
  assert (Pe : 0 < 2 ^ (e' - emin64)) by (apply Z.pow_pos_nonneg; lia).
  pose proof (Z_div_mod m' m2 ltac:(lia)) as Hdm.
  destruct (Z.div_eucl m' m2) as [q r]. destruct Hdm as [Eq Hr].
  assert (Hq : 0 <= q) by nia.
  split; [exact He'|]. split.
  - replace (m1 * 2 ^ (e1 - e2 - emin64)) with (m' * 2 ^ (e' - emin64)).
    + apply located_scale; [lia|lia|]. rewrite Eq.
      apply new_location_located; lia.
    + rewrite Hm', <- Z.mul_assoc, <- Z.pow_add_r by lia. f_equal. f_equal. lia.
  - assert (Hdq : d1 + (e1 - e2 - e') - d2 <= Zdigits2 q).
    { pose proof (Zdigits2_nonneg q).
      destruct (Z_le_gt_dec (d1 + (e1 - e2 - e') - d2) 0) as [|Hpos]; [lia|].
      pose proof (Zdigits2_bounds m1 H1) as [L1 _]. fold d1 in L1.
      pose proof (Zdigits2_bounds m2 H2) as [_ U2]. fold d2 in U2.
      pose proof (Zdigits2_pos m2 H2) as Hd2. fold d2 in Hd2.
      pose proof (Zdigits2_pos m1 H1) as Hd1. fold d1 in Hd1.
      assert (Hk : 2 ^ (d1 + (e1 - e2 - e') - d2 - 1) <= q).
      { assert (Hp : 2 ^ (d1 - 1) * 2 ^ (e1 - e2 - e')
                     = 2 ^ (d1 + (e1 - e2 - e') - d2 - 1) * 2 ^ d2).
        { rewrite <- !Z.pow_add_r by lia. f_equal. lia. }
        assert (PA : 0 < 2 ^ (d1 + (e1 - e2 - e') - d2 - 1))
          by (apply Z.pow_pos_nonneg; lia).
        assert (PB : 0 < 2 ^ d2) by (apply Z.pow_pos_nonneg; lia).
        assert (Hlow : 2 ^ (d1 + (e1 - e2 - e') - d2 - 1) * 2 ^ d2 <= m').
        { rewrite <- Hp, Hm'. apply Z.mul_le_mono_nonneg_r; lia. }
        assert (Hup : m' < 2 ^ d2 * (q + 1)) by nia.
        assert (2 ^ (d1 + (e1 - e2 - e') - d2 - 1) < q + 1); [|lia].
        apply (Z.mul_lt_mono_pos_r (2 ^ d2)); lia. }
      pose proof (Zdigits2_mono _ _ (conj (Z.lt_le_incl _ _
                    (Z.pow_pos_nonneg 2 (d1 + (e1 - e2 - e') - d2 - 1) eq_refl
                       ltac:(lia))) Hk)) as Hmono.
      rewrite Zdigits2_pow2 in Hmono by lia. lia. }
    etransitivity; [|apply fexp_mono with (a := d1 + e1 - (d2 + e2)); lia].
    unfold e'. lia.
Qed.


(** The quotient of a finite float by a positive one whose exponent is not
    positive is the exact quotient, rounded. *)
Lemma SFdiv_units (x : spec_float) (mc : positive) (ec : Z) :
  valid_binary x = true -> SFfin x = true -> ec <= 0 ->
  valid_binary (SF64div x (S754_finite false mc ec)) = true
  /\ SF64div x (S754_finite false mc ec) <> S754_nan
  /\ units (SF64div x (S754_finite false mc ec))
     = round_q (units x * 2 ^ (- ec)) (Z.pos mc).
Proof.
  intros Vx Fx Hec. destruct x as [sx|sx| |sx mx ex]; try discriminate.
  - split; [reflexivity|]. split; [discriminate|reflexivity].
  - unfold SF64div, SFdiv.
    apply valid_mantissa in Vx as (Ex & _ & _).
    pose proof (SFdiv_core_binary_correct (Z.pos mx) ex (Z.pos mc) ec
                  eq_refl eq_refl ltac:(lia)) as H.
    destruct (SFdiv_core_binary prec emax (Z.pos mx) ex (Z.pos mc) ec) as [[q e'] l].
    destruct H as (He' & Hloc & Hg).
    assert (Px : 0 < 2 ^ (ex - emin64)) by (apply Z.pow_pos_nonneg; lia).
    assert (Pc : 0 < 2 ^ (- ec)) by (apply Z.pow_pos_nonneg; lia).
    assert (HN : Z.pos mx * 2 ^ (ex - ec - emin64)
                 = Z.pos mx * 2 ^ (ex - emin64) * 2 ^ (- ec)).
    { rewrite <- Z.mul_assoc, <- Z.pow_add_r by lia. f_equal. f_equal. lia. }
    pose proof (binary_round_aux_correct (xorb sx false) q e' l
                  (Z.pos mx * 2 ^ (ex - ec - emin64)) (Z.pos mc)
                  ltac:(nia) eq_refl He' Hloc Hg) as (V & Nn & U).
    split; [exact V|]. split; [exact Nn|]. rewrite U, xorb_false_r, HN.
    symmetry. simpl units.
    replace (cond_Zopp sx (Z.pos mx * 2 ^ (ex - emin64)) * 2 ^ (- ec))
      with (cond_Zopp sx (Z.pos mx * 2 ^ (ex - emin64) * 2 ^ (- ec)))
      by (destruct sx; simpl; lia).
    apply round_q_scaled. nia.
Qed.

Lemma units_bounds (x : spec_float) :
  valid_binary x = true -> - omega <= units x <= omega.
Proof.
  intros V. assert (Ho : 0 < omega) by reflexivity.
  destruct x as [s|s| |s m e]; simpl; try lia.
  - destruct s; simpl; lia.
  - apply rnd_units_valid in V as (He & _ & Hu).
    assert (0 < 2 ^ (e - emin64)) by (apply Z.pow_pos_nonneg; lia).
    destruct s; simpl; nia.
Qed.

Lemma units_fin (x : spec_float) :
  valid_binary x = true -> SFfin x = true -> - omega < units x < omega.
Proof.
  intros V F. assert (Ho : 0 < omega) by reflexivity.
  destruct x as [s|s| |s m e]; try discriminate; simpl; try lia.
  apply rnd_units_valid in V as (He & _ & Hu).
  assert (0 < 2 ^ (e - emin64)) by (apply Z.pow_pos_nonneg; lia).
  destruct s; simpl; nia.
Qed.

(** A float that is not NaN is finite or one of the two infinities. *)
Lemma SFfin_or_inf (x : spec_float) :
  x <> S754_nan ->
  SFfin x = true \/ x = S754_infinity false \/ x = S754_infinity true.
Proof. destruct x as [s|[]| |s m e]; auto. Qed.

Lemma SFdiv_mono (x y : spec_float) (mc : positive) (ec : Z) :
  valid_binary x = true -> valid_binary y = true ->
  x <> S754_nan -> y <> S754_nan -> ec <= 0 ->
  units x <= units y ->
  SF64div x (S754_finite false mc ec) <> S754_nan
  /\ SF64div y (S754_finite false mc ec) <> S754_nan
  /\ units (SF64div x (S754_finite false mc ec))
     <= units (SF64div y (S754_finite false mc ec)).
Proof.
  intros Vx Vy Nx Ny Hec Hxy.
  assert (Pc : 0 < 2 ^ (- ec)) by (apply Z.pow_pos_nonneg; lia).
  destruct (SFfin_or_inf x Nx) as [Fx|[->| ->]],
           (SFfin_or_inf y Ny) as [Fy|[->| ->]].
  - pose proof (SFdiv_units x mc ec Vx Fx Hec) as (_ & N1 & U1).
    pose proof (SFdiv_units y mc ec Vy Fy Hec) as (_ & N2 & U2).
    split; [exact N1|]. split; [exact N2|]. rewrite U1, U2.
    apply round_q_mono; [reflexivity|nia].
  - pose proof (SFdiv_units x mc ec Vx Fx Hec) as (_ & N1 & U1).
    split; [exact N1|]. split; [discriminate|]. rewrite U1.
    apply (round_q_bounds _ (Z.pos mc) eq_refl).
  - pose proof (units_fin x Vx Fx). simpl in Hxy. lia.
  - pose proof (units_fin y Vy Fy). simpl in Hxy. lia.
  - split; [discriminate|]. split; [discriminate|]. reflexivity.
  - simpl in Hxy. assert (0 < omega) by reflexivity. lia.
  - pose proof (SFdiv_units y mc ec Vy Fy Hec) as (_ & N2 & U2).
    split; [discriminate|]. split; [exact N2|]. rewrite U2.
    apply (round_q_bounds _ (Z.pos mc) eq_refl).
  - split; [discriminate|]. split; [discriminate|].
    simpl. assert (0 < omega) by reflexivity. lia.
  - split; [discriminate|]. split; [discriminate|]. reflexivity.
Qed.

Lemma SFadd_comm (x y : spec_float) : SF64add x y = SF64add y x.
Proof.
  destruct x as [[]|[]| |sx mx ex], y as [[]|[]| |sy my ey]; try reflexivity.
  unfold SF64add, SFadd. rewrite (Z.min_comm ey ex). apply f_equal3; [|reflexivity..].
  apply Z.add_comm.
Qed.

Lemma SFadd_mono (a x y : spec_float) :
  valid_binary a = true -> valid_binary x = true -> valid_binary y = true ->
  x <> S754_nan -> y <> S754_nan ->
  SF64add a x <> S754_nan -> SF64add a y <> S754_nan ->
  units x <= units y ->
  units (SF64add a x) <= units (SF64add a y).
Proof.
  intros Va Vx Vy Nx Ny Nax Nay Hxy.
  assert (Ho : 0 < omega) by reflexivity.
  assert (Na : a <> S754_nan) by (intros ->; apply Nax; reflexivity).
  destruct (SFfin_or_inf a Na) as [Fa|[->| ->]].
  - destruct (SFfin_or_inf x Nx) as [Fx|[->| ->]],
             (SFfin_or_inf y Ny) as [Fy|[->| ->]].
    + pose proof (SFadd_units a x Va Vx Fa Fx) as (_ & _ & U1).
      pose proof (SFadd_units a y Va Vy Fa Fy) as (_ & _ & U2).
      rewrite U1, U2. apply round_q_mono; lia.
    + pose proof (SFadd_units a x Va Vx Fa Fx) as (_ & _ & U1).
      rewrite U1. replace (SF64add a (S754_infinity false)) with (S754_infinity false)
        by (destruct a as [[]|[]| |[] ? ?]; try discriminate; reflexivity).
      apply (round_q_bounds _ 1 eq_refl).
    + pose proof (units_fin x Vx Fx). simpl in Hxy. lia.
    + pose proof (units_fin y Vy Fy). simpl in Hxy. lia.
    + lia.
    + simpl in Hxy. lia.
    + pose proof (SFadd_units a y Va Vy Fa Fy) as (_ & _ & U2).
      rewrite U2. replace (SF64add a (S754_infinity true)) with (S754_infinity true)
        by (destruct a as [[]|[]| |[] ? ?]; try discriminate; reflexivity).
      apply (round_q_bounds _ 1 eq_refl).
    + replace (SF64add a (S754_infinity true)) with (S754_infinity true)
        by (destruct a as [[]|[]| |[] ? ?]; try discriminate; reflexivity).
      replace (SF64add a (S754_infinity false)) with (S754_infinity false)
        by (destruct a as [[]|[]| |[] ? ?]; try discriminate; reflexivity).
      simpl. lia.
    + lia.
  - replace (SF64add (S754_infinity false) x) with (S754_infinity false)
      by (destruct x as [[]|[]| |[] ? ?]; try reflexivity; exfalso; apply Nax; reflexivity).
    replace (SF64add (S754_infinity false) y) with (S754_infinity false)
      by (destruct y as [[]|[]| |[] ? ?]; try reflexivity; exfalso; apply Nay; reflexivity).
    lia.
  - replace (SF64add (S754_infinity true) x) with (S754_infinity true)
      by (destruct x as [[]|[]| |[] ? ?]; try reflexivity; exfalso; apply Nax; reflexivity).
    replace (SF64add (S754_infinity true) y) with (S754_infinity true)
      by (destruct y as [[]|[]| |[] ? ?]; try reflexivity; exfalso; apply Nay; reflexivity).
    lia.
Qed.

(** A sum is NaN only if an operand is, or if the operands are the two
    infinities. *)
Lemma SFadd_not_nan (x y : spec_float) :
  valid_binary x = true -> valid_binary y = true ->
  x <> S754_nan -> y <> S754_nan ->
  units x < omega -> units y < omega ->
  SF64add x y <> S754_nan.
Proof.
  intros Vx Vy Nx Ny Hx Hy.
  destruct (SFfin_or_inf x Nx) as [Fx|[->| ->]],
           (SFfin_or_inf y Ny) as [Fy|[->| ->]];
    try (simpl in Hx; lia); try (simpl in Hy; lia).
  - apply (SFadd_units x y Vx Vy Fx Fy).
  - destruct x as [[]|[]| |[] ? ?]; discriminate.
  - destruct y as [[]|[]| |[] ? ?]; discriminate.
  - discriminate.
Qed.

End Rounding.

(** ** Sums, quotients and the score are monotone *)

Section FloatMonotone.

Lemma leb_units (a b : float) :
  (a <=? b)%float = true <->
  is_nan a = false /\ is_nan b = false
  /\ units (Prim2SF a) <= units (Prim2SF b).
Proof.
  rewrite FloatAxioms.leb_spec, (not_nan_Prim2SF a), (not_nan_Prim2SF b).
  unfold SFleb.
  destruct (SFcompare (Prim2SF a) (Prim2SF b)) as [c|] eqn:E.
  - assert (Na : Prim2SF a <> S754_nan).
    { intros N. rewrite N in E. discriminate. }
    assert (Nb : Prim2SF b <> S754_nan).
    { intros N. rewrite N in E. destruct (Prim2SF a) as [[]|[]| |[] ? ?]; discriminate. }
    rewrite (SFcompare_units _ _ (Prim2SF_valid a) (Prim2SF_valid b) Na Nb) in E.
    injection E as <-.
    destruct (Z.compare_spec (units (Prim2SF a)) (units (Prim2SF b)));
      split; try tauto; try (intros; repeat split; auto; lia); try discriminate;
      try (intros (_ & _ & H'); lia).
  - apply SFcompare_None in E. split; [discriminate|]. tauto.
Qed.

Lemma ltb_units (a b : float) :
  (a <? b)%float = true <->
  is_nan a = false /\ is_nan b = false
  /\ units (Prim2SF a) < units (Prim2SF b).
Proof.
  rewrite FloatAxioms.ltb_spec, (not_nan_Prim2SF a), (not_nan_Prim2SF b).
  unfold SFltb.
  destruct (SFcompare (Prim2SF a) (Prim2SF b)) as [c|] eqn:E.
  - assert (Na : Prim2SF a <> S754_nan).
    { intros N. rewrite N in E. discriminate. }
    assert (Nb : Prim2SF b <> S754_nan).
    { intros N. rewrite N in E. destruct (Prim2SF a) as [[]|[]| |[] ? ?]; discriminate. }
    rewrite (SFcompare_units _ _ (Prim2SF_valid a) (Prim2SF_valid b) Na Nb) in E.
    injection E as <-.
    destruct (Z.compare_spec (units (Prim2SF a)) (units (Prim2SF b)));
      split; try tauto; try (intros; repeat split; auto; lia); try discriminate;
      try (intros (_ & _ & H'); lia).
  - apply SFcompare_None in E. split; [discriminate|]. tauto.
Qed.

Lemma SFfin_not_nan (f : float) : SFfin (Prim2SF f) = true -> is_nan f = false.
Proof.
  intros F. apply not_nan_Prim2SF. intros N. rewrite N in F. discriminate.
Qed.

Lemma is_nan_add (a b : float) :
  is_nan (a + b)%float = false <->
  SF64add (Prim2SF a) (Prim2SF b) <> S754_nan.
Proof. rewrite not_nan_Prim2SF, add_spec. reflexivity. Qed.

Lemma add_mono_r (a x y : float) :
  (x <=? y)%float = true ->
  is_nan (a + x)%float = false -> is_nan (a + y)%float = false ->
  (a + x <=? a + y)%float = true.
Proof.
  rewrite !leb_units. intros (Nx & Ny & Hxy) Nax Nay.
  split; [exact Nax|]. split; [exact Nay|].
  rewrite !add_spec. apply is_nan_add in Nax, Nay.
  apply SFadd_mono; try apply Prim2SF_valid; try assumption;
    apply not_nan_Prim2SF; assumption.
Qed.

Lemma add_mono_l (x y r : float) :
  (x <=? y)%float = true ->
  is_nan (x + r)%float = false -> is_nan (y + r)%float = false ->
  (x + r <=? y + r)%float = true.
Proof.
  intros Hxy Nx Ny.
  assert (C : forall u v : float, (u + v)%float = (v + u)%float).
  { intros u v. apply Prim2SF_inj. rewrite !add_spec. apply SFadd_comm. }
  rewrite (C x r), (C y r) in *. apply add_mono_r; assumption.
Qed.

Lemma div_mono (x y c : float) (mc : positive) (ec : Z) :
  Prim2SF c = S754_finite false mc ec -> ec <= 0 ->
  (x <=? y)%float = true -> (x / c <=? y / c)%float = true.
Proof.
  intros Hc Hec. rewrite !leb_units. intros (Nx & Ny & Hxy).
  rewrite !(not_nan_Prim2SF (_ / _)), !div_spec, Hc.
  apply not_nan_Prim2SF in Nx, Ny.
  apply SFdiv_mono; try apply Prim2SF_valid; assumption.
Qed.

(** A sum of two floats, each at most some finite float, is not NaN. *)
Lemma add_not_nan (a b u v : float) :
  (a <=? u)%float = true -> (b <=? v)%float = true ->
  SFfin (Prim2SF u) = true -> SFfin (Prim2SF v) = true ->
  is_nan (a + b)%float = false.
Proof.
  rewrite !leb_units. intros (Na & _ & Hau) (Nb & _ & Hbv) Fu Fv.
  apply is_nan_add.
  pose proof (units_fin _ (Prim2SF_valid u) Fu).
  pose proof (units_fin _ (Prim2SF_valid v) Fv).
  apply SFadd_not_nan; try apply Prim2SF_valid; try lia;
    apply not_nan_Prim2SF; assumption.
Qed.

Lemma is_nan_add_l (a b : float) : is_nan a = true -> is_nan (a + b)%float = true.
Proof.
  rewrite !is_nan_Prim2SF, add_spec. intros ->. reflexivity.
Qed.

Lemma is_nan_add_r (a b : float) : is_nan b = true -> is_nan (a + b)%float = true.
Proof.
  rewrite !is_nan_Prim2SF, add_spec. intros ->.
  destruct (Prim2SF a) as [[]|[]| |[] ? ?]; reflexivity.
Qed.

Lemma fmin_mono_l (x y c : float) :
  is_nan c = false -> (x <=? y)%float = true ->
  (fmin x c <=? fmin y c)%float = true.
Proof.
  intros Nc Hxy. destruct (leb_not_nan _ _ Hxy) as [Nx Ny]. unfold fmin.
  destruct (c <? x)%float eqn:Ex, (c <? y)%float eqn:Ey.
  - apply leb_refl, Nc.
  - rewrite (ltb_leb_trans c x y Ex Hxy) in Ey. discriminate.
  - rewrite (ltb_negb_leb c x Nc Nx) in Ex.
    destruct (x <=? c)%float; [reflexivity|discriminate].
  - exact Hxy.
Qed.

Lemma fmin_le_r (x c : float) :
  is_nan c = false -> is_nan (fmin x c) = false ->
  (fmin x c <=? c)%float = true.
Proof.
  unfold fmin. intros Nc. destruct (c <? x)%float eqn:E; intros Nx.
  - apply leb_refl, Nc.
  - rewrite (ltb_negb_leb c x Nc Nx) in E.
    destruct (x <=? c)%float; [reflexivity|discriminate].
Qed.

Lemma fmin_mono_r (c t1 t2 : float) :
  is_nan c = false -> (t1 <=? t2)%float = true ->
  (fmin c t1 <=? fmin c t2)%float = true.
Proof.
  intros Nc H12. destruct (leb_not_nan _ _ H12) as [N1 N2]. unfold fmin.
  destruct (t1 <? c)%float eqn:E1, (t2 <? c)%float eqn:E2.
  - exact H12.
  - apply ltb_leb, E1.
  - rewrite (ltb_negb_leb t1 c N1 Nc) in E1.
    destruct (c <=? t1)%float eqn:L; [|discriminate].
    pose proof (leb_trans c t1 t2 L H12) as L2.
    rewrite (ltb_negb_leb t2 c N2 Nc), L2 in E2. discriminate.
  - apply leb_refl, Nc.
Qed.

Lemma fmin_nan_r (c t : float) : is_nan t = true -> fmin c t = c.
Proof.
  intros Nt. unfold fmin. destruct (t <? c)%float eqn:E; [|reflexivity].
  destruct (ltb_not_nan _ _ E) as [H _]. congruence.
Qed.

(** The sum of the first three terms is finite, and stays so with the cap
    of the wind term added. *)
Lemma base_terms_finite (c : string) (t : float) :
  SFfin (Prim2SF (0.1 + conditionWeight c + tempRisk t)) = true
  /\ SFfin (Prim2SF (0.1 + conditionWeight c + tempRisk t + 0.4)) = true.
Proof.
  unfold conditionWeight, tempRisk, weather_risk_weights, weights_lookup.
  repeat match goal with
         | |- context [String.eqb ?a ?b] => destruct (String.eqb a b)
         end;
    destruct (_ || _); try destruct (_ || _); split; vm_compute; reflexivity.
Qed.

Lemma score_mono_wind (c : string) (t w1 w2 p : float) :
  (w1 <=? w2)%float = true ->
  (score {| condition := c; temperature := t; windSpeed := w1;
            precipitationLastHour := p |}
   <=? score {| condition := c; temperature := t; windSpeed := w2;
                precipitationLastHour := p |})%float = true.
Proof.
  intros Hw. unfold score. simpl.
  destruct (base_terms_finite c t) as [FS FU].
  set (S := (0.1 + conditionWeight c + tempRisk t)%float) in *.
  set (rr := fmin (p / 50) 0.3).
  assert (NS : is_nan S = false).
  { apply not_nan_Prim2SF. intros N. rewrite N in FS. discriminate. }
  assert (Hq : (w1 / 100 <=? w2 / 100)%float = true).
  { apply (div_mono w1 w2 100 _ _ Prim2SF_100); [lia|exact Hw]. }
  pose proof (fmin_mono_l _ _ 0.4 eq_refl Hq) as Hwr.
  destruct (leb_not_nan _ _ Hwr) as [N1 N2].
  pose proof (fmin_le_r (w1 / 100) 0.4 eq_refl N1) as C1.
  pose proof (fmin_le_r (w2 / 100) 0.4 eq_refl N2) as C2.
  set (wr1 := fmin (w1 / 100) 0.4) in *. set (wr2 := fmin (w2 / 100) 0.4) in *.
  assert (NU : is_nan (S + 0.4)%float = false).
  { apply not_nan_Prim2SF. intros N. rewrite N in FU. discriminate. }
  assert (Na1 : is_nan (S + wr1)%float = false).
  { apply (add_not_nan S wr1 S 0.4); auto using leb_refl. }
  assert (Na2 : is_nan (S + wr2)%float = false).
  { apply (add_not_nan S wr2 S 0.4); auto using leb_refl. }
  pose proof (add_mono_r S wr1 wr2 Hwr Na1 Na2) as Ha.
  pose proof (add_mono_r S wr1 0.4 C1 Na1 NU) as U1.
  pose proof (add_mono_r S wr2 0.4 C2 Na2 NU) as U2.
  destruct (is_nan rr) eqn:Nr.
  - rewrite !fmin_nan_r by (apply is_nan_add_r, Nr). reflexivity.
  - pose proof (fmin_le_r (p / 50) 0.3 eq_refl Nr) as Cr. fold rr in Cr.
    apply fmin_mono_r; [reflexivity|].
    apply add_mono_l; [exact Ha| |].
    + apply (add_not_nan _ rr (S + 0.4) 0.3); auto.
    + apply (add_not_nan _ rr (S + 0.4) 0.3); auto.
Qed.

Lemma score_mono_rain (c : string) (t w p1 p2 : float) :
  (p1 <=? p2)%float = true ->
  (score {| condition := c; temperature := t; windSpeed := w;
            precipitationLastHour := p1 |}
   <=? score {| condition := c; temperature := t; windSpeed := w;
                precipitationLastHour := p2 |})%float = true.
Proof.
  intros Hp. unfold score. simpl.
  destruct (base_terms_finite c t) as [FS FU].
  set (S := (0.1 + conditionWeight c + tempRisk t)%float) in *.
  set (wr := fmin (w / 100) 0.4).
  assert (NS : is_nan S = false).
  { apply not_nan_Prim2SF. intros N. rewrite N in FS. discriminate. }
  assert (NU : is_nan (S + 0.4)%float = false).
  { apply not_nan_Prim2SF. intros N. rewrite N in FU. discriminate. }
  assert (Hq : (p1 / 50 <=? p2 / 50)%float = true).
  { apply (div_mono p1 p2 50 _ _ Prim2SF_50); [lia|exact Hp]. }
  pose proof (fmin_mono_l _ _ 0.3 eq_refl Hq) as Hrr.
  destruct (leb_not_nan _ _ Hrr) as [N1 N2].
  pose proof (fmin_le_r (p1 / 50) 0.3 eq_refl N1) as C1.
  pose proof (fmin_le_r (p2 / 50) 0.3 eq_refl N2) as C2.
  set (rr1 := fmin (p1 / 50) 0.3) in *. set (rr2 := fmin (p2 / 50) 0.3) in *.
  destruct (is_nan wr) eqn:Nw.
  - rewrite !fmin_nan_r by (apply is_nan_add_l, is_nan_add_r, Nw). reflexivity.
  - pose proof (fmin_le_r (w / 100) 0.4 eq_refl Nw) as Cw. fold wr in Cw.
    assert (Na : is_nan (S + wr)%float = false).
    { apply (add_not_nan S wr S 0.4); auto using leb_refl. }
    pose proof (add_mono_r S wr 0.4 Cw Na NU) as Ua.
    apply fmin_mono_r; [reflexivity|].
    apply add_mono_r; [exact Hrr| |].
    + apply (add_not_nan _ rr1 (S + 0.4) 0.3); auto.
    + apply (add_not_nan _ rr2 (S + 0.4) 0.3); auto.
Qed.

End FloatMonotone.

(** ** Fields that are ints *)

Section IntFields.

Lemma rnd_units_below (N D : Z) :
  0 <= N -> 0 < D -> N / D < 2 ^ 2097 -> rnd_units N D <= 2 ^ 2097.
Proof.
  intros HN HD Hq. unfold rnd_units.
  assert (Hq0 : 0 <= N / D) by (apply Z.div_pos; lia).
  pose proof (sigma_nonneg (N / D)) as Hs.
  pose proof (Zdigits2_le (N / D) 2097 (conj Hq0 Hq) ltac:(lia)) as Hd.
  assert (Hs' : sigma (N / D) <= 2044) by (unfold sigma; lia).
  set (sg := sigma (N / D)) in *.
  assert (P : 0 < 2 ^ sg) by (apply Z.pow_pos_nonneg; lia).
  pose proof (rne_bounds N (D * 2 ^ sg) HN (Z.mul_pos_pos _ _ HD P)) as [_ U].
  rewrite div_div_pow2 in U by lia.
  pose proof (shifted_mantissa_bounds (N / D) Hq0) as [[_ B] _]. fold sg in B.
  assert (Hp : 2 ^ sg <= 2 ^ 2044) by (apply Z.pow_le_mono_r; lia).
  change (2 ^ 2097) with (2 ^ 53 * 2 ^ 2044). nia.
Qed.

(** The quotient of two ints is a float unless it is too large for one. *)
Lemma int_truediv_returns (a b : Z) :
  0 < b -> Z.abs a < 2 ^ 1023 -> exists q, int_truediv a b = Ok q.
Proof.
  intros Hb Ha. unfold int_truediv.
  destruct (Z.eq_dec a 0) as [->|Hnz]; [eexists; reflexivity|].
  assert (Hpos : 0 < Z.abs a) by lia.
  pose proof (SFdiv_core_binary_correct (Z.abs a) 0 b 0 Hpos Hb ltac:(unfold emin64; lia))
    as H.
  destruct (SFdiv_core_binary prec emax (Z.abs a) 0 b 0) as [[m e] l].
  destruct H as (He & Hloc & Hg).
  assert (HN : 0 <= Z.abs a * 2 ^ (0 - 0 - emin64)).
  { apply Z.mul_nonneg_nonneg; [lia|apply Z.pow_nonneg; lia]. }
  pose proof (binary_round_aux_correct (a <? 0) m e l _ _ HN Hb He Hloc Hg)
    as (V & Nn & U).
  assert (Hlt : rnd_units (Z.abs a * 2 ^ (0 - 0 - emin64)) b < omega).
  { apply Z.le_lt_trans with (2 ^ 2097); [|reflexivity].
    apply rnd_units_below; [exact HN|exact Hb|].
    apply Z.le_lt_trans with (Z.abs a * 2 ^ (0 - 0 - emin64)).
    - apply Z.div_le_upper_bound; [lia|]. nia.
    - change (2 ^ 2097) with (2 ^ 1023 * 2 ^ 1074).
      change (0 - 0 - emin64) with 1074.
      apply Z.mul_lt_mono_pos_r; [reflexivity|exact Ha]. }
  pose proof (rnd_units_nonneg (Z.abs a * 2 ^ (0 - 0 - emin64)) b HN Hb) as H0.
  rewrite Z.min_l in U by lia.
  destruct a as [|p|p]; [congruence| |];
    destruct (binary_round_aux prec emax _ m e l) as [s|s| |s mm ee];
    try (eexists; reflexivity); try congruence;
    exfalso; assert (Ho : 0 < omega) by reflexivity;
    destruct s; simpl in U; lia.
Qed.


Lemma rnd_units_scale (N D k : Z) :
  0 < D -> 0 < k -> rnd_units (N * k) (D * k) = rnd_units N D.
Proof.
  intros HD Hk. unfold rnd_units.
  rewrite Z.div_mul_cancel_r by lia.
  set (sg := sigma (N / D)).
  assert (P : 0 < 2 ^ sg) by (apply Z.pow_pos_nonneg; [lia|apply sigma_nonneg]).
  f_equal. unfold rne.
  replace (2 * (N * k)) with ((2 * N) * k) by lia.
  replace (D * k * 2 ^ sg) with ((D * 2 ^ sg) * k) by lia.
  rewrite Z.div_mul_cancel_r, Z.mul_mod_distr_r by nia.
  destruct (Z.odd _); [|reflexivity].
  destruct (Z.eqb_spec ((2 * N) mod (D * 2 ^ sg)) 0) as [E|NE].
  - rewrite E. reflexivity.
  - destruct (Z.eqb_spec ((2 * N) mod (D * 2 ^ sg) * k) 0); [nia|reflexivity].
Qed.

Lemma rnd_units_pos (N D : Z) : 0 < D <= N -> 0 < rnd_units N D.
Proof.
  intros [HD HN]. unfold rnd_units.
  assert (Hq : 1 <= N / D) by (apply Z.div_le_lower_bound; lia).
  pose proof (sigma_nonneg (N / D)) as Hs.
  set (sg := sigma (N / D)) in *.
  assert (P : 0 < 2 ^ sg) by (apply Z.pow_pos_nonneg; lia).
  pose proof (rne_bounds N (D * 2 ^ sg) ltac:(lia) (Z.mul_pos_pos _ _ HD P)) as [L _].
  rewrite div_div_pow2 in L by lia.
  pose proof (shifted_mantissa_bounds (N / D) ltac:(lia)) as [[B0 _] B52]. fold sg in B0, B52.
  assert (1 <= N / D / 2 ^ sg).
  { destruct (Z.eq_dec sg 0) as [E|NE].
    - rewrite E, Z.pow_0_r, Z.div_1_r. exact Hq.
    - specialize (B52 ltac:(lia)). lia. }
  nia.
Qed.

(** The rounding leaves an integer of at most 53 bits, scaled, as it is. *)
Lemma rnd_units_exact (M k : Z) :
  0 < M <= 2 ^ 53 -> 0 <= k -> rnd_units (M * 2 ^ k) 1 = M * 2 ^ k.
Proof.
  assert (Hlt : forall M k, 0 < M < 2 ^ 53 -> 0 <= k ->
                            rnd_units (M * 2 ^ k) 1 = M * 2 ^ k).
  { clear M k. intros M k HM Hk. unfold rnd_units. rewrite Z.div_1_r, Z.mul_1_l.
    assert (Pk : 0 < 2 ^ k) by (apply Z.pow_pos_nonneg; lia).
    pose proof (Zdigits2_le M 53 ltac:(lia) ltac:(lia)) as Hd.
    pose proof (Zdigits2_pos M ltac:(lia)) as Hd0.
    assert (Hs : sigma (M * 2 ^ k) <= k).
    { unfold sigma. rewrite Zdigits2_mul_pow2 by lia. lia. }
    pose proof (sigma_nonneg (M * 2 ^ k)) as Hs0.
    set (sg := sigma (M * 2 ^ k)) in *.
    assert (E : M * 2 ^ k = M * 2 ^ (k - sg) * 2 ^ sg).
    { rewrite <- Z.mul_assoc, <- Z.pow_add_r by lia. f_equal. f_equal. lia. }
    transitivity (M * 2 ^ (k - sg) * 2 ^ sg); [|symmetry; exact E].
    f_equal. rewrite E. apply rne_exact. apply Z.pow_pos_nonneg; lia. }
  intros [H0 H53] Hk. destruct (Z.eq_dec M (2 ^ 53)) as [->|NE].
  - change (2 ^ 53) with (2 ^ 52 * 2 ^ 1).
    rewrite <- Z.mul_assoc, <- Z.pow_add_r by lia.
    apply Hlt; [|lia]. split; reflexivity.
  - apply Hlt; lia.
Qed.

Lemma binary_normalize_exact (z : Z) :
  Z.abs z <= 2 ^ 53 ->
  valid_binary (binary_normalize prec emax z 0 false) = true
  /\ SFfin (binary_normalize prec emax z 0 false) = true
  /\ units (binary_normalize prec emax z 0 false) = z * 2 ^ 1074.
Proof.
  intros Hz. assert (Ho : 0 < omega) by reflexivity.
  assert (Hb : forall s (m : positive), Z.pos m <= 2 ^ 53 ->
             valid_binary (binary_round prec emax s m 0) = true
             /\ SFfin (binary_round prec emax s m 0) = true
             /\ units (binary_round prec emax s m 0)
                = cond_Zopp s (Z.pos m * 2 ^ 1074)).
  { intros s m Hm.
    pose proof (binary_round_correct s m 0 ltac:(unfold emin64; lia)) as (V & Nn & U).
    change (0 - emin64) with 1074 in U.
    rewrite rnd_units_exact in U by lia.
    assert (Hlt : Z.pos m * 2 ^ 1074 < omega).
    { unfold omega. change (2 ^ 2098) with (2 ^ 1024 * 2 ^ 1074).
      apply Z.mul_lt_mono_pos_r; [reflexivity|].
      apply Z.le_lt_trans with (2 ^ 53); [exact Hm|reflexivity]. }
    rewrite Z.min_l in U by lia.
    split; [exact V|]. split; [|exact U].
    destruct (SFfin_or_inf _ Nn) as [F|[E|E]]; [exact F| |];
      rewrite E in U; destruct s; simpl in U; lia. }
  destruct z as [|m|m]; simpl binary_normalize.
  - repeat split.
  - destruct (Hb false m ltac:(lia)) as (V & F & U). simpl in U. auto.
  - destruct (Hb true m ltac:(lia)) as (V & F & U). simpl in U.
    split; [exact V|]. split; [exact F|]. rewrite U. lia.
Qed.

Lemma float_of_int_units (z : Z) :
  Z.abs z <= 2 ^ 53 ->
  SFfin (Prim2SF (float_of_int z)) = true
  /\ units (Prim2SF (float_of_int z)) = z * 2 ^ 1074.
Proof.
  intros Hz. destruct (binary_normalize_exact z Hz) as (V & F & U).
  unfold float_of_int. rewrite Prim2SF_SF2Prim by exact V. auto.
Qed.

(** Comparing an int with a small int literal is comparing their floats. *)
Lemma ltb_float_of_int (n z : Z) (nf : float) :
  Z.abs z <= 2 ^ 53 -> SFfin (Prim2SF nf) = true ->
  units (Prim2SF nf) = n * 2 ^ 1074 ->
  (nf <? float_of_int z)%float = (n <? z)
  /\ (float_of_int z <? nf)%float = (z <? n).
Proof.
  intros Hz Fn Un. destruct (float_of_int_units z Hz) as [Fz Uz].
  pose proof (SFfin_not_nan _ Fn) as Nn. pose proof (SFfin_not_nan _ Fz) as Nz.
  assert (P : 0 < 2 ^ 1074) by reflexivity.
  split.
  - destruct (Z.ltb_spec n z) as [L|G].
    + apply ltb_units. rewrite Un, Uz. repeat split; auto.
      apply Z.mul_lt_mono_pos_r; assumption.
    + destruct (nf <? float_of_int z)%float eqn:E; [|reflexivity].
      apply ltb_units in E as (_ & _ & E). rewrite Un, Uz in E.
      apply Z.mul_lt_mono_pos_r in E; [lia|assumption].
  - destruct (Z.ltb_spec z n) as [L|G].
    + apply ltb_units. rewrite Un, Uz. repeat split; auto.
      apply Z.mul_lt_mono_pos_r; assumption.
    + destruct (float_of_int z <? nf)%float eqn:E; [|reflexivity].
      apply ltb_units in E as (_ & _ & E). rewrite Un, Uz in E.
      apply Z.mul_lt_mono_pos_r in E; [lia|assumption].
Qed.

Lemma temp_risk_int (z : Z) :
  Z.abs z <= 2 ^ 53 -> temp_risk_of (PyInt z) = Ok (tempRisk (float_of_int z)).
Proof.
  intros Hz. unfold temp_risk_of, tempRisk, py_or, py_gt, py_lt. simpl.
  destruct (ltb_float_of_int 35 z 35 Hz eq_refl eq_refl) as [-> _].
  destruct (ltb_float_of_int (-10) z (-10) Hz eq_refl eq_refl) as [_ ->].
  destruct (ltb_float_of_int 30 z 30 Hz eq_refl eq_refl) as [-> _].
  destruct (ltb_float_of_int 0 z 0 Hz eq_refl eq_refl) as [_ ->].
  destruct (35 <? z); simpl; [reflexivity|].
  destruct (z <? -10); simpl; [reflexivity|].
  destruct (30 <? z); simpl; [reflexivity|].
  destruct (z <? 0); reflexivity.
Qed.

(** Two valid floats of the same units, not zero, are the same float. *)
Lemma units_inj (x y : spec_float) :
  valid_binary x = true -> valid_binary y = true ->
  x <> S754_nan -> y <> S754_nan ->
  units x = units y -> units x <> 0 -> x = y.
Proof.
  intros Vx Vy Nx Ny E Hnz. assert (Ho : 0 < omega) by reflexivity.
  destruct (SFfin_or_inf x Nx) as [Fx|[->| ->]],
           (SFfin_or_inf y Ny) as [Fy|[->| ->]];
    try reflexivity;
    try (pose proof (units_fin x Vx Fx); simpl in E; lia);
    try (pose proof (units_fin y Vy Fy); simpl in E; lia);
    try (simpl in E; lia).
  destruct x as [sx|sx| |sx mx ex], y as [sy|sy| |sy my ey]; try discriminate;
    try (simpl in Hnz; lia); try (simpl in E, Hnz; lia).
  pose proof (units_lt_exp sx sy mx my ex ey Vx Vy) as Lxy.
  pose proof (units_lt_exp sy sx my mx ey ex Vy Vx) as Lyx.
  apply valid_mantissa in Vx as (Ex & _ & _).
  apply valid_mantissa in Vy as (Ey & _ & _).
  assert (Px : 0 < 2 ^ (ex - emin64)) by (apply Z.pow_pos_nonneg; lia).
  assert (Py : 0 < 2 ^ (ey - emin64)) by (apply Z.pow_pos_nonneg; lia).
  simpl in E.
  assert (Hs : sx = sy) by (destruct sx, sy; simpl in E; try reflexivity; nia).
  subst sy.
  assert (Hm : Z.pos mx * 2 ^ (ex - emin64) = Z.pos my * 2 ^ (ey - emin64))
    by (destruct sx; simpl in E; lia).
  assert (He : ex = ey).
  { destruct (Z.lt_trichotomy ex ey) as [L|[Q|G]]; [|exact Q|].
    - specialize (Lxy L). lia.
    - specialize (Lyx G). lia. }
  subst ey. f_equal. nia.
Qed.


(** The quotient of an int that a float holds exactly by a small int literal
    is the quotient of their floats. *)
Lemma int_truediv_float (z n : Z) (nf : float) (mc : positive) (ec : Z) :
  Z.abs z <= 2 ^ 53 -> 0 < n ->
  Prim2SF nf = S754_finite false mc ec -> ec <= 0 -> Z.pos mc = n * 2 ^ (- ec) ->
  int_truediv z n = Ok (float_of_int z / nf)%float.
Proof.
  intros Hz Hn Hnf Hec Hmc. assert (Ho : 0 < omega) by reflexivity.
  destruct (binary_normalize_exact z Hz) as (Vz & Fz & Uz).
  assert (Pc : 0 < 2 ^ (- ec)) by (apply Z.pow_pos_nonneg; lia).
  assert (P : 0 < 2 ^ 1074) by reflexivity.
  pose proof (SFdiv_units _ mc ec Vz Fz Hec) as (V2 & N2 & U2).
  assert (E2 : Prim2SF (float_of_int z / nf)
               = SF64div (binary_normalize prec emax z 0 false)
                   (S754_finite false mc ec)).
  { rewrite div_spec, Hnf. unfold float_of_int.
    rewrite Prim2SF_SF2Prim by exact Vz. reflexivity. }
  unfold int_truediv. destruct (Z.eq_dec z 0) as [->|Hnz].
  - f_equal. apply Prim2SF_inj. rewrite E2. reflexivity.
  - assert (Hpos : 0 < Z.abs z) by lia.
    assert (Hm : forall r : result float,
               match z with 0 => Ok 0%float | _ => r end = r)
      by (intros r; destruct z; congruence).
    rewrite Hm. clear Hm.
    pose proof (SFdiv_core_binary_correct (Z.abs z) 0 n 0 Hpos Hn
                  ltac:(unfold emin64; lia)) as H.
    destruct (SFdiv_core_binary prec emax (Z.abs z) 0 n 0) as [[m e] l].
    destruct H as (He & Hloc & Hg).
    change (0 - 0 - emin64) with 1074 in Hloc.
    assert (HN : 0 <= Z.abs z * 2 ^ 1074) by lia.
    pose proof (binary_round_aux_correct (z <? 0) m e l _ _ HN Hn He Hloc Hg)
      as (V1 & N1 & U1).
    assert (Hlt : rnd_units (Z.abs z * 2 ^ 1074) n < omega).
    { apply Z.le_lt_trans with (2 ^ 2097); [|reflexivity].
      apply rnd_units_below; [exact HN|exact Hn|].
      apply Z.le_lt_trans with (Z.abs z * 2 ^ 1074).
      - apply Z.div_le_upper_bound; [lia|]. nia.
      - change (2 ^ 2097) with (2 ^ 1023 * 2 ^ 1074).
        apply Z.mul_lt_mono_pos_r; [reflexivity|].
        apply Z.le_lt_trans with (2 ^ 53); [exact Hz|reflexivity]. }
    assert (Hgt : 0 < rnd_units (Z.abs z * 2 ^ 1074) n).
    { apply rnd_units_pos. split; [exact Hn|].
      assert (n <= 2 ^ 1074); [|nia].
      assert (Z.pos mc < 2 ^ 53).
      { pose proof (Prim2SF_valid nf) as Vn. rewrite Hnf in Vn.
        apply valid_mantissa in Vn. apply Vn. }
      assert (n <= Z.pos mc) by nia.
      apply Z.le_trans with (2 ^ 53); [lia|]. apply Z.pow_le_mono_r; lia. }
    rewrite Z.min_l in U1 by lia.
    assert (EU : units (binary_round_aux prec emax (z <? 0) m e l)
                 = units (SF64div (binary_normalize prec emax z 0 false)
                            (S754_finite false mc ec))).
    { rewrite U1, U2, Uz, Hmc. unfold round_q.
      replace (Z.abs (z * 2 ^ 1074 * 2 ^ (- ec)))
        with (Z.abs z * 2 ^ 1074 * 2 ^ (- ec))
        by (rewrite !Z.abs_mul, (Z.abs_eq (2 ^ 1074)), (Z.abs_eq (2 ^ (- ec))); lia).
      rewrite rnd_units_scale by lia. rewrite Z.min_l by lia.
      replace (Z.sgn (z * 2 ^ 1074 * 2 ^ (- ec))) with (Z.sgn z)
        by (rewrite !Z.sgn_mul, (Z.sgn_pos (2 ^ 1074)), (Z.sgn_pos (2 ^ (- ec))); lia).
      destruct z as [|p|p]; [lia| |]; simpl; lia. }
    assert (Hnz1 : units (binary_round_aux prec emax (z <? 0) m e l) <> 0).
    { rewrite U1. destruct (z <? 0); simpl; lia. }
    pose proof (units_inj _ _ V1 V2 N1 N2 EU Hnz1) as Er.
    rewrite Er, <- E2. rewrite Er, <- E2 in U1.
    destruct (Prim2SF (float_of_int z / nf)) as [s|s| |s mm ee] eqn:Eq;
      try (rewrite <- Eq, SF2Prim_Prim2SF; reflexivity).
    exfalso. destruct (z <? 0), s; simpl in U1; lia.
Qed.

Lemma py_truediv_int_100 (z : Z) :
  Z.abs z <= 2 ^ 53 ->
  py_truediv (PyInt z) 100 100 = Ok (float_of_int z / 100)%float.
Proof.
  intros Hz. simpl.
  apply (int_truediv_float z 100 100 _ _ Hz eq_refl Prim2SF_100); [lia|reflexivity].
Qed.

Lemma py_truediv_int_50 (z : Z) :
  Z.abs z <= 2 ^ 53 ->
  py_truediv (PyInt z) 50 50 = Ok (float_of_int z / 50)%float.
Proof.
  intros Hz. simpl.
  apply (int_truediv_float z 50 50 _ _ Hz eq_refl Prim2SF_50); [lia|reflexivity].
Qed.

End IntFields.

(** ** The scorer on a well-shaped body *)

Lemma float_field_get (kvs : list (string * pyval)) (outer inner : string) (f : float) :
  float_field kvs outer inner = Some f ->
  exists v, get2 (PyDict kvs) outer inner = Ok v
            /\ (v = PyFloat f
                \/ exists z, v = PyInt z /\ Z.abs z <= 2 ^ 53 /\ f = float_of_int z).
Proof.
  unfold float_field, get2, dict_get. simpl.
  destruct (assoc outer kvs) as [[| | | | | |d]|]; try discriminate; simpl.
  - destruct (assoc inner d) as [[| |z|g| | |]|]; try discriminate; simpl.
    + destruct (Z.leb_spec (Z.abs z) (2 ^ 53)) as [Hz|]; [|discriminate].
      intros [= <-]. eexists. split; [reflexivity|]. right. exists z. auto.
    + intros [= <-]. eauto.
    + intros [= <-]. eexists. split; [reflexivity|]. right. exists 0.
      repeat split. discriminate.
  - intros [= <-]. eexists. split; [reflexivity|]. right. exists 0.
    repeat split. discriminate.
Qed.

Lemma condition_field_get (kvs : list (string * pyval)) (c : string) :
  condition_field kvs = Some c ->
  main_condition_of (PyDict kvs) = Ok (PyStr c).
Proof.
  unfold condition_field, main_condition_of, dict_get. simpl.
  destruct (assoc "weather" kvs) as [[| | | | |[|[| | | | | |d] ?]|]|];
    try discriminate; simpl.
  - destruct (assoc "main" d) as [[| | | |s| |]|]; try discriminate; simpl;
      intros [= <-]; reflexivity.
  - intros [= <-]. reflexivity.
Qed.

Lemma temp_risk_float (t : float) :
  temp_risk_of (PyFloat t) = Ok (tempRisk t).
Proof.
  unfold temp_risk_of, tempRisk, py_or, py_gt, py_lt. simpl.
  destruct (35 <? t)%float; simpl; [reflexivity|].
  destruct (t <? -10)%float; simpl; [reflexivity|].
  destruct (30 <? t)%float; simpl; [reflexivity|].
  destruct (t <? 0)%float; reflexivity.
Qed.

(** On a body that carries an observation the scorer returns the score of
    the observation. *)
Lemma calculate_risk_observe (wd : pyval) (o : WeatherObservation) :
  observe wd = Some o -> calculate_risk wd = Ok (score o).
Proof.
  destruct wd as [| | | | | |kvs]; try discriminate. unfold observe.
  destruct (condition_field kvs) as [c|] eqn:Hc; [|discriminate].
  destruct (float_field kvs "main" "temp") as [t|] eqn:Ht; [|discriminate].
  destruct (float_field kvs "wind" "speed") as [w|] eqn:Hw; [|discriminate].
  destruct (float_field kvs "rain" "1h") as [p|] eqn:Hp; [|discriminate].
  simpl. intros [= <-].
  apply condition_field_get in Hc.
  apply float_field_get in Ht as (vt & Ht & Hvt).
  apply float_field_get in Hw as (vw & Hw & Hvw).
  apply float_field_get in Hp as (vp & Hp & Hvp).
  unfold calculate_risk, score. rewrite Hc, Ht, Hw, Hp. simpl.
  assert (Et : temp_risk_of vt = Ok (tempRisk t)).
  { destruct Hvt as [->|(z & -> & Hz & ->)];
      [apply temp_risk_float | apply temp_risk_int, Hz]. }
  assert (Ew : py_truediv vw 100 100%float = Ok (w / 100)%float).
  { destruct Hvw as [->|(z & -> & Hz & ->)];
      [reflexivity | apply py_truediv_int_100, Hz]. }
  assert (Ep : py_truediv vp 50 50%float = Ok (p / 50)%float).
  { destruct Hvp as [->|(z & -> & Hz & ->)];
      [reflexivity | apply py_truediv_int_50, Hz]. }
  rewrite Et, Ew, Ep. reflexivity.
Qed.

(** ** The range of the score *)

Section Scorer.

Lemma SFnonneg_round_aux (m e : Z) (l : SpecFloat.location) :
  SFnonneg (binary_round_aux prec emax false m e l) = true.
Proof.
  unfold binary_round_aux.
  destruct (shr_fexp prec emax m e l) as [mrs' e'].
  destruct (shr_fexp prec emax _ e' loc_Exact) as [mrs'' e''].
  destruct (shr_m mrs''); [reflexivity| |reflexivity].
  destruct (e'' <=? emax - prec); reflexivity.
Qed.

Lemma SFnonneg_div (x : spec_float) (m : positive) (e : Z) :
  SFnonneg x = true -> SFnonneg (SF64div x (S754_finite false m e)) = true.
Proof.
  destruct x as [[]|[]| |[] mx ex]; try reflexivity; try discriminate.
  intros _. unfold SF64div, SFdiv.
  destruct (SFdiv_core_binary prec emax (Z.pos mx) ex (Z.pos m) e) as [[mz ez] lz].
  apply SFnonneg_round_aux.
Qed.

Lemma SFnonneg_add (x y : spec_float) :
  SFnonneg x = true -> SFnonneg y = true -> SFnonneg (SF64add x y) = true.
Proof.
  destruct x as [[]|[]| |[] mx ex], y as [[]|[]| |[] my ey];
    try reflexivity; try discriminate.
  intros _ _. unfold SF64add, SFadd, cond_Zopp, binary_normalize.
  destruct (shl_align mx ex (Z.min ex ey)) as [mx' ex'].
  destruct (shl_align my ey (Z.min ex ey)) as [my' ey'].
  simpl. unfold binary_round.
  match goal with
  | |- context [shl_align ?a ?b ?c] => destruct (shl_align a b c) as [mz ez]
  end.
  apply SFnonneg_round_aux.
Qed.

Lemma nonneg_SFnonneg (x : float) : nonneg x <-> SFnonneg (Prim2SF x) = true.
Proof.
  unfold nonneg, SFnonneg. rewrite FloatAxioms.ltb_spec, Prim2SF_zero.
  destruct (SFltb (Prim2SF x) (S754_zero false)); split; easy.
Qed.

Lemma nonneg_add (x y : float) : nonneg x -> nonneg y -> nonneg (x + y)%float.
Proof.
  rewrite !nonneg_SFnonneg, add_spec. apply SFnonneg_add.
Qed.

Lemma nonneg_div_100 (x : float) : nonneg x -> nonneg (x / 100)%float.
Proof.
  rewrite !nonneg_SFnonneg, div_spec, Prim2SF_100. apply SFnonneg_div.
Qed.

Lemma nonneg_div_50 (x : float) : nonneg x -> nonneg (x / 50)%float.
Proof.
  rewrite !nonneg_SFnonneg, div_spec, Prim2SF_50. apply SFnonneg_div.
Qed.

Lemma nonneg_fmin (x y : float) : nonneg x -> nonneg y -> nonneg (fmin x y).
Proof. unfold fmin. destruct (y <? x)%float; auto. Qed.

Lemma nonneg_conditionWeight (c : string) : nonneg (conditionWeight c).
Proof.
  unfold conditionWeight, weather_risk_weights, weights_lookup.
  repeat match goal with
         | |- context [String.eqb ?a ?b] => destruct (String.eqb a b)
         end; reflexivity.
Qed.

Lemma nonneg_tempRisk (t : float) : nonneg (tempRisk t).
Proof.
  unfold tempRisk.
  destruct (_ || _); [reflexivity|]. destruct (_ || _); reflexivity.
Qed.

Lemma nonneg_leb (x : float) : is_nan x = false -> nonneg x -> (0 <=? x)%float = true.
Proof.
  unfold nonneg. intros Hn H.
  rewrite (ltb_negb_leb x 0 Hn eq_refl) in H.
  destruct (0 <=? x)%float; [reflexivity|discriminate].
Qed.

Lemma fmin_cap (c t : float) : is_nan c = false -> (fmin c t <=? c)%float = true.
Proof.
  intros Hc. unfold fmin. destruct (t <? c)%float eqn:E.
  - apply ltb_leb, E.
  - apply leb_refl, Hc.
Qed.

Lemma score_le_cap (o : WeatherObservation) : (score o <=? 0.95)%float = true.
Proof. apply fmin_cap. reflexivity. Qed.

Lemma score_nonneg (o : WeatherObservation) :
  nonneg (windSpeed o) -> nonneg (precipitationLastHour o) ->
  (0 <=? score o)%float = true.
Proof.
  intros Hw Hp. unfold score.
  set (t := (0.1 + conditionWeight (condition o) + tempRisk (temperature o)
     + fmin (windSpeed o / 100) 0.4
     + fmin (precipitationLastHour o / 50) 0.3)%float).
  assert (Ht : nonneg t).
  { unfold t. repeat apply nonneg_add; try reflexivity.
    - apply nonneg_conditionWeight.
    - apply nonneg_tempRisk.
    - apply nonneg_fmin; [apply nonneg_div_100, Hw|reflexivity].
    - apply nonneg_fmin; [apply nonneg_div_50, Hp|reflexivity]. }
  unfold fmin. destruct (t <? 0.95)%float eqn:E; [|reflexivity].
  apply nonneg_leb; [|exact Ht]. apply (ltb_not_nan _ _ E).
Qed.

Lemma bind_Ok {A B : Type} (r : result A) (k : A -> result B) (b : B) :
  bind r k = Ok b -> exists a, r = Ok a /\ k a = Ok b.
Proof. destruct r as [a|]; [eauto|discriminate]. Qed.

Lemma calculate_risk_le_cap (wd : pyval) (s : float) :
  calculate_risk wd = Ok s -> (s <=? 0.95)%float = true.
Proof.
  unfold calculate_risk. intros H.
  repeat (apply bind_Ok in H as (? & _ & H)).
  injection H as <-. apply fmin_cap. reflexivity.
Qed.

End Scorer.

(** ** The aggregator *)

Section Aggregator.

Lemma fetch_weather_data_fetched (x : Exchange) (loc : Location) :
  fetch_weather_data x loc = Ok (fetched (loc, x)).
Proof.
  unfold fetched, fetch_weather_data. simpl.
  destruct (fetch_try x loc); reflexivity.
Qed.

Lemma fetched_None (loc : Location) (x : Exchange) :
  fetched (loc, x) = None <-> dropped x = true.
Proof.
  unfold dropped, fetched, fetch_weather_data, fetch_try, fetch_failed, scorer_failed. simpl.
  destruct (requests_get x) as [resp|]; simpl; [|easy].
  destruct (status_code resp =? 200); simpl; [|easy].
  destruct (json resp) as [wd|]; simpl; [|easy].
  destruct (calculate_risk wd); simpl; easy.
Qed.

Lemma fetched_Some (loc : Location) (x : Exchange) (r : RiskSnapshot) :
  fetched (loc, x) = Some r <-> fetch_try x loc = Ok (Some r).
Proof.
  unfold fetched, fetch_weather_data. simpl.
  destruct (fetch_try x loc) as [[]|]; split; congruence.
Qed.

Lemma fetched_location (p : Location * Exchange) (r : RiskSnapshot) :
  fetched p = Some r -> location_of r = p.1.
Proof.
  destruct p as [loc x]. rewrite fetched_Some. unfold fetch_try.
  destruct (requests_get x) as [resp|]; simpl; [|discriminate].
  destruct (status_code resp =? 200); [|discriminate].
  destruct (json resp) as [wd|]; simpl; [|discriminate].
  destruct (calculate_risk wd); simpl; [|discriminate].
  intros [= <-]. destruct loc; reflexivity.
Qed.

Lemma executor_map_total {A B : Type} (f : A -> result B) (g : A -> B) (xs : list A) :
  (forall x, f x = Ok (g x)) -> executor_map f xs = Ok (g <$> xs).
Proof.
  intros H. induction xs as [|x xs IH]; simpl; [reflexivity|].
  rewrite H, IH. reflexivity.
Qed.

Lemma omap_cons {A B : Type} (f : A -> option B) (a : A) (l : list A) :
  omap f (a :: l) = match f a with Some b => b :: omap f l | None => omap f l end.
Proof. reflexivity. Qed.

Lemma omap_id_fmap {A B : Type} (f : A -> option B) (l : list A) :
  omap id (f <$> l) = omap f l.
Proof.
  induction l as [|a l IH]; [reflexivity|].
  cbn. destruct (f a); cbn; rewrite <- IH; reflexivity.
Qed.

Lemma update_all_locations_eq (self : DisasterResponseSystem) (world : nat -> Exchange) :
  update_all_locations self world =
  Ok ({| weather_data :=
           dict_by_location (omap fetched (pass world (monitored_locations self)));
         monitored_locations := monitored_locations self |},
      omap fetched (pass world (monitored_locations self))).
Proof.
  unfold update_all_locations.
  rewrite (executor_map_total _ fetched).
  - simpl. unfold valid_results_of. rewrite omap_id_fmap. reflexivity.
  - intros [loc x]. apply fetch_weather_data_fetched.
Qed.

Lemma pass_fst (world : nat -> Exchange) (locs : list Location) :
  (pass world locs).*1 = locs.
Proof.
  unfold pass. revert world.
  induction locs as [|loc locs IH]; intros world; simpl; [reflexivity|].
  f_equal. apply (IH (world ∘ S)).
Qed.

Lemma omap_fetched_locations (ps : list (Location * Exchange)) :
  location_of <$> omap fetched ps = (filter (fun p => is_Some (fetched p)) ps).*1.
Proof.
  induction ps as [|p ps IH]; [reflexivity|].
  rewrite filter_cons, omap_cons.
  destruct (fetched p) as [r|] eqn:E.
  - rewrite decide_True by eauto. rewrite !fmap_cons, IH.
    f_equal. apply fetched_location, E.
  - rewrite decide_False by (intros [? ?]; discriminate). apply IH.
Qed.

Lemma length_omap_fetched (ps : list (Location * Exchange)) :
  (length (omap fetched ps) + length (filter (fun p => dropped p.2 = true) ps)
   = length ps)%nat.
Proof.
  induction ps as [|[loc x] ps IH]; [reflexivity|].
  rewrite filter_cons, omap_cons.
  destruct (fetched (loc, x)) as [r|] eqn:E.
  - rewrite decide_False.
    + simpl. lia.
    + simpl. rewrite <- (fetched_None loc), E. discriminate.
  - rewrite decide_True by (apply (fetched_None loc), E). simpl. lia.
Qed.

Lemma elem_of_omap_fetched (ps : list (Location * Exchange)) (r : RiskSnapshot) :
  r ∈ omap fetched ps <-> exists loc x, (loc, x) ∈ ps /\ fetch_try x loc = Ok (Some r).
Proof.
  rewrite list_elem_of_omap. split.
  - intros ([loc x] & Hin & Hf). exists loc, x. rewrite <- fetched_Some. auto.
  - intros (loc & x & Hin & Hf). exists (loc, x). rewrite fetched_Some. auto.
Qed.

Lemma lookup_foldl_insert (rs : list RiskSnapshot) (m : gmap string RiskSnapshot)
    (k : string) (r : RiskSnapshot) :
  NoDup (location <$> rs) ->
  foldl (fun m r => <[location r := r]> m) m rs !! k = Some r <->
  (r ∈ rs /\ location r = k) \/ ((k ∉ location <$> rs) /\ m !! k = Some r).
Proof.
  revert m. induction rs as [|a rs IH]; intros m; simpl.
  - intros _. rewrite elem_of_nil. split; [intros H; right; split; [apply not_elem_of_nil|exact H]|].
    intros [[[] _]|[_ H]]; exact H.
  - rewrite NoDup_cons. intros [Ha Hnd]. rewrite (IH _ Hnd).
    rewrite elem_of_cons, not_elem_of_cons.
    destruct (decide (location a = k)) as [<-|Hne].
    + rewrite lookup_insert_eq. split.
      * intros [[Hr Hk]|[Hk [= <-]]]; [|auto].
        exfalso. apply Ha. rewrite <- Hk. apply list_elem_of_fmap_2, Hr.
      * intros [[[->|Hr] Hk]|[[Hk _] _]]; [auto| |congruence].
        exfalso. apply Ha. rewrite <- Hk. apply list_elem_of_fmap_2, Hr.
    + rewrite lookup_insert_ne by assumption. split.
      * intros [[Hr Hk]|[Hk Hm]]; [auto|]. right. auto.
      * intros [[[->|Hr] Hk]|[[Hk1 Hk2] Hm]]; [congruence|auto|auto].
Qed.

Lemma lookup_dict_by_location (rs : list RiskSnapshot) (k : string) (r : RiskSnapshot) :
  NoDup (location <$> rs) ->
  dict_by_location rs !! k = Some r <-> r ∈ rs /\ location r = k.
Proof.
  intros Hnd. unfold dict_by_location. rewrite (lookup_foldl_insert _ _ _ _ Hnd).
  rewrite lookup_empty. split; [intros [H|[_ H]]; [exact H|discriminate]|auto].
Qed.

Lemma dom_foldl_insert (rs : list RiskSnapshot) (m : gmap string RiskSnapshot) :
  dom (foldl (fun m r => <[location r := r]> m) m rs)
  = dom m ∪ list_to_set (location <$> rs).
Proof.
  revert m. induction rs as [|a rs IH]; intros m; simpl.
  - rewrite (right_id_L ∅ (∪)). reflexivity.
  - rewrite IH, dom_insert_L.
    rewrite (comm_L (∪) _ (dom m)), (assoc_L (∪)). reflexivity.
Qed.

Lemma size_dict_by_location (rs : list RiskSnapshot) :
  NoDup (location <$> rs) -> size (dict_by_location rs) = length rs.
Proof.
  intros Hnd. rewrite <- size_dom. unfold dict_by_location.
  rewrite dom_foldl_insert, dom_empty_L, (left_id_L ∅ (∪)).
  rewrite size_list_to_set by assumption. apply length_fmap.
Qed.

Lemma NoDup_omap_fetched (ps : list (Location * Exchange)) :
  NoDup (name <$> ps.*1) -> NoDup (location <$> omap fetched ps).
Proof.
  intros Hnd.
  assert (E : location <$> omap fetched ps = name <$> (location_of <$> omap fetched ps)).
  { rewrite <- list_fmap_compose. reflexivity. }
  rewrite E, omap_fetched_locations.
  eapply sublist_NoDup; [exact Hnd|].
  apply fmap_sublist, fmap_sublist, sublist_filter.
Qed.

(** What a fetch that leaves a snapshot has put in it. *)
Lemma fetch_try_Some (x : Exchange) (loc : Location) (r : RiskSnapshot) :
  fetch_try x loc = Ok (Some r) ->
  location_of r = loc
  /\ calculate_risk (snap_weather_data r) = Ok (risk_score r)
  /\ timestamp r = now_isoformat x
  /\ exists response, requests_get x = Ok response
       /\ status_code response = 200
       /\ json response = Ok (snap_weather_data r).
Proof.
  unfold fetch_try.
  destruct (requests_get x) as [resp|]; simpl; [|discriminate].
  destruct (Z.eqb_spec (status_code resp) 200) as [E|_]; [|discriminate].
  destruct (json resp) as [wd|] eqn:Hj; simpl; [|discriminate].
  destruct (calculate_risk wd) as [s|] eqn:Hs; simpl; [|discriminate].
  intros [= <-]. simpl. split; [destruct loc; reflexivity|].
  split; [exact Hs|]. split; [reflexivity|]. exists resp. auto.
Qed.

(** A fetch leaves a snapshot exactly when the request is answered with
    status 200 and a body that parses and that the scorer takes; the snapshot
    is then the location's name and coordinates, that body, its score and
    the clock's reading. *)
Lemma fetch_try_iff (x : Exchange) (loc : Location) (r : RiskSnapshot) :
  fetch_try x loc = Ok (Some r) <->
  exists response wd s,
    requests_get x = Ok response
    /\ status_code response = 200
    /\ json response = Ok wd
    /\ calculate_risk wd = Ok s
    /\ r = {| location := name loc; latitude := lat loc; longitude := lon loc;
              snap_weather_data := wd; risk_score := s;
              timestamp := now_isoformat x |}.
Proof.
  unfold fetch_try. split.
  - destruct (requests_get x) as [resp|]; simpl; [|discriminate].
    destruct (Z.eqb_spec (status_code resp) 200) as [E|_]; [|discriminate].
    destruct (json resp) as [wd|] eqn:Hj; simpl; [|discriminate].
    destruct (calculate_risk wd) as [s|] eqn:Hs; simpl; [|discriminate].
    intros [= <-]. exists resp, wd, s. repeat split; assumption || reflexivity.
  - intros (resp & wd & s & -> & Hc & Hj & Hs & ->). simpl.
    rewrite Hc, Hj. simpl. rewrite Hs. reflexivity.
Qed.

Lemma pass_lookup (world : nat -> Exchange) (locs : list Location)
    (loc : Location) (x : Exchange) :
  (loc, x) ∈ pass world locs -> exists i, locs !! i = Some loc /\ x = world i.
Proof.
  unfold pass. intros H. apply list_elem_of_lookup in H as [i H].
  rewrite list_lookup_imap in H. exists i.
  destruct (locs !! i) as [l|]; simpl in H; [|discriminate].
  injection H as -> ->. auto.
Qed.

Lemma elem_of_pass (world : nat -> Exchange) (locs : list Location)
    (loc : Location) (x : Exchange) :
  (loc, x) ∈ pass world locs <-> exists i, locs !! i = Some loc /\ x = world i.
Proof.
  split; [apply pass_lookup|]. intros (i & Hi & ->).
  unfold pass. apply list_elem_of_lookup. exists i.
  rewrite list_lookup_imap, Hi. reflexivity.
Qed.

End Aggregator.

(** ** Claims about the aggregator *)

(** C8. With no monitored location, a refresh returns the empty list without
    raising, and the stored mapping is empty afterwards, whatever it held
    before. *)
Theorem update_all_locations_no_locations
    (stored : gmap string RiskSnapshot) (world : nat -> Exchange) :
  update_all_locations {| weather_data := stored; monitored_locations := [] |} world
  = Ok ({| weather_data := ∅; monitored_locations := [] |}, []).
Proof. reflexivity. Qed.

(** C5. Whatever each fetch does (raise in [requests.get], answer with a
    status other than 200, raise in [response.json()]), a refresh returns
    normally. The records it returns are exactly the snapshots of the
    monitored locations that responded: there is one for a location exactly
    when its request was answered with status 200 and a body that parses and
    that the scorer takes, and it holds that location, that body, its score
    and the clock's reading. A failed fetch returns None, and so contributes
    no record. *)
Theorem update_all_locations_never_raises
    (self : DisasterResponseSystem) (world : nat -> Exchange) :
  exists self' rs,
    update_all_locations self world = Ok (self', rs)
    /\ (forall r, r ∈ rs <->
          exists i loc response wd s,
            monitored_locations self !! i = Some loc
            /\ requests_get (world i) = Ok response
            /\ status_code response = 200
            /\ json response = Ok wd
            /\ calculate_risk wd = Ok s
            /\ r = {| location := name loc; latitude := lat loc;
                      longitude := lon loc; snap_weather_data := wd;
                      risk_score := s; timestamp := now_isoformat (world i) |})
    /\ (forall loc x, fetch_failed x = true -> fetch_weather_data x loc = Ok None)
    /\ (length rs <= length (monitored_locations self))%nat.
Proof.
  eexists _, _. split; [apply update_all_locations_eq|]. split; [|split].
  - intros r. rewrite elem_of_omap_fetched. split.
    + intros (loc & x & Hin & Hf).
      apply pass_lookup in Hin as (i & Hi & ->).
      apply fetch_try_iff in Hf as (resp & wd & s & Hg & Hc & Hj & Hs & ->).
      exists i, loc, resp, wd, s. repeat split; assumption.
    + intros (i & loc & resp & wd & s & Hi & Hg & Hc & Hj & Hs & ->).
      exists loc, (world i). split; [apply elem_of_pass; eauto|].
      apply fetch_try_iff. exists resp, wd, s. repeat split; assumption.
  - intros loc x Hf. rewrite fetch_weather_data_fetched. f_equal.
    apply fetched_None. unfold dropped. rewrite Hf. reflexivity.
  - pose proof (length_omap_fetched (pass world (monitored_locations self))) as H.
    unfold pass in H at 3. rewrite length_imap in H. lia.
Qed.

(** C10. A refresh returns the snapshots in the order of the monitored
    locations: the locations of the returned list are the monitored locations
    whose fetch left a record, in their order. *)
Theorem update_all_locations_keeps_order
    (self : DisasterResponseSystem) (world : nat -> Exchange) :
  exists self' rs,
    update_all_locations self world = Ok (self', rs)
    /\ location_of <$> rs
       = (filter (fun p => is_Some (fetched p))
            (pass world (monitored_locations self))).*1
    /\ (location_of <$> rs) `sublist_of` monitored_locations self.
Proof.
  eexists _, _. split; [apply update_all_locations_eq|].
  rewrite omap_fetched_locations. split; [reflexivity|].
  rewrite <- (pass_fst world (monitored_locations self)) at 2.
  apply fmap_sublist, sublist_filter.
Qed.

(** C4, as the code has it. In a refresh over N locations with distinct names
    in which exactly K fetches leave no record (a network error, a status other
    than 200, a body that does not parse, or a body on which the scorer
    raises), N - K snapshots are returned, and the stored mapping afterwards
    holds exactly these, each under its location name: nothing of what was
    stored before remains. *)
Theorem update_all_locations_partial_failure
    (self : DisasterResponseSystem) (world : nat -> Exchange) :
  NoDup (name <$> monitored_locations self) ->
  let N := length (monitored_locations self) in
  let K := length (filter (fun p => dropped p.2 = true)
                     (pass world (monitored_locations self))) in
  exists self' rs,
    update_all_locations self world = Ok (self', rs)
    /\ length rs = (N - K)%nat
    /\ size (weather_data self') = (N - K)%nat
    /\ (forall k r, weather_data self' !! k = Some r <-> r ∈ rs /\ location r = k).
Proof.
  intros Hnd N K. eexists _, _. split; [apply update_all_locations_eq|].
  set (ps := pass world (monitored_locations self)) in *.
  assert (Hnd' : NoDup (location <$> omap fetched ps)).
  { apply NoDup_omap_fetched. unfold ps. rewrite pass_fst. exact Hnd. }
  assert (Hlen : length (omap fetched ps) = (N - K)%nat).
  { pose proof (length_omap_fetched ps) as H.
    assert (HN : length ps = N) by apply length_imap.
    fold K in H. lia. }
  simpl. split; [exact Hlen|]. split.
  - rewrite size_dict_by_location by exact Hnd'. exact Hlen.
  - intros k r. apply lookup_dict_by_location, Hnd'.
Qed.

Definition new_york : Location :=
  {| name := "New York"; lat := 40.7128; lon := -74.0060 |}.

(** A 200 answer whose body has a null temperature. *)
Definition null_temp_exchange : Exchange :=
  {| requests_get :=
       Ok {| status_code := 200;
             json := Ok (PyDict [("main", PyDict [("temp", PyNone)])]) |};
     now_isoformat := "2026-01-01T00:00:00" |}.

Lemma update_all_locations_partial_failure_witness :
  exists self' rs,
    update_all_locations init (fun _ => null_temp_exchange) = Ok (self', rs)
    /\ length rs = (10 - 10)%nat
    /\ size (weather_data self') = (10 - 10)%nat
    /\ (forall k r, weather_data self' !! k = Some r <-> r ∈ rs /\ location r = k).
Proof.
  apply (update_all_locations_partial_failure init (fun _ => null_temp_exchange)).
  vm_compute. repeat (constructor; [intros H; repeat (inversion H as [|? ? ? H']; clear H; rename H' into H) |]).
  constructor.
Defined.

(** C4, as stated, fails: one location, no network error, status 200, a body
    that parses, so K = 0 of the listed failures; yet no snapshot is returned,
    because the scorer raises on the body and the fetch swallows it. *)
Lemma update_all_locations_scorer_failure :
  let self := {| weather_data := ∅; monitored_locations := [new_york] |} in
  let world := fun _ : nat => null_temp_exchange in
  let N := length (monitored_locations self) in
  let K := length (filter (fun p => fetch_failed p.2 = true)
                     (pass world (monitored_locations self))) in
  N = 1%nat /\ K = 0%nat /\
  exists self', update_all_locations self world = Ok (self', [])
                /\ length ([] : list RiskSnapshot) <> (N - K)%nat.
Proof.
  simpl. split; [reflexivity|]. split; [reflexivity|].
  eexists. split; [reflexivity|]. discriminate.
Qed.

(** ** Claims about the scorer *)

Section ScorerClaims.

Lemma weather_ok_returns (kvs : list (string * pyval)) :
  weather_ok kvs = true ->
  exists w, (c <- main_condition_of (PyDict kvs) ;; weights_get c) = Ok w.
Proof.
  unfold weather_ok, main_condition_of, dict_get. simpl.
  destruct (assoc "weather" kvs) as [[| | | | |[|[| | | | | |d] ?]|]|];
    try discriminate; simpl; [|eauto].
  destruct (assoc "main" d) as [[]|]; try discriminate; simpl; eauto.
Qed.

Lemma field_ok_returns (ok : pyval -> bool) (kvs : list (string * pyval))
    (outer inner : string) :
  field_ok ok kvs outer inner = true ->
  exists v, get2 (PyDict kvs) outer inner = Ok v /\ (ok v = true \/ v = PyInt 0).
Proof.
  unfold field_ok, get2, dict_get. simpl.
  destruct (assoc outer kvs) as [[| | | | | |d]|]; try discriminate; simpl; [|eauto].
  destruct (assoc inner d) as [v|]; simpl; eauto.
Qed.

Lemma temp_risk_of_returns (v : pyval) :
  is_number v = true \/ v = PyInt 0 -> exists t, temp_risk_of v = Ok t.
Proof.
  intros [H| ->]; [|eexists; reflexivity].
  unfold temp_risk_of, py_or, py_gt, py_lt.
  destruct v; try discriminate; simpl.
  - destruct (35 <? Z_of_bool b); simpl; [eauto|].
    destruct (Z_of_bool b <? -10); simpl; [eauto|].
    destruct (30 <? Z_of_bool b); simpl; [eauto|].
    destruct (Z_of_bool b <? 0); simpl; eauto.
  - destruct (35 <? z); simpl; [eauto|].
    destruct (z <? -10); simpl; [eauto|].
    destruct (30 <? z); simpl; [eauto|].
    destruct (z <? 0); simpl; eauto.
  - destruct (35 <? f)%float; simpl; [eauto|].
    destruct (f <? -10)%float; simpl; [eauto|].
    destruct (30 <? f)%float; simpl; [eauto|].
    destruct (f <? 0)%float; simpl; eauto.
Qed.

Lemma py_truediv_returns (v : pyval) (n : Z) (nf : float) :
  n = 100 \/ n = 50 ->
  is_dividend v = true \/ v = PyInt 0 -> exists q, py_truediv v n nf = Ok q.
Proof.
  intros Hn [H| ->]; [|eexists; reflexivity].
  destruct v; try discriminate; simpl; [| |eauto].
  - destruct b, Hn as [-> | ->]; eexists; vm_compute; reflexivity.
  - apply Z.ltb_lt in H. apply int_truediv_returns; [lia|exact H].
Qed.

(** C7. The empty observation scores exactly 0.2, which is also what the five
    terms 0.1, 0.1, 0, 0 and 0 add up to in binary64. *)
Theorem calculate_risk_empty :
  calculate_risk (PyDict []) = Ok 0.2%float
  /\ (0.1 + 0.1 + 0 + 0 + 0)%float = 0.2%float.
Proof. split; reflexivity. Qed.

(** C3. On every body that carries an observation, the scorer returns
    min(0.95, 0.1 + conditionWeight + tempRisk + min(windSpeed/100, 0.4)
    + min(precipitation/50, 0.3)) of that observation. *)
Theorem calculate_risk_formula (wd : pyval) (o : WeatherObservation) :
  observe wd = Some o ->
  calculate_risk wd
  = Ok (fmin 0.95
          (0.1 + conditionWeight (condition o) + tempRisk (temperature o)
           + fmin (windSpeed o / 100) 0.4
           + fmin (precipitationLastHour o / 50) 0.3)%float).
Proof. apply calculate_risk_observe. Qed.

(** A body with every attribute the scorer reads, two of them ints, and some
    it does not read. *)
Definition rain_body : pyval :=
  PyDict [ ("weather", PyList [PyDict [("id", PyInt 500); ("main", PyStr "Rain")]]);
           ("main", PyDict [("temp", PyInt 32); ("humidity", PyInt 80)]);
           ("wind", PyDict [("speed", PyFloat 10)]);
           ("rain", PyDict [("1h", PyInt 5)]);
           ("name", PyStr "Miami") ].

Definition rain_observation : WeatherObservation :=
  {| condition := "Rain"; temperature := 32; windSpeed := 10;
     precipitationLastHour := 5 |}.

Lemma calculate_risk_formula_witness :
  calculate_risk rain_body
  = Ok (fmin 0.95
          (0.1 + conditionWeight "Rain" + tempRisk 32
           + fmin (10 / 100) 0.4 + fmin (5 / 50) 0.3)%float).
Proof. apply (calculate_risk_formula rain_body rain_observation). reflexivity. Defined.

(** C9. A risk score, which is never NaN, gets exactly one of the three
    colours: green below 0.3, orange from 0.3 up to but not including 0.7, red
    from 0.7. *)
Theorem get_risk_color_bands (s : float) :
  is_nan s = false ->
  (get_risk_color s = "green" \/ get_risk_color s = "orange"
   \/ get_risk_color s = "red")
  /\ (get_risk_color s = "green" <-> (s <? 0.3)%float = true)
  /\ (get_risk_color s = "orange" <->
        (0.3 <=? s)%float = true /\ (s <? 0.7)%float = true)
  /\ (get_risk_color s = "red" <-> (0.7 <=? s)%float = true).
Proof.
  intros Hs. unfold get_risk_color.
  pose proof (ltb_negb_leb s 0.3 Hs eq_refl) as H3.
  pose proof (ltb_negb_leb s 0.7 Hs eq_refl) as H7.
  destruct (s <? 0.3)%float eqn:E3.
  - assert (E7 : (s <? 0.7)%float = true).
    { apply (ltb_leb_trans s 0.3 0.7 E3). reflexivity. }
    rewrite E7 in H7.
    destruct (0.3 <=? s)%float; [discriminate|].
    destruct (0.7 <=? s)%float; [discriminate|].
    repeat split; auto; try discriminate; intros []; discriminate.
  - destruct (0.3 <=? s)%float; [|discriminate].
    destruct (s <? 0.7)%float eqn:E7.
    + destruct (0.7 <=? s)%float; [discriminate|].
      repeat split; auto; discriminate.
    + destruct (0.7 <=? s)%float; [|discriminate].
      repeat split; auto; try discriminate. intros []; discriminate.
Qed.

Lemma get_risk_color_bands_witness :
  (get_risk_color 0.25 = "green" \/ get_risk_color 0.25 = "orange"
   \/ get_risk_color 0.25 = "red")
  /\ (get_risk_color 0.25 = "green" <-> (0.25 <? 0.3)%float = true)
  /\ (get_risk_color 0.25 = "orange" <->
        (0.3 <=? 0.25)%float = true /\ (0.25 <? 0.7)%float = true)
  /\ (get_risk_color 0.25 = "red" <-> (0.7 <=? 0.25)%float = true).
Proof. apply (get_risk_color_bands 0.25). reflexivity. Defined.

(** X1. The scorer never returns NaN, so every risk score has a colour band. *)
Lemma calculate_risk_not_nan (wd : pyval) (s : float) :
  calculate_risk wd = Ok s -> is_nan s = false.
Proof.
  intros H. apply calculate_risk_le_cap, leb_not_nan in H. apply H.
Qed.

(** C1, as the code has it. Every score is at most 0.95; on a body that
    carries an observation whose wind speed and precipitation are not
    negative, the score is in [0, 0.95]. *)
Theorem calculate_risk_range (wd : pyval) (s : float) :
  calculate_risk wd = Ok s ->
  (s <=? 0.95)%float = true
  /\ (forall o, observe wd = Some o ->
        (windSpeed o <? 0)%float = false ->
        (precipitationLastHour o <? 0)%float = false ->
        (0 <=? s)%float = true).
Proof.
  intros H. split; [apply (calculate_risk_le_cap wd), H|].
  intros o Ho Hw Hp. rewrite (calculate_risk_observe wd o Ho) in H.
  injection H as <-. apply score_nonneg; assumption.
Qed.

Lemma calculate_risk_range_witness :
  ((fmin 0.95 (0.1 + conditionWeight "Rain" + tempRisk 32
               + fmin (10 / 100) 0.4 + fmin (5 / 50) 0.3) <=? 0.95)%float = true)
  /\ (forall o, observe rain_body = Some o ->
        (windSpeed o <? 0)%float = false ->
        (precipitationLastHour o <? 0)%float = false ->
        (0 <=? fmin 0.95 (0.1 + conditionWeight "Rain" + tempRisk 32
                          + fmin (10 / 100) 0.4 + fmin (5 / 50) 0.3))%float = true).
Proof. apply (calculate_risk_range rain_body). reflexivity. Defined.

(** A body whose wind speed is negative. *)
Definition headwind_body : pyval :=
  PyDict [("wind", PyDict [("speed", PyFloat (-1000))])].

(** C1, as stated, fails: a wind speed of -1000 gives a score below 0. *)
Lemma calculate_risk_below_zero :
  exists s, calculate_risk headwind_body = Ok s
            /\ (s <? 0)%float = true /\ (0 <=? s)%float = false.
Proof. eexists. split; [reflexivity|]. split; reflexivity. Qed.

(** C2, as the code has it. The scorer returns a score on every body that is
    a JSON object in which [weather], when present, is a list starting with an
    object whose [main], when present, is not a list or an object; [main],
    [wind] and [rain], when present, are objects; [temp], when present, is a
    number; [speed] and [1h], when present, are floats, booleans or ints
    below 2 ^ 1023 in absolute value. Every absent key gets its default. *)
Theorem calculate_risk_total (wd : pyval) :
  well_typed wd = true -> exists s, calculate_risk wd = Ok s.
Proof.
  destruct wd as [| | | | | |kvs]; try discriminate. simpl.
  rewrite !andb_true_iff. intros [[[Hw Ht] Hs] Hr].
  apply weather_ok_returns in Hw as (cw & Hw).
  apply field_ok_returns in Ht as (vt & Ht & Hvt).
  apply field_ok_returns in Hs as (vs & Hs & Hvs).
  apply field_ok_returns in Hr as (vr & Hr & Hvr).
  apply temp_risk_of_returns in Hvt as (tr & Hvt).
  apply (py_truediv_returns vs 100 100%float) in Hvs as (qs & Hvs); [|auto].
  apply (py_truediv_returns vr 50 50%float) in Hvr as (qr & Hvr); [|auto].
  unfold calculate_risk.
  destruct (main_condition_of (PyDict kvs)) as [c|]; [|discriminate].
  simpl in Hw |- *. rewrite Hw, Ht. simpl. rewrite Hvt, Hs. simpl.
  rewrite Hvs, Hr. simpl. rewrite Hvr. simpl. eauto.
Qed.

Lemma calculate_risk_total_witness :
  exists s, calculate_risk rain_body = Ok s.
Proof. apply (calculate_risk_total rain_body). reflexivity. Defined.

(** C2, as stated, fails: a temperature that is not a number raises. *)
Lemma calculate_risk_raises_on_text_temp :
  calculate_risk (PyDict [("main", PyDict [("temp", PyStr "hot")])])
  = Raise TypeError.
Proof. reflexivity. Qed.

(** An empty [weather] list raises too. *)
Lemma calculate_risk_raises_on_empty_weather :
  calculate_risk (PyDict [("weather", PyList [])]) = Raise IndexError.
Proof. reflexivity. Qed.

(** A body like [rain_body] with a stronger wind. *)
Definition gale_body : pyval :=
  PyDict [ ("weather", PyList [PyDict [("id", PyInt 500); ("main", PyStr "Rain")]]);
           ("main", PyDict [("temp", PyInt 32); ("humidity", PyInt 80)]);
           ("wind", PyDict [("speed", PyInt 20)]);
           ("rain", PyDict [("1h", PyInt 5)]);
           ("name", PyStr "Miami") ].

Definition gale_observation : WeatherObservation :=
  {| condition := "Rain"; temperature := 32; windSpeed := 20;
     precipitationLastHour := 5 |}.

(** C6. The score is monotone in the wind speed and in the precipitation: of
    two observations with the same condition and temperature, one of which has
    at most the wind speed of the other and the same precipitation, or the
    same wind speed and at most the precipitation of the other, the first
    scores at most what the second scores. *)
Theorem calculate_risk_monotone (wd1 wd2 : pyval) (o1 o2 : WeatherObservation) :
  observe wd1 = Some o1 -> observe wd2 = Some o2 ->
  condition o1 = condition o2 -> temperature o1 = temperature o2 ->
  ((windSpeed o1 <=? windSpeed o2)%float = true
   /\ precipitationLastHour o1 = precipitationLastHour o2)
  \/ (windSpeed o1 = windSpeed o2
      /\ (precipitationLastHour o1 <=? precipitationLastHour o2)%float = true) ->
  exists s1 s2,
    calculate_risk wd1 = Ok s1 /\ calculate_risk wd2 = Ok s2
    /\ (s1 <=? s2)%float = true.
Proof.
  intros H1 H2 Hc Ht H.
  exists (score o1), (score o2).
  split; [apply calculate_risk_observe, H1|].
  split; [apply calculate_risk_observe, H2|].
  destruct o1 as [c1 t1 w1 p1], o2 as [c2 t2 w2 p2]. simpl in *. subst c2 t2.
  destruct H as [[Hw <-]|[<- Hp]].
  - apply score_mono_wind, Hw.
  - apply score_mono_rain, Hp.
Qed.

Lemma calculate_risk_monotone_witness :
  exists s1 s2,
    calculate_risk rain_body = Ok s1 /\ calculate_risk gale_body = Ok s2
    /\ (s1 <=? s2)%float = true.
Proof.
  apply (calculate_risk_monotone rain_body gale_body
           rain_observation gale_observation);
    try reflexivity.
  left. split; reflexivity.
Defined.

(** A body with the four attributes as floats. *)
Definition case_body (cond : string) (temp wind rain : float) : pyval :=
  PyDict [ ("weather", PyList [PyDict [("main", PyStr cond)]]);
           ("main", PyDict [("temp", PyFloat temp)]);
           ("wind", PyDict [("speed", PyFloat wind)]);
           ("rain", PyDict [("1h", PyFloat rain)]) ].

(** The three worked cases of the specification: the extreme one and the
    moderate one are capped at 0.95, the third scores 0.25. *)
Lemma calculate_risk_worked_cases :
  calculate_risk (case_body "Tornado" 40 200 100) = Ok 0.95%float
  /\ calculate_risk (case_body "Rain" 32 10 5) = Ok 0.95%float
  /\ calculate_risk (case_body "Clear" 20 5 0) = Ok 0.25%float.
Proof. repeat split; reflexivity. Qed.

Lemma calculate_risk_not_nan_witness :
  is_nan 0.25 = false.
Proof.
  apply (calculate_risk_not_nan (case_body "Clear" 20 5 0) 0.25). reflexivity.
Defined.

End ScorerClaims.

(** ** The int quotient that is too large for a float *)

Section Overflow.

(** Half a unit of the last place above the largest float, doubled. *)
Definition overflow_threshold2 : Z := (2 ^ 54 - 1) * 2 ^ 2045.

(** The rounding of N/D stays below [omega] exactly when N/D is below the
    middle of the largest float and 2 ^ 1024. *)
Lemma rnd_units_lt_omega (N D : Z) :
  0 <= N -> 0 < D ->
  rnd_units N D < omega <-> 2 * N < D * overflow_threshold2.
Proof.
  intros HN HD. split.
  - intros Hlt. destruct (Z_lt_ge_dec (2 * N) (D * overflow_threshold2)) as [|Hge];
      [assumption|exfalso].
    assert (Hle : ((2 ^ 54 - 1) * 2 ^ 2044) * D <= N).
    { unfold overflow_threshold2 in Hge.
      change (2 ^ 2045) with (2 * 2 ^ 2044) in Hge. lia. }
    assert (H0 : 0 <= (2 ^ 54 - 1) * 2 ^ 2044 * D) by lia.
    pose proof (rnd_units_mono _ _ D (conj H0 Hle) HD) as Hm.
    replace D with (1 * D) in Hm at 2 by lia.
    rewrite (rnd_units_scale _ 1 D) in Hm by lia.
    assert (E : rnd_units ((2 ^ 54 - 1) * 2 ^ 2044) 1 = omega) by (vm_compute; reflexivity).
    rewrite E in Hm. replace (1 * D) with D in Hm by lia. lia.
  - intros Hlt. unfold overflow_threshold2 in Hlt.
    assert (P45 : 0 < 2 ^ 2045) by reflexivity.
    assert (Hq0 : 0 <= N / D) by (apply Z.div_pos; lia).
    assert (Hq : N / D < 2 ^ 2098).
    { apply Z.div_lt_upper_bound; [lia|].
      change (2 ^ 2098) with (2 ^ 53 * 2 ^ 2045). nia. }
    pose proof (Zdigits2_le (N / D) 2098 (conj Hq0 Hq) ltac:(lia)) as Hd.
    pose proof (sigma_nonneg (N / D)) as Hs.
    unfold rnd_units.
    assert (Hs' : sigma (N / D) <= 2045) by (unfold sigma; lia).
    set (sg := sigma (N / D)) in *.
    assert (P : 0 < 2 ^ sg) by (apply Z.pow_pos_nonneg; lia).
    destruct (Z.eq_dec sg 2045) as [E|NE].
    + rewrite E.
      assert (Ht : 2 * N / (D * 2 ^ 2045) < 2 ^ 54 - 1).
      { apply Z.div_lt_upper_bound; [lia|]. lia. }
      assert (Ht0 : 0 <= 2 * N / (D * 2 ^ 2045)) by (apply Z.div_pos; lia).
      assert (Hr : rne N (D * 2 ^ 2045) <= 2 ^ 53 - 1).
      { unfold rne. set (t := 2 * N / (D * 2 ^ 2045)) in *.
        pose proof (Z.div_mod t 2 ltac:(lia)) as M.
        rewrite Zmod_odd in M.
        destruct (Z.odd t).
        - assert (t / 2 + 1 <= 2 ^ 53 - 1) by lia.
          destruct (_ =? 0); [|lia]. destruct (Z.even _); lia.
        - lia. }
      change omega with (2 ^ 53 * 2 ^ 2045). nia.
    + pose proof (rne_bounds N (D * 2 ^ sg) HN (Z.mul_pos_pos _ _ HD P)) as [_ U].
      rewrite div_div_pow2 in U by lia.
      pose proof (shifted_mantissa_bounds (N / D) Hq0) as [[_ B] _]. fold sg in B.
      assert (Hp : 2 ^ sg <= 2 ^ 2044) by (apply Z.pow_le_mono_r; lia).
      change omega with (2 ^ 53 * (2 * 2 ^ 2044)). nia.
Qed.

(** The quotient of two ints raises exactly from the middle of the largest
    float and 2 ^ 1024 on. *)
Lemma int_truediv_is_ok (a b : Z) :
  0 < b -> is_ok (int_truediv a b) = (Z.abs a <? b * (2 ^ 1024 - 2 ^ 970)).
Proof.
  intros Hb. unfold int_truediv.
  destruct (Z.eq_dec a 0) as [->|Hnz].
  { simpl. symmetry. apply Z.ltb_lt. apply Z.mul_pos_pos; [exact Hb|reflexivity]. }
  assert (Hm : forall r : result float,
             match a with 0 => Ok 0%float | _ => r end = r)
    by (intros r; destruct a; [contradiction|reflexivity|reflexivity]).
  rewrite Hm. clear Hm.
  assert (Hpos : 0 < Z.abs a) by lia.
  pose proof (SFdiv_core_binary_correct (Z.abs a) 0 b 0 Hpos Hb ltac:(unfold emin64; lia))
    as H.
  destruct (SFdiv_core_binary prec emax (Z.abs a) 0 b 0) as [[m e] l].
  destruct H as (He & Hloc & Hg).
  assert (HN : 0 <= Z.abs a * 2 ^ (0 - 0 - emin64)).
  { apply Z.mul_nonneg_nonneg; [lia|apply Z.pow_nonneg; lia]. }
  pose proof (binary_round_aux_correct (a <? 0) m e l _ _ HN Hb He Hloc Hg)
    as (V & Nn & U).
  pose proof (rnd_units_nonneg _ b HN Hb) as H0.
  pose proof (rnd_units_lt_omega _ b HN Hb) as Hiff.
  change (0 - 0 - emin64) with 1074 in *.
  assert (Ho : 0 < omega) by reflexivity.
  assert (Hthr : 2 * (Z.abs a * 2 ^ 1074) < b * overflow_threshold2
                 <-> Z.abs a < b * (2 ^ 1024 - 2 ^ 970)).
  { unfold overflow_threshold2.
    change ((2 ^ 54 - 1) * 2 ^ 2045) with ((2 ^ 1024 - 2 ^ 970) * (2 * 2 ^ 1074)).
    assert (0 < 2 ^ 1074) by reflexivity. split; intros; nia. }
  rewrite Hthr in Hiff. clear Hthr.
  destruct (Z.ltb_spec (Z.abs a) (b * (2 ^ 1024 - 2 ^ 970))) as [Hlt|Hge].
  - apply Hiff in Hlt. rewrite Z.min_l in U by lia.
    destruct (binary_round_aux prec emax _ m e l) as [s|s| |s mm ee];
      try reflexivity.
    exfalso. destruct s, (a <? 0); simpl in U; lia.
  - assert (Hge' : omega <= rnd_units (Z.abs a * 2 ^ 1074) b) by lia.
    rewrite Z.min_r in U by lia.
    pose proof (SFfin_or_inf _ Nn) as [F|[E|E]].
    + pose proof (units_fin _ V F) as B. exfalso.
      destruct (a <? 0); simpl in U; lia.
    + rewrite E. reflexivity.
    + rewrite E. reflexivity.
Qed.
End Overflow.

(** ** The bodies the scorer returns on *)

Section Scorable.

Lemma weather_ok_iff (kvs : list (string * pyval)) :
  is_ok (c <- main_condition_of (PyDict kvs) ;; weights_get c) = weather_ok kvs.
Proof.
  unfold weather_ok, main_condition_of, dict_get. simpl.
  destruct (assoc "weather" kvs) as [[| | | |[|? ?]|[|[| | | | | |d] ?]|]|];
    try reflexivity; simpl.
  destruct (assoc "main" d) as [[]|]; reflexivity.
Qed.

Lemma temp_risk_of_iff (v : pyval) : is_ok (temp_risk_of v) = is_number v.
Proof.
  unfold temp_risk_of, py_or, py_gt, py_lt.
  destruct v; try reflexivity; simpl.
  - destruct (35 <? Z_of_bool b); simpl; [reflexivity|].
    destruct (Z_of_bool b <? -10); simpl; [reflexivity|].
    destruct (30 <? Z_of_bool b); simpl; [reflexivity|].
    destruct (Z_of_bool b <? 0); reflexivity.
  - destruct (35 <? z); simpl; [reflexivity|].
    destruct (z <? -10); simpl; [reflexivity|].
    destruct (30 <? z); simpl; [reflexivity|].
    destruct (z <? 0); reflexivity.
  - destruct (35 <? f)%float; simpl; [reflexivity|].
    destruct (f <? -10)%float; simpl; [reflexivity|].
    destruct (30 <? f)%float; simpl; [reflexivity|].
    destruct (f <? 0)%float; reflexivity.
Qed.

Lemma py_truediv_iff (v : pyval) (n : Z) (nf : float) :
  0 < n -> is_ok (py_truediv v n nf) = divides n v.
Proof.
  intros Hn. destruct v as [|b|z| | | |]; try reflexivity; simpl.
  - rewrite (int_truediv_is_ok _ n Hn). apply Z.ltb_lt.
    assert (1 <= 2 ^ 1024 - 2 ^ 970) by (vm_compute; discriminate).
    destruct b; simpl; nia.
  - apply int_truediv_is_ok, Hn.
Qed.

Lemma field_ok_iff (ok : pyval -> bool) (A : Type) (f : pyval -> result A)
    (kvs : list (string * pyval)) (outer inner : string) :
  (forall v, is_ok (f v) = ok v) -> is_ok (f (PyInt 0)) = true ->
  is_ok (v <- get2 (PyDict kvs) outer inner ;; f v) = field_ok ok kvs outer inner.
Proof.
  intros Hf H0. unfold field_ok, get2, dict_get. simpl.
  destruct (assoc outer kvs) as [[| | | | | |d]|]; try reflexivity; simpl.
  - destruct (assoc inner d) as [v|]; simpl; [apply Hf|exact H0].
  - exact H0.
Qed.

Lemma is_ok_calculate_risk (wd : pyval) :
  is_ok (calculate_risk wd) = scorable wd.
Proof.
  destruct wd as [| | | | | |kvs]; try reflexivity.
  unfold scorable, calculate_risk.
  rewrite <- (weather_ok_iff kvs).
  rewrite <- (field_ok_iff is_number _ temp_risk_of kvs "main" "temp"
                temp_risk_of_iff eq_refl).
  rewrite <- (field_ok_iff (divides 100) _ (fun v => py_truediv v 100 100%float)
                kvs "wind" "speed" (fun v => py_truediv_iff v 100 100%float eq_refl)
                eq_refl).
  rewrite <- (field_ok_iff (divides 50) _ (fun v => py_truediv v 50 50%float)
                kvs "rain" "1h" (fun v => py_truediv_iff v 50 50%float eq_refl)
                eq_refl).
  unfold bind.
  destruct (main_condition_of (PyDict kvs)) as [c|]; [|reflexivity].
  destruct (weights_get c) as [w|]; [|reflexivity].
  destruct (get2 (PyDict kvs) "main" "temp") as [t|]; [|reflexivity].
  destruct (temp_risk_of t) as [tr|]; [|reflexivity].
  destruct (get2 (PyDict kvs) "wind" "speed") as [ws|]; [|reflexivity].
  destruct (py_truediv ws 100 100%float) as [wq|]; [|reflexivity].
  destruct (get2 (PyDict kvs) "rain" "1h") as [rn|]; [|reflexivity].
  destruct (py_truediv rn 50 50%float) as [rq|]; reflexivity.
Qed.

(** X2. The scorer returns a score exactly on the bodies that are a JSON
    object in which [weather], when present, is a list starting with an
    object whose [main], when present, is not a list or an object; [main],
    [wind] and [rain], when present, are objects; [temp], when present, is a
    number; [speed] and [1h], when present, are floats, booleans, or ints
    below 100 and 50 times 2 ^ 1024 - 2 ^ 970 in absolute value. On every
    other body it raises. *)
Theorem calculate_risk_returns_iff (wd : pyval) :
  (exists s, calculate_risk wd = Ok s) <-> scorable wd = true.
Proof.
  rewrite <- is_ok_calculate_risk.
  destruct (calculate_risk wd) as [s|e]; simpl; split; eauto.
  - intros [s H]. discriminate.
  - discriminate.
Qed.
End Scorable.

(** ** The score from below *)

Section ScoreBelow.

(** Adding zero does not take a float down. *)
Lemma leb_add_zero (x : float) :
  is_nan x = false ->
  is_nan (x + 0)%float = false /\ (x <=? x + 0)%float = true.
Proof.
  intros Nx.
  assert (H : SF64add (Prim2SF x) (S754_zero false) <> S754_nan
              /\ units (SF64add (Prim2SF x) (S754_zero false)) = units (Prim2SF x)).
  { pose proof (Prim2SF_valid x) as V. apply not_nan_Prim2SF in Nx.
    destruct (SFfin_or_inf _ Nx) as [F|[->| ->]]; try (split; [discriminate|reflexivity]).
    pose proof (SFadd_units _ (S754_zero false) V eq_refl F eq_refl) as (_ & N & U).
    split; [exact N|]. rewrite U. simpl (units (S754_zero false)). rewrite Z.add_0_r.
    destruct (Prim2SF x) as [s|s| |s m e]; try discriminate; [reflexivity|].
    apply round_q_valid, V. }
  destruct H as [N U].
  assert (Nz : is_nan (x + 0)%float = false).
  { apply is_nan_add. rewrite Prim2SF_zero. exact N. }
  split; [exact Nz|]. apply leb_units. split; [exact Nx|]. split; [exact Nz|].
  rewrite add_spec, Prim2SF_zero, U. lia.
Qed.

Lemma leb_add_nonneg (x y : float) :
  (0 <=? y)%float = true -> is_nan x = false -> is_nan (x + y)%float = false ->
  (x <=? x + y)%float = true.
Proof.
  intros Hy Nx Nxy. destruct (leb_add_zero x Nx) as [Nz Hz].
  apply (leb_trans _ _ _ Hz). apply add_mono_r; assumption.
Qed.

(** The capped wind and rain terms of a speed and a volume that are not
    below zero are NaN or at least zero. *)
Lemma term_nonneg (q c : float) :
  nonneg q -> nonneg c -> is_nan (fmin q c) = false -> (0 <=? fmin q c)%float = true.
Proof.
  intros Hq Hc Nn. apply nonneg_leb; [exact Nn|]. apply nonneg_fmin; assumption.
Qed.

(** The score is not below what the condition and the temperature alone
    give. *)
Lemma score_ge_base (o : WeatherObservation) :
  nonneg (windSpeed o) -> nonneg (precipitationLastHour o) ->
  (fmin 0.95 (0.1 + conditionWeight (condition o) + tempRisk (temperature o))
   <=? score o)%float = true.
Proof.
  intros Hw Hp. unfold score.
  destruct (base_terms_finite (condition o) (temperature o)) as [FS _].
  set (S := (0.1 + conditionWeight (condition o) + tempRisk (temperature o))%float) in *.
  set (wr := fmin (windSpeed o / 100) 0.4).
  set (rr := fmin (precipitationLastHour o / 50) 0.3).
  assert (NS : is_nan S = false) by (apply SFfin_not_nan, FS).
  destruct (is_nan (S + wr + rr)%float) eqn:Nt.
  { rewrite (fmin_nan_r _ _ Nt). apply fmin_cap. reflexivity. }
  assert (Na : is_nan (S + wr)%float = false).
  { destruct (is_nan (S + wr)%float) eqn:E; [|reflexivity].
    rewrite (is_nan_add_l _ rr E) in Nt. discriminate. }
  assert (Nw : is_nan wr = false).
  { destruct (is_nan wr) eqn:E; [|reflexivity].
    rewrite (is_nan_add_r S _ E) in Na. discriminate. }
  assert (Nr : is_nan rr = false).
  { destruct (is_nan rr) eqn:E; [|reflexivity].
    rewrite (is_nan_add_r (S + wr) _ E) in Nt. discriminate. }
  assert (H0w : (0 <=? wr)%float = true).
  { apply term_nonneg; [apply nonneg_div_100, Hw|reflexivity|exact Nw]. }
  assert (H0r : (0 <=? rr)%float = true).
  { apply term_nonneg; [apply nonneg_div_50, Hp|reflexivity|exact Nr]. }
  apply fmin_mono_r; [reflexivity|].
  apply (leb_trans _ (S + wr)%float); apply leb_add_nonneg; assumption.
Qed.

(** The sums of the first three terms, by condition and temperature. *)
Ltac by_condition :=
  unfold conditionWeight, tempRisk, weather_risk_weights, weights_lookup;
  repeat match goal with
         | |- context [String.eqb ?a ?b] => destruct (String.eqb a b)
         end;
  destruct (_ || _); try destruct (_ || _).

Lemma base_ge_fifth (c : string) (t : float) :
  (0.2 <=? fmin 0.95 (0.1 + conditionWeight c + tempRisk t))%float = true.
Proof. by_condition; vm_compute; reflexivity. Qed.

Lemma base_red (c : string) (t : float) :
  (0.6 <=? conditionWeight c)%float = true ->
  (0.7 <=? fmin 0.95 (0.1 + conditionWeight c + tempRisk t))%float = true.
Proof.
  by_condition; intros H; first [discriminate H | vm_compute; reflexivity].
Qed.

Lemma base_cap (c : string) (t : float) :
  (0.9 <=? conditionWeight c)%float = true ->
  fmin 0.95 (0.1 + conditionWeight c + tempRisk t) = 0.95%float.
Proof.
  by_condition; intros H; first [discriminate H | vm_compute; reflexivity].
Qed.

Lemma leb_antisym_cap (s : float) :
  (0.95 <=? s)%float = true -> (s <=? 0.95)%float = true -> s = 0.95%float.
Proof.
  intros H1 H2. symmetry. apply Prim2SF_inj.
  apply leb_units in H1 as (_ & Ns & U1). apply leb_units in H2 as (_ & _ & U2).
  apply units_inj; try apply Prim2SF_valid.
  - vm_compute. discriminate.
  - apply not_nan_Prim2SF, Ns.
  - lia.
  - vm_compute. discriminate.
Qed.
Lemma base_mild (c : string) (t : float) :
  (conditionWeight c = 0.1%float
   /\ (30 <? t)%float = false /\ (t <? 0)%float = false)
  \/ (0.3 <=? fmin 0.95 (0.1 + conditionWeight c + tempRisk t))%float = true.
Proof.
  unfold tempRisk.
  destruct (30 <? t)%float, (t <? 0)%float; cbn [orb]; rewrite ?orb_true_r;
    unfold conditionWeight, weather_risk_weights, weights_lookup;
    repeat match goal with
           | |- context [String.eqb ?a ?b] => destruct (String.eqb a b)
           end;
    try destruct (_ || _);
    first [right; vm_compute; reflexivity | left; repeat split; reflexivity].
Qed.

Lemma is_nan_div (x c : float) : is_nan x = true -> is_nan (x / c)%float = true.
Proof. rewrite !is_nan_Prim2SF, div_spec. intros ->. reflexivity. Qed.

Lemma fmin_nan_l (x c : float) : is_nan x = true -> is_nan (fmin x c) = true.
Proof.
  intros Nx. unfold fmin. destruct (c <? x)%float eqn:E; [|exact Nx].
  destruct (ltb_not_nan _ _ E) as [_ H]. congruence.
Qed.

(** X3. The floor of the score. On a body that carries an observation whose
    wind speed and precipitation are not below zero, the score is at least
    what the condition and the temperature alone give, capped, and so at
    least 0.2. *)
Theorem calculate_risk_floor (wd : pyval) (o : WeatherObservation) :
  observe wd = Some o ->
  (windSpeed o <? 0)%float = false ->
  (precipitationLastHour o <? 0)%float = false ->
  exists s,
    calculate_risk wd = Ok s
    /\ (fmin 0.95 (0.1 + conditionWeight (condition o) + tempRisk (temperature o))
        <=? s)%float = true
    /\ (0.2 <=? s)%float = true.
Proof.
  intros Ho Hw Hp. exists (score o). split; [apply calculate_risk_observe, Ho|].
  pose proof (score_ge_base o Hw Hp) as H. split; [exact H|].
  apply (leb_trans _ _ _ (base_ge_fifth _ _) H).
Qed.

Lemma calculate_risk_floor_witness :
  exists s,
    calculate_risk (case_body "Clear" 20 5 0) = Ok s
    /\ (fmin 0.95 (0.1 + conditionWeight "Clear" + tempRisk 20) <=? s)%float = true
    /\ (0.2 <=? s)%float = true.
Proof.
  apply (calculate_risk_floor (case_body "Clear" 20 5 0)
           {| condition := "Clear"; temperature := 20; windSpeed := 5;
              precipitationLastHour := 0 |}); reflexivity.
Defined.

(** X4. A thunderstorm, a tornado, a hurricane or a tropical storm is at the
    cap whatever the temperature, when wind speed and precipitation are not
    below zero: the score is exactly 0.95. *)
Theorem calculate_risk_severe (wd : pyval) (o : WeatherObservation) :
  observe wd = Some o ->
  condition o ∈ ["Thunderstorm"; "Tornado"; "Hurricane"; "Tropical Storm"] ->
  (windSpeed o <? 0)%float = false ->
  (precipitationLastHour o <? 0)%float = false ->
  calculate_risk wd = Ok 0.95%float.
Proof.
  intros Ho Hc Hw Hp. rewrite (calculate_risk_observe wd o Ho). f_equal.
  apply leb_antisym_cap; [|apply score_le_cap].
  pose proof (score_ge_base o Hw Hp) as H.
  rewrite base_cap in H; [exact H|].
  repeat (apply elem_of_cons in Hc as [->|Hc]; [reflexivity|]).
  apply elem_of_nil in Hc as [].
Qed.

Lemma calculate_risk_severe_witness :
  calculate_risk (case_body "Tornado" (-20) 0 0) = Ok 0.95%float.
Proof.
  apply (calculate_risk_severe (case_body "Tornado" (-20) 0 0)
           {| condition := "Tornado"; temperature := -20; windSpeed := 0;
              precipitationLastHour := 0 |}); try reflexivity.
  simpl. apply list_elem_of_further, list_elem_of_here.
Defined.

(** X5. The colour of a marker by condition, when wind speed and
    precipitation are not below zero. Rain, snow, an extreme and the four
    severe conditions are always red. A green marker means a condition of
    the lowest weight, 0.1 (Clear, or a label that is not in the table), and
    a temperature that is neither above 30 nor below 0. *)
Theorem get_risk_color_by_condition (wd : pyval) (o : WeatherObservation) (s : float) :
  observe wd = Some o ->
  (windSpeed o <? 0)%float = false ->
  (precipitationLastHour o <? 0)%float = false ->
  calculate_risk wd = Ok s ->
  (condition o ∈ ["Rain"; "Snow"; "Extreme"; "Thunderstorm"; "Tornado";
                  "Hurricane"; "Tropical Storm"] ->
   get_risk_color s = "red")
  /\ (get_risk_color s = "green" ->
      conditionWeight (condition o) = 0.1%float
      /\ (30 <? temperature o)%float = false
      /\ (temperature o <? 0)%float = false).
Proof.
  intros Ho Hw Hp Hs. rewrite (calculate_risk_observe wd o Ho) in Hs.
  injection Hs as <-.
  pose proof (score_ge_base o Hw Hp) as H.
  destruct (leb_not_nan _ _ H) as [_ Ns].
  unfold get_risk_color. split.
  - intros Hc.
    assert (Hcw : (0.6 <=? conditionWeight (condition o))%float = true).
    { repeat (apply elem_of_cons in Hc as [->|Hc]; [reflexivity|]).
      apply elem_of_nil in Hc as []. }
    pose proof (leb_trans _ _ _ (base_red _ (temperature o) Hcw) H) as H7.
    assert (H3 : (0.3 <=? score o)%float = true).
    { apply (leb_trans 0.3 0.7); [reflexivity|exact H7]. }
    rewrite (ltb_negb_leb (score o) 0.3 Ns eq_refl), H3.
    rewrite (ltb_negb_leb (score o) 0.7 Ns eq_refl), H7. reflexivity.
  - destruct (base_mild (condition o) (temperature o)) as [Hm|H3]; [auto|].
    pose proof (leb_trans _ _ _ H3 H) as H3'.
    rewrite (ltb_negb_leb (score o) 0.3 Ns eq_refl), H3'. cbn [negb].
    destruct (score o <? 0.7)%float; discriminate.
Qed.

Lemma get_risk_color_by_condition_witness :
  ("Snow" ∈ ["Rain"; "Snow"; "Extreme"; "Thunderstorm"; "Tornado";
             "Hurricane"; "Tropical Storm"] ->
   get_risk_color 0.85 = "red")
  /\ (get_risk_color 0.85 = "green" ->
      conditionWeight "Snow" = 0.1%float
      /\ (30 <? 20)%float = false
      /\ (20 <? 0)%float = false).
Proof.
  apply (get_risk_color_by_condition (case_body "Snow" 20 5 0)
           {| condition := "Snow"; temperature := 20; windSpeed := 5;
              precipitationLastHour := 0 |} 0.85); reflexivity.
Defined.

(** X6. A wind speed or a precipitation that is NaN - the decoder reads the
    literal NaN - puts the score at the cap: every comparison with it is
    false, so both [min] keep their first argument, the quotient in the sum
    and 0.95 at the end. *)
Theorem calculate_risk_nan_field (wd : pyval) (o : WeatherObservation) :
  observe wd = Some o ->
  is_nan (windSpeed o) = true \/ is_nan (precipitationLastHour o) = true ->
  calculate_risk wd = Ok 0.95%float.
Proof.
  intros Ho Hn. rewrite (calculate_risk_observe wd o Ho). f_equal.
  unfold score. apply fmin_nan_r. destruct Hn as [Hn|Hn].
  - apply is_nan_add_l, is_nan_add_r, fmin_nan_l, is_nan_div, Hn.
  - apply is_nan_add_r, fmin_nan_l, is_nan_div, Hn.
Qed.

Lemma calculate_risk_nan_field_witness :
  calculate_risk (case_body "Clear" 20 PrimFloat.nan 0) = Ok 0.95%float.
Proof.
  apply (calculate_risk_nan_field (case_body "Clear" 20 PrimFloat.nan 0)
           {| condition := "Clear"; temperature := 20; windSpeed := PrimFloat.nan;
              precipitationLastHour := 0 |}); [reflexivity|].
  left. reflexivity.
Defined.

Lemma get_risk_color_mono (s1 s2 : float) :
  (s1 <=? s2)%float = true ->
  (get_risk_color s1 = "red" -> get_risk_color s2 = "red")
  /\ (get_risk_color s2 = "green" -> get_risk_color s1 = "green").
Proof.
  intros H. unfold get_risk_color. split.
  - destruct (s1 <? 0.3)%float eqn:A1; [discriminate|].
    destruct (s1 <? 0.7)%float eqn:B1; [discriminate|]. intros _.
    destruct (s2 <? 0.7)%float eqn:B2.
    + rewrite (leb_ltb_trans _ _ _ H B2) in B1. discriminate.
    + destruct (s2 <? 0.3)%float eqn:A2; [|reflexivity].
      rewrite (ltb_leb_trans s2 0.3 0.7 A2 eq_refl) in B2. discriminate.
  - destruct (s2 <? 0.3)%float eqn:A2.
    + rewrite (leb_ltb_trans _ _ _ H A2). reflexivity.
    + destruct (s2 <? 0.7)%float; discriminate.
Qed.

(** X12. More wind or more precipitation never makes a marker milder: of two
    observations with the same condition and temperature, the second with at
    least the wind speed and the same precipitation, or the same wind speed
    and at least the precipitation, a red marker for the first means a red
    one for the second, and a green marker for the second means a green one
    for the first. *)
Theorem get_risk_color_monotone (wd1 wd2 : pyval) (o1 o2 : WeatherObservation) :
  observe wd1 = Some o1 -> observe wd2 = Some o2 ->
  condition o1 = condition o2 -> temperature o1 = temperature o2 ->
  ((windSpeed o1 <=? windSpeed o2)%float = true
   /\ precipitationLastHour o1 = precipitationLastHour o2)
  \/ (windSpeed o1 = windSpeed o2
      /\ (precipitationLastHour o1 <=? precipitationLastHour o2)%float = true) ->
  exists s1 s2,
    calculate_risk wd1 = Ok s1 /\ calculate_risk wd2 = Ok s2
    /\ (get_risk_color s1 = "red" -> get_risk_color s2 = "red")
    /\ (get_risk_color s2 = "green" -> get_risk_color s1 = "green").
Proof.
  intros H1 H2 Hc Ht H.
  exists (score o1), (score o2).
  split; [apply calculate_risk_observe, H1|].
  split; [apply calculate_risk_observe, H2|].
  apply get_risk_color_mono.
  destruct o1 as [c1 t1 w1 p1], o2 as [c2 t2 w2 p2]. simpl in *. subst c2 t2.
  destruct H as [[Hw <-]|[<- Hp]].
  - apply score_mono_wind, Hw.
  - apply score_mono_rain, Hp.
Qed.

Lemma get_risk_color_monotone_witness :
  exists s1 s2,
    calculate_risk (case_body "Clear" 20 5 0) = Ok s1
    /\ calculate_risk (case_body "Clear" 20 60 0) = Ok s2
    /\ (get_risk_color s1 = "red" -> get_risk_color s2 = "red")
    /\ (get_risk_color s2 = "green" -> get_risk_color s1 = "green").
Proof.
  apply (get_risk_color_monotone (case_body "Clear" 20 5 0) (case_body "Clear" 20 60 0)
           {| condition := "Clear"; temperature := 20; windSpeed := 5;
              precipitationLastHour := 0 |}
           {| condition := "Clear"; temperature := 20; windSpeed := 60;
              precipitationLastHour := 0 |});
    try reflexivity.
  left. split; reflexivity.
Defined.
End ScoreBelow.

(** ** The dict in the order of its keys *)

Section OrderedDict.

Implicit Types (d : list (string * RiskSnapshot)) (rs : list RiskSnapshot).

Lemma pydict_set_fresh (k : string) (v : RiskSnapshot) d :
  k ∉ d.*1 -> pydict_set k v d = d ++ [(k, v)].
Proof.
  induction d as [|[k' v'] d IH]; intros H; simpl; [reflexivity|].
  rewrite fmap_cons, not_elem_of_cons in H. destruct H as [Hne Hni].
  destruct (String.eqb_spec k k') as [E|_]; [contradiction|].
  rewrite IH by assumption. reflexivity.
Qed.

Lemma foldl_pydict_set_fresh rs d :
  NoDup (d.*1 ++ (location <$> rs)) ->
  foldl (fun d r => pydict_set (location r) r d) d rs
  = d ++ ((fun r => (location r, r)) <$> rs).
Proof.
  revert d. induction rs as [|r rs IH]; intros d Hnd; simpl.
  - rewrite app_nil_r. reflexivity.
  - assert (Hr : location r ∉ d.*1).
    { apply NoDup_app in Hnd as (_ & Hd & _). intros Hin.
      apply (Hd _ Hin). rewrite fmap_cons. apply elem_of_cons. left. reflexivity. }
    rewrite (pydict_set_fresh _ _ _ Hr), IH.
    + rewrite <- app_assoc. reflexivity.
    + rewrite fmap_app, <- app_assoc. exact Hnd.
Qed.

(** With distinct names the dict holds the snapshots as they come. *)
Lemma dict_comprehension_NoDup rs :
  NoDup (location <$> rs) ->
  dict_comprehension rs = (fun r => (location r, r)) <$> rs.
Proof.
  intros Hnd. unfold dict_comprehension.
  rewrite foldl_pydict_set_fresh; [reflexivity|exact Hnd].
Qed.

Lemma dict_comprehension_values rs :
  NoDup (location <$> rs) -> (dict_comprehension rs).*2 = rs.
Proof.
  intros Hnd. rewrite (dict_comprehension_NoDup _ Hnd), <- list_fmap_compose.
  apply list_fmap_id.
Qed.

Lemma list_to_map_pydict_set (k : string) (v : RiskSnapshot) d :
  (list_to_map (pydict_set k v d) : gmap string RiskSnapshot)
  = <[k := v]> (list_to_map d).
Proof.
  induction d as [|[k' v'] d IH]; simpl; [reflexivity|].
  destruct (String.eqb_spec k k') as [<-|Hne]; simpl.
  - rewrite insert_insert_eq. reflexivity.
  - rewrite IH. apply insert_insert_ne. congruence.
Qed.

Lemma list_to_map_foldl_pydict_set rs d :
  (list_to_map (foldl (fun d r => pydict_set (location r) r d) d rs)
     : gmap string RiskSnapshot)
  = foldl (fun m r => <[location r := r]> m) (list_to_map d) rs.
Proof.
  revert d. induction rs as [|r rs IH]; intros d; simpl; [reflexivity|].
  rewrite IH, list_to_map_pydict_set. reflexivity.
Qed.

(** The ordered dict stands for the map of the aggregator. *)
Lemma list_to_map_dict_comprehension rs :
  list_to_map (dict_comprehension rs) = dict_by_location rs.
Proof. apply list_to_map_foldl_pydict_set. Qed.

Lemma elem_of_pydict_set (k : string) (v : RiskSnapshot) d (p : string * RiskSnapshot) :
  p ∈ pydict_set k v d -> p = (k, v) \/ p ∈ d.
Proof.
  induction d as [|[k' v'] d IH]; simpl.
  - rewrite list_elem_of_singleton. auto.
  - destruct (String.eqb k k'); rewrite !elem_of_cons; [tauto|].
    intros [H|H]; [auto|]. destruct (IH H); auto.
Qed.

Lemma pydict_set_has (k : string) (v : RiskSnapshot) d :
  (k, v) ∈ pydict_set k v d.
Proof.
  induction d as [|[k' v'] d IH]; simpl.
  - apply list_elem_of_singleton. reflexivity.
  - destruct (String.eqb k k'); apply elem_of_cons; auto.
Qed.

Lemma pydict_set_keeps (k : string) (v : RiskSnapshot) d (k0 : string) :
  k0 ∈ d.*1 -> k0 ∈ (pydict_set k v d).*1.
Proof.
  induction d as [|[k' v'] d IH]; cbn [pydict_set].
  - intros H. apply elem_of_nil in H as [].
  - destruct (String.eqb_spec k k') as [->|Hne]; rewrite !fmap_cons, !elem_of_cons;
      simpl; [tauto|]. intros [H|H]; auto.
Qed.

Lemma NoDup_pydict_set (k : string) (v : RiskSnapshot) d :
  NoDup d.*1 -> NoDup (pydict_set k v d).*1.
Proof.
  induction d as [|[k' v'] d IH]; cbn [pydict_set].
  - intros _. apply NoDup_singleton.
  - rewrite fmap_cons, NoDup_cons. simpl. intros [Hk Hnd].
    destruct (String.eqb_spec k k') as [->|Hne]; rewrite fmap_cons, NoDup_cons; simpl.
    + auto.
    + split; [|auto]. intros Hin.
      apply list_elem_of_fmap in Hin as ([k1 v1] & E & Hin). simpl in E. subst k1.
      apply elem_of_pydict_set in Hin as [[= -> _]|Hin]; [congruence|].
      apply Hk. apply list_elem_of_fmap. exists (k', v1). auto.
Qed.

(** What a run of assignments leaves in the dict: distinct keys, each with a
    snapshot of that name, from the run or from before it. *)
Lemma foldl_pydict_set_inv rs d :
  NoDup d.*1 ->
  NoDup (foldl (fun d r => pydict_set (location r) r d) d rs).*1
  /\ (forall p, p ∈ foldl (fun d r => pydict_set (location r) r d) d rs ->
        (p.2 ∈ rs /\ p.1 = location p.2) \/ p ∈ d)
  /\ (forall r, r ∈ rs ->
        location r ∈ (foldl (fun d r => pydict_set (location r) r d) d rs).*1).
Proof.
  revert d. induction rs as [|r rs IH]; intros d Hnd; simpl.
  - split; [exact Hnd|]. split; [auto|]. intros r Hr. apply elem_of_nil in Hr as [].
  - destruct (IH _ (NoDup_pydict_set (location r) r d Hnd)) as (N & E & K).
    split; [exact N|]. split.
    + intros p Hp. destruct (E p Hp) as [[Hin Hk]|Hin].
      * left. split; [apply elem_of_cons; auto|exact Hk].
      * apply elem_of_pydict_set in Hin as [->|Hin]; [|auto].
        left. split; [apply elem_of_cons; auto|reflexivity].
    + intros r' Hr'. apply elem_of_cons in Hr' as [->|Hr']; [|auto].
      clear -r. generalize (pydict_set_has (location r) r d).
      generalize (pydict_set (location r) r d). intros d0 Hin.
      assert (H0 : location r ∈ d0.*1).
      { apply list_elem_of_fmap. exists (location r, r). auto. }
      clear Hin. revert d0 H0. induction rs as [|a rs IH]; intros d0 H0; simpl; [exact H0|].
      apply IH, pydict_set_keeps, H0.
Qed.

Lemma dict_comprehension_inv rs :
  NoDup (dict_comprehension rs).*1
  /\ (forall p, p ∈ dict_comprehension rs -> p.2 ∈ rs /\ p.1 = location p.2)
  /\ (forall r, r ∈ rs -> location r ∈ (dict_comprehension rs).*1).
Proof.
  destruct (foldl_pydict_set_inv rs [] (NoDup_nil_2)) as (N & E & K).
  split; [exact N|]. split; [|exact K].
  intros p Hp. destruct (E p Hp) as [H|H]; [exact H|]. apply elem_of_nil in H as [].
Qed.

Lemma dict_comprehension_names rs :
  location <$> (dict_comprehension rs).*2 = (dict_comprehension rs).*1.
Proof.
  destruct (dict_comprehension_inv rs) as (_ & E & _).
  rewrite <- list_fmap_compose. apply Forall_fmap_ext_1, Forall_forall.
  intros p Hp. symmetry. apply E, Hp.
Qed.

Lemma update_all_locations_in_order_eq (self : Drs) (world : nat -> Exchange) :
  update_all_locations_in_order self world =
  Ok ({| drs_weather_data :=
           dict_comprehension (omap fetched (pass world (drs_monitored_locations self)));
         drs_monitored_locations := drs_monitored_locations self |},
      omap fetched (pass world (drs_monitored_locations self))).
Proof.
  unfold update_all_locations_in_order.
  rewrite (executor_map_total _ fetched).
  - simpl. unfold valid_results_of. rewrite omap_id_fmap. reflexivity.
  - intros [loc x]. apply fetch_weather_data_fetched.
Qed.

Lemma create_heatmap_store (repr_html : FoliumMap -> result string)
    (self : Drs) (world : nat -> Exchange) :
  (create_heatmap repr_html self world).1 =
  {| drs_weather_data :=
       dict_comprehension (omap fetched (pass world (drs_monitored_locations self)));
     drs_monitored_locations := drs_monitored_locations self |}.
Proof.
  unfold create_heatmap. rewrite update_all_locations_in_order_eq. reflexivity.
Qed.

End OrderedDict.

(** ** The dashboard *)

Section Dashboard.

Lemma omap_fetched_scored (ps : list (Location * Exchange)) (r : RiskSnapshot) :
  r ∈ omap fetched ps -> calculate_risk (snap_weather_data r) = Ok (risk_score r).
Proof.
  rewrite elem_of_omap_fetched. intros (loc & x & _ & H).
  apply fetch_try_Some in H. apply H.
Qed.

(** The popup of a snapshot whose body the scorer took: it is built when the
    body can be shown, and a KeyError else. *)
Lemma popup_html_scorable (r : RiskSnapshot) :
  scorable (snap_weather_data r) = true ->
  match popup_html r with
  | Ok p => displayable (snap_weather_data r) = true
  | Raise e => displayable (snap_weather_data r) = false /\ e = KeyError
  end.
Proof.
  unfold popup_html. destruct r as [l la lo wd s ts]. cbn [snap_weather_data].
  destruct wd as [| | | | | |kvs]; try discriminate.
  unfold scorable, weather_ok, field_ok, displayable, has_key, subscript.
  intros H. apply andb_true_iff in H as [H Hr]. apply andb_true_iff in H as [H Hw].
  apply andb_true_iff in H as [Hc Ht]. clear Hr.
  destruct (assoc "main" kvs) as [[| | | | | |dm]|]; try discriminate; simpl; [|auto].
  destruct (assoc "temp" dm) as [vt|]; simpl; [|auto].
  destruct (assoc "weather" kvs) as [[| | | | |[|[| | | | | |df] ?]|]|];
    try discriminate; simpl; [|auto].
  destruct (assoc "main" df) as [vc|]; simpl; [|auto].
  destruct (assoc "wind" kvs) as [[| | | | | |dw]|]; try discriminate; simpl; [|auto].
  destruct (assoc "speed" dw) as [vs|]; simpl; [|auto].
  destruct (assoc "humidity" dm) as [vh|]; simpl; auto.
Qed.

Lemma add_markers_spec (values : list RiskSnapshot) (m : FoliumMap) :
  match add_markers m values with
  | Ok m' =>
      map_location m' = map_location m /\ zoom_start m' = zoom_start m
      /\ exists mks, markers m' = markers m ++ mks /\ Forall2 marks values mks
  | Raise e => exists r, r ∈ values /\ popup_html r = Raise e
  end.
Proof.
  revert m. induction values as [|r values IH]; intros m; simpl.
  - repeat split. exists []. rewrite app_nil_r. split; [reflexivity|constructor].
  - unfold add_marker.
    destruct (popup_html r) as [p|e] eqn:Hp; simpl.
    + match goal with |- context [add_markers ?m0 values] => specialize (IH m0) end.
      destruct (add_markers _ values) as [m'|e]; simpl in *.
      * destruct IH as (-> & -> & mks & -> & HF). repeat split.
        eexists (_ :: mks). rewrite <- app_assoc. split; [reflexivity|].
        constructor; [|exact HF]. unfold marks. simpl. rewrite Hp. repeat split.
      * destruct IH as (r' & Hin & Hr'). exists r'. split; [apply elem_of_cons; auto|exact Hr'].
    + exists r. split; [apply elem_of_cons; auto|exact Hp].
Qed.

Lemma drs_view_refreshed (repr_html : FoliumMap -> result string)
    (drs : Drs) (world : nat -> Exchange) :
  update_all_locations (drs_view drs) world
  = Ok (drs_view (dashboard repr_html drs world).1,
        omap fetched (pass world (drs_monitored_locations drs))).
Proof.
  unfold dashboard. rewrite create_heatmap_store, update_all_locations_eq.
  unfold drs_view. simpl. rewrite list_to_map_dict_comprehension. reflexivity.
Qed.

Lemma lookup_dict_by_location_elem (rs : list RiskSnapshot) (k : string)
    (r : RiskSnapshot) :
  dict_by_location rs !! k = Some r -> r ∈ rs /\ location r = k.
Proof.
  rewrite <- list_to_map_dict_comprehension. intros H.
  apply elem_of_list_to_map_2 in H.
  destruct (dict_comprehension_inv rs) as (_ & E & _).
  destruct (E _ H) as [Hin Hk]. simpl in *. auto.
Qed.

(** X8. After the dashboard route has run over locations with distinct names,
    the system is the one a refresh leaves, and the alerts route lists exactly
    the snapshots that refresh returned, in the order of the monitored
    locations - whatever the rendering of the map does, and also when the
    route raised. *)
Theorem dashboard_then_get_alerts (repr_html : FoliumMap -> result string)
    (drs : Drs) (world : nat -> Exchange) :
  NoDup (name <$> drs_monitored_locations drs) ->
  exists self' rs,
    update_all_locations (drs_view drs) world = Ok (self', rs)
    /\ drs_view (dashboard repr_html drs world).1 = self'
    /\ get_alerts (dashboard repr_html drs world).1 = rs.
Proof.
  intros Hnd. eexists _, _. split; [apply (drs_view_refreshed repr_html)|].
  split; [reflexivity|].
  unfold dashboard, get_alerts. rewrite create_heatmap_store. simpl.
  apply dict_comprehension_values, NoDup_omap_fetched.
  rewrite pass_fst. exact Hnd.
Qed.

(** A 200 answer whose body is the empty object: the scorer takes it, the
    popup cannot show it. *)
Definition bare_exchange : Exchange :=
  {| requests_get := Ok {| status_code := 200; json := Ok (PyDict []) |};
     now_isoformat := "2026-01-01T00:00:00" |}.

(** A rendering that returns a page. *)
Definition page (m : FoliumMap) : result string := Ok "<div></div>".

Lemma dashboard_then_get_alerts_witness :
  exists self' rs,
    update_all_locations (drs_view drs_init) (fun _ => bare_exchange) = Ok (self', rs)
    /\ drs_view (dashboard page drs_init (fun _ => bare_exchange)).1 = self'
    /\ get_alerts (dashboard page drs_init (fun _ => bare_exchange)).1 = rs.
Proof.
  apply (dashboard_then_get_alerts page drs_init (fun _ => bare_exchange)).
  vm_compute. repeat (constructor; [intros H; repeat (inversion H as [|? ? ? H']; clear H; rename H' into H) |]).
  constructor.
Defined.

(** With such answers the dashboard route raises, and the alerts route then
    lists the ten snapshots all the same. *)
Lemma dashboard_raises_on_bare_body :
  (dashboard page drs_init (fun _ => bare_exchange)).2 = Raise KeyError
  /\ length (get_alerts (dashboard page drs_init (fun _ => bare_exchange)).1) = 10%nat.
Proof. split; reflexivity. Qed.

(** X9. Whatever the names of the monitored locations, the alerts route after
    the dashboard route lists one snapshot per name, each of them the one the
    refresh stored under its name; all of them come from that refresh, and
    every name the refresh returned has its alert. *)
Theorem get_alerts_one_per_name (repr_html : FoliumMap -> result string)
    (drs : Drs) (world : nat -> Exchange) :
  let alerts := get_alerts (dashboard repr_html drs world).1 in
  exists self' rs,
    update_all_locations (drs_view drs) world = Ok (self', rs)
    /\ NoDup (location <$> alerts)
    /\ (forall r, r ∈ alerts <-> weather_data self' !! location r = Some r)
    /\ (forall r, r ∈ alerts -> r ∈ rs)
    /\ (forall r, r ∈ rs -> exists r', r' ∈ alerts /\ location r' = location r).
Proof.
  intros alerts. eexists _, _. split; [apply (drs_view_refreshed repr_html)|].
  unfold alerts, dashboard, get_alerts, drs_view. rewrite create_heatmap_store. simpl.
  set (rs := omap fetched (pass world (drs_monitored_locations drs))).
  destruct (dict_comprehension_inv rs) as (N & E & K).
  split; [rewrite dict_comprehension_names; exact N|]. split; [|split].
  - intros r. split.
    + intros Hin. apply list_elem_of_fmap in Hin as ([k r'] & -> & Hin).
      destruct (E _ Hin) as [_ Hk]. simpl in *. subst k.
      apply elem_of_list_to_map_1; assumption.
    + intros H. apply elem_of_list_to_map_2 in H.
      apply list_elem_of_fmap. exists (location r, r). auto.
  - intros r Hin. apply list_elem_of_fmap in Hin as ([k r'] & -> & Hin).
    apply (E _ Hin).
  - intros r Hr. specialize (K r Hr).
    apply list_elem_of_fmap in K as ([k r'] & Hk & Hin). simpl in Hk. subst k.
    exists r'. split.
    + apply list_elem_of_fmap. exists (location r, r'). auto.
    + destruct (E _ Hin) as [_ Hk]. simpl in Hk. congruence.
Qed.

(** X10. Over monitored locations whose coordinates are numbers,
    [create_heatmap] refreshes the system and then goes one of two ways.
    When every stored body has the attributes the popup shows, it builds the
    map, centred as in the source, with one marker per stored snapshot in the
    order of the dict - at the snapshot's coordinates, with its popup, in the
    colour of its score - and ends as the rendering of that map does: with
    its html, or with the exception it raises. When a stored body lacks one
    of these attributes, though the scorer took it, the loop raises a
    KeyError, and nothing is rendered. *)
Theorem create_heatmap_markers (repr_html : FoliumMap -> result string)
    (self : Drs) (world : nat -> Exchange) :
  Forall (fun loc => is_nan (lat loc) = false /\ is_nan (lon loc) = false)
    (drs_monitored_locations self) ->
  let self' := (create_heatmap repr_html self world).1 in
  if forallb (fun r => displayable (snap_weather_data r)) (get_alerts self')
  then
    exists m,
      map_location m = (39.8283, -98.5795)%float
      /\ zoom_start m = 4
      /\ Forall2 marks (get_alerts self') (markers m)
      /\ (create_heatmap repr_html self world).2 = repr_html m
  else (create_heatmap repr_html self world).2 = Raise KeyError.
Proof.
  intros _ self'. unfold self'. rewrite create_heatmap_store.
  unfold create_heatmap. rewrite update_all_locations_in_order_eq.
  unfold get_alerts. cbn [fst snd drs_weather_data].
  set (rs := omap fetched (pass world (drs_monitored_locations self))).
  assert (Hsc : forall r, r ∈ (dict_comprehension rs).*2 ->
                          scorable (snap_weather_data r) = true).
  { intros r Hin. apply list_elem_of_fmap in Hin as ([k r'] & -> & Hin).
    destruct (dict_comprehension_inv rs) as (_ & E & _).
    destruct (E _ Hin) as [Hr _]. simpl in *.
    rewrite <- is_ok_calculate_risk.
    rewrite (omap_fetched_scored _ _ Hr). reflexivity. }
  match goal with |- context [add_markers ?m0 ?vs] =>
    pose proof (add_markers_spec vs m0) as H end.
  destruct (add_markers _ _) as [m|e].
  - destruct H as (Hl & Hz & mks & Hm & HF). simpl in Hl, Hz, Hm.
    assert (Hall : forallb (fun r => displayable (snap_weather_data r))
                     (dict_comprehension rs).*2 = true).
    { apply forallb_forall. intros r Hr. apply list_elem_of_In in Hr.
      pose proof (popup_html_scorable r (Hsc r Hr)) as Hp.
      apply list_elem_of_lookup in Hr as [i Hi].
      destruct (Forall2_lookup_l _ _ _ i r HF Hi) as (mk & _ & Hk).
      destruct Hk as (_ & _ & Hq & _). rewrite Hq in Hp. exact Hp. }
    rewrite Hall. exists m. rewrite Hl, Hz, Hm. auto.
  - destruct H as (r & Hr & Hp).
    pose proof (popup_html_scorable r (Hsc r Hr)) as Hq. rewrite Hp in Hq.
    destruct Hq as [Hd ->].
    destruct (forallb _ _) eqn:Hall; [|reflexivity].
    rewrite forallb_forall in Hall.
    rewrite (Hall r) in Hd; [discriminate|]. apply list_elem_of_In, Hr.
Qed.

(** A 200 answer with [rain_body]. *)
Definition rain_exchange : Exchange :=
  {| requests_get := Ok {| status_code := 200; json := Ok rain_body |};
     now_isoformat := "2026-01-01T00:00:00" |}.

Lemma create_heatmap_markers_witness :
  let self' := (create_heatmap page drs_init (fun _ => rain_exchange)).1 in
  if forallb (fun r => displayable (snap_weather_data r)) (get_alerts self')
  then
    exists m,
      map_location m = (39.8283, -98.5795)%float
      /\ zoom_start m = 4
      /\ Forall2 marks (get_alerts self') (markers m)
      /\ (create_heatmap page drs_init (fun _ => rain_exchange)).2 = page m
  else (create_heatmap page drs_init (fun _ => rain_exchange)).2 = Raise KeyError.
Proof.
  apply (create_heatmap_markers page drs_init (fun _ => rain_exchange)).
  repeat constructor.
Defined.

(** What the rendering raises, the route raises: here on bodies that have
    every attribute the popup shows. *)
Lemma create_heatmap_rendering_raises :
  (create_heatmap (fun _ => Raise (RenderingError "TemplateSyntaxError"))
     drs_init (fun _ => rain_exchange)).2
  = Raise (RenderingError "TemplateSyntaxError").
Proof. reflexivity. Qed.

(** X11. The class the dashboard's script gives an alert is the colour of its
    marker: red with bg-red-100, orange with bg-yellow-100, green with
    bg-green-100, for every score the scorer returns. *)
Theorem alertClass_matches_get_risk_color (wd : pyval) (s : float) :
  calculate_risk wd = Ok s ->
  (get_risk_color s = "red" <-> alertClass s = "bg-red-100")
  /\ (get_risk_color s = "orange" <-> alertClass s = "bg-yellow-100")
  /\ (get_risk_color s = "green" <-> alertClass s = "bg-green-100").
Proof.
  intros H. apply calculate_risk_le_cap, leb_not_nan in H as [Hs _].
  unfold get_risk_color, alertClass.
  pose proof (ltb_negb_leb s 0.3 Hs eq_refl) as H3.
  pose proof (ltb_negb_leb s 0.7 Hs eq_refl) as H7.
  destruct (s <? 0.3)%float eqn:E3.
  - assert (E7 : (s <? 0.7)%float = true).
    { apply (ltb_leb_trans s 0.3 0.7 E3). reflexivity. }
    rewrite E7 in H7.
    destruct (0.3 <=? s)%float; [discriminate|].
    destruct (0.7 <=? s)%float; [discriminate|].
    repeat split; auto; discriminate.
  - destruct (0.3 <=? s)%float; [|discriminate].
    destruct (s <? 0.7)%float.
    + destruct (0.7 <=? s)%float; [discriminate|]. repeat split; auto; discriminate.
    + destruct (0.7 <=? s)%float; [|discriminate]. repeat split; auto; discriminate.
Qed.

Lemma alertClass_matches_get_risk_color_witness :
  (get_risk_color 0.25 = "red" <-> alertClass 0.25 = "bg-red-100")
  /\ (get_risk_color 0.25 = "orange" <-> alertClass 0.25 = "bg-yellow-100")
  /\ (get_risk_color 0.25 = "green" <-> alertClass 0.25 = "bg-green-100").
Proof.
  apply (alertClass_matches_get_risk_color (case_body "Clear" 20 5 0) 0.25).
  reflexivity.
Defined.

(** On NaN, which the scorer never returns, the two disagree: the marker
    would be red and the alert green. *)
Lemma alertClass_differs_on_nan :
  get_risk_color PrimFloat.nan = "red" /\ alertClass PrimFloat.nan = "bg-green-100".
Proof. split; reflexivity. Qed.

(** X7. What a refresh stores: every entry of the mapping is a snapshot the
    refresh returned, stored under its own name; it carries the name and the
    coordinates of a monitored location, the body the service answered that
    location's request with (status 200), the score of that very body, which
    is at most 0.95, and the clock's reading of that fetch. *)
Theorem update_all_locations_stores_scored
    (self : DisasterResponseSystem) (world : nat -> Exchange) :
  exists self' rs,
    update_all_locations self world = Ok (self', rs)
    /\ forall k r, weather_data self' !! k = Some r ->
         r ∈ rs
         /\ location r = k
         /\ calculate_risk (snap_weather_data r) = Ok (risk_score r)
         /\ (risk_score r <=? 0.95)%float = true
         /\ exists i response,
              monitored_locations self !! i = Some (location_of r)
              /\ requests_get (world i) = Ok response
              /\ status_code response = 200
              /\ json response = Ok (snap_weather_data r)
              /\ timestamp r = now_isoformat (world i).
Proof.
  eexists _, _. split; [apply update_all_locations_eq|]. simpl.
  intros k r H. apply lookup_dict_by_location_elem in H as [Hin Hk].
  split; [exact Hin|]. split; [exact Hk|].
  apply elem_of_omap_fetched in Hin as (loc & x & Hp & Hf).
  apply fetch_try_Some in Hf as (Hl & Hs & Ht & resp & Hg & Hc & Hj).
  apply pass_lookup in Hp as (i & Hi & ->).
  split; [exact Hs|]. split; [apply (calculate_risk_le_cap _ _ Hs)|].
  exists i, resp. rewrite Hl. auto.
Qed.
End Dashboard.
